(** * FurFusion API worker: signed review-link tokens and webhook signatures

    A shallow embedding of the signed-token and webhook-authentication code of
    [worker/src/index.ts]: [verifyStripeWebhookRaw], [createReviewToken],
    [verifyReviewToken], [hmacHex], [timingSafeEqualHex], [base64urlEncode]
    and [base64urlDecode], together with the parts of the JavaScript runtime
    they call (strings of UTF-16 code units, [TextEncoder], HMAC-SHA-256 of
    Web Crypto, [btoa]/[atob], the URI coding functions and [JSON]). *)

From Stdlib Require Import ZArith List Lia Ascii String Strings.Byte Bool Eqdep_dec.
From stdpp Require Import base tactics option list gmap.

Local Open Scope Z_scope.
Local Set Warnings "-register-all".

(** ** JavaScript strings

    A JavaScript string is a sequence of 16-bit code units.  [char16] is the
    type of one code unit: an integer with the proof that it fits 16 bits. *)

Definition in_u16 (z : Z) : bool := (0 <=? z) && (z <? 65536).

Record char16 : Set := Char16 { code : Z; code_in_u16 : in_u16 code = true }.

Definition chr (z : Z) : char16 :=
  match Sumbool.sumbool_of_bool (in_u16 (z mod 65536)) with
  | left H => Char16 (z mod 65536) H
  | right _ => Char16 0 eq_refl
  end.

Abbreviation jsstring := (list char16).

(** A literal of the source, written as a Rocq string of ASCII characters. *)
Definition js (s : string) : jsstring :=
  map (fun a => chr (Z.of_N (N_of_ascii a))) (list_ascii_of_string s).

Definition char16_eqb (a b : char16) : bool := code a =? code b.

Fixpoint jsstring_eqb (a b : jsstring) : bool :=
  match a, b with
  | [], [] => true
  | x :: a', y :: b' => char16_eqb x y && jsstring_eqb a' b'
  | _, _ => false
  end.

(** [s.charCodeAt(i)]: the code unit at index [i], [None] (NaN) out of range. *)
Definition charCodeAt (s : jsstring) (i : nat) : option Z := code <$> s !! i.

(** Truthiness of a string: every string but the empty one. *)
Definition truthy_string (s : jsstring) : bool :=
  match s with [] => false | _ :: _ => true end.

(** ** Bytes ([Uint8Array] elements) *)

Definition byte_to_Z (b : byte) : Z := Z.of_N (Byte.to_N b).

Definition byte_of_Z (z : Z) : byte :=
  match Byte.of_N (Z.to_N (z mod 256)) with
  | Some b => b
  | None => x00
  end.

(** ** [TextEncoder.prototype.encode]: UTF-8 of a string

    The string is first read as code points; a surrogate that has no partner
    is replaced by U+FFFD, as the encoding standard prescribes. *)

Definition is_high_surrogate (c : char16) : bool :=
  (55296 <=? code c) && (code c <=? 56319).
Definition is_low_surrogate (c : char16) : bool :=
  (56320 <=? code c) && (code c <=? 57343).

Definition pair_code_point (h l : char16) : Z :=
  65536 + (code h - 55296) * 1024 + (code l - 56320).

Fixpoint code_points_replacing (s : jsstring) : list Z :=
  match s with
  | [] => []
  | c :: r =>
      if is_high_surrogate c then
        match r with
        | d :: r' =>
            if is_low_surrogate d then pair_code_point c d :: code_points_replacing r'
            else 65533 :: code_points_replacing r
        | [] => [65533]
        end
      else if is_low_surrogate c then 65533 :: code_points_replacing r
      else code c :: code_points_replacing r
  end.

Definition utf8_of_code_point (cp : Z) : list byte :=
  if cp <? 128 then [byte_of_Z cp]
  else if cp <? 2048 then
    [byte_of_Z (192 + cp / 64); byte_of_Z (128 + cp mod 64)]
  else if cp <? 65536 then
    [byte_of_Z (224 + cp / 4096); byte_of_Z (128 + (cp / 64) mod 64);
     byte_of_Z (128 + cp mod 64)]
  else
    [byte_of_Z (240 + cp / 262144); byte_of_Z (128 + (cp / 4096) mod 64);
     byte_of_Z (128 + (cp / 64) mod 64); byte_of_Z (128 + cp mod 64)].

Definition TextEncoder_encode (s : jsstring) : list byte :=
  flat_map utf8_of_code_point (code_points_replacing s).

(** ** SHA-256 (FIPS 180-4) and HMAC (RFC 2104)

    [crypto.subtle.sign("HMAC", key, data)] with hash SHA-256.  Words are
    32-bit integers in [Z]; every addition and left shift is reduced modulo
    [2^32]. *)

Module SHA256.

Definition w32 (z : Z) : Z := z mod 4294967296.
Definition add32 (x y : Z) : Z := w32 (x + y).
Definition rotr (n x : Z) : Z := Z.lor (Z.shiftr x n) (w32 (Z.shiftl x (32 - n))).
Definition not32 (x : Z) : Z := 4294967295 - x.

Definition Ch (x y z : Z) : Z := Z.lxor (Z.land x y) (Z.land (not32 x) z).
Definition Maj (x y z : Z) : Z :=
  Z.lxor (Z.lxor (Z.land x y) (Z.land x z)) (Z.land y z).
Definition Sigma0 (x : Z) : Z := Z.lxor (Z.lxor (rotr 2 x) (rotr 13 x)) (rotr 22 x).
Definition Sigma1 (x : Z) : Z := Z.lxor (Z.lxor (rotr 6 x) (rotr 11 x)) (rotr 25 x).
Definition sigma0 (x : Z) : Z := Z.lxor (Z.lxor (rotr 7 x) (rotr 18 x)) (Z.shiftr x 3).
Definition sigma1 (x : Z) : Z := Z.lxor (Z.lxor (rotr 17 x) (rotr 19 x)) (Z.shiftr x 10).

(** The round constants: the first 32 bits of the fractional parts of the
    cube roots of the first 64 primes. *)
Definition K : list Z :=
  [1116352408; 1899447441; 3049323471; 3921009573;
   961987163; 1508970993; 2453635748; 2870763221;
   3624381080; 310598401; 607225278; 1426881987;
   1925078388; 2162078206; 2614888103; 3248222580;
   3835390401; 4022224774; 264347078; 604807628;
   770255983; 1249150122; 1555081692; 1996064986;
   2554220882; 2821834349; 2952996808; 3210313671;
   3336571891; 3584528711; 113926993; 338241895;
   666307205; 773529912; 1294757372; 1396182291;
   1695183700; 1986661051; 2177026350; 2456956037;
   2730485921; 2820302411; 3259730800; 3345764771;
   3516065817; 3600352804; 4094571909; 275423344;
   430227734; 506948616; 659060556; 883997877;
   958139571; 1322822218; 1537002063; 1747873779;
   1955562222; 2024104815; 2227730452; 2361852424;
   2428436474; 2756734187; 3204031479; 3329325298 ].

(** The eight working variables, and the hash value between blocks. *)
Record state : Set := State { sa : Z; sb : Z; sc : Z; sd : Z; se : Z; sf : Z; sg : Z; sh : Z }.

(** The initial hash value: the first 32 bits of the fractional parts of the
    square roots of the first 8 primes. *)
Definition H0 : state :=
  State 1779033703 3144134277 1013904242 2773480762
        1359893119 2600822924 528734635 1541459225.

(** Padding: the bit 1, zeros up to 56 modulo 64 bytes, the bit length on 8 bytes. *)
Definition be_bytes (n : nat) (z : Z) : list byte :=
  map (fun i => byte_of_Z (Z.shiftr z (8 * Z.of_nat (n - 1 - i)))) (seq 0 n).

Definition pad (msg : list byte) : list byte :=
  let l := Z.of_nat (length msg) in
  msg ++ [byte_of_Z 128] ++ repeat x00 (Z.to_nat ((55 - l) mod 64)) ++ be_bytes 8 (8 * l).

Fixpoint words (l : list byte) : list Z :=
  match l with
  | a :: b :: c :: d :: r =>
      (byte_to_Z a * 16777216 + byte_to_Z b * 65536 + byte_to_Z c * 256 + byte_to_Z d)
      :: words r
  | _ => []
  end.

(** The message schedule of one block of sixteen words. *)
Definition schedule (block : list Z) : list Z :=
  fold_left
    (fun W t =>
       W ++ [add32 (add32 (add32 (sigma1 (nth (t - 2) W 0)) (nth (t - 7) W 0))
                          (sigma0 (nth (t - 15) W 0)))
                   (nth (t - 16) W 0)])
    (seq 16 48) block.

Definition round (W : list Z) (s : state) (t : nat) : state :=
  let T1 := add32 (add32 (add32 (add32 (sh s) (Sigma1 (se s))) (Ch (se s) (sf s) (sg s)))
                         (nth t K 0))
                  (nth t W 0) in
  let T2 := add32 (Sigma0 (sa s)) (Maj (sa s) (sb s) (sc s)) in
  State (add32 T1 T2) (sa s) (sb s) (sc s) (add32 (sd s) T1) (se s) (sf s) (sg s).

Definition compress (h : state) (block : list Z) : state :=
  let s := fold_left (round (schedule block)) (seq 0 64) h in
  State (add32 (sa h) (sa s)) (add32 (sb h) (sb s)) (add32 (sc h) (sc s))
        (add32 (sd h) (sd s)) (add32 (se h) (se s)) (add32 (sf h) (sf s))
        (add32 (sg h) (sg s)) (add32 (sh h) (sh s)).

Fixpoint blocks (n : nat) (ws : list Z) (h : state) : state :=
  match n with
  | O => h
  | S n' => blocks n' (drop 16 ws) (compress h (take 16 ws))
  end.

Definition word_bytes (z : Z) : list byte :=
  [byte_of_Z (Z.shiftr z 24); byte_of_Z (Z.shiftr z 16); byte_of_Z (Z.shiftr z 8); byte_of_Z z].

Definition digest (msg : list byte) : list byte :=
  let ws := words (pad msg) in
  let s := blocks (length ws / 16) ws H0 in
  word_bytes (sa s) ++ word_bytes (sb s) ++ word_bytes (sc s) ++ word_bytes (sd s) ++
  word_bytes (se s) ++ word_bytes (sf s) ++ word_bytes (sg s) ++ word_bytes (sh s).

Definition xor_byte (k : Z) (b : byte) : byte := byte_of_Z (Z.lxor (byte_to_Z b) k).

(** HMAC with block size 64: a key longer than a block is hashed first. *)
Definition hmac (key msg : list byte) : list byte :=
  let k0 := if (64 <? length key)%nat then digest key else key in
  let k := k0 ++ repeat x00 (64 - length k0) in
  digest (map (xor_byte 92) k ++ digest (map (xor_byte 54) k ++ msg)).

End SHA256.

(** ** Completions and observable effects

    A call either returns normally or throws.  The asynchronous functions of
    the source are run to completion; what they do on the way, one event per
    HMAC computation and one per iteration of a comparison loop, is kept in a
    trace, so that "no HMAC was computed" and "the loop ran to the end" are
    statements about the result of a run. *)

Inductive error : Set :=
| Error (message : string)
| DataError
| InvalidCharacterError
| URIError
| SyntaxError
| TypeError.

Inductive completion (A : Type) : Type :=
| Normal (v : A)
| Throw (e : error).
Arguments Normal {A} v.
Arguments Throw {A} e.

Inductive event : Set :=
| HmacSign (key data : list byte)
| XorStep (i : nat).

Definition run (A : Type) : Type := (completion A * list event)%type.

Global Instance completion_ret : MRet completion := fun A v => Normal v.
Global Instance completion_bind : MBind completion := fun A B f m =>
  match m with
  | Normal v => f v
  | Throw e => Throw e
  end.

Global Instance run_ret : MRet run := fun A v => (Normal v, []).
Global Instance run_bind : MBind run := fun A B f m =>
  match m with
  | (Normal v, tr) => let '(r, tr') := f v in (r, tr ++ tr')
  | (Throw e, tr) => (Throw e, tr)
  end.

Definition lift {A} (c : completion A) : run A := (c, []).
Definition throw {A} (e : error) : run A := (Throw e, []).
Definition emit (ev : event) : run unit := (Normal tt, [ev]).

Definition result {A} (r : run A) : completion A := r.1.
Definition trace {A} (r : run A) : list event := r.2.

(** [try { ... } catch { return d }] around a computation that has no effect
    of its own. *)
Definition try_catch {A} (c : completion A) (d : A) : A :=
  match c with
  | Normal v => v
  | Throw _ => d
  end.

(** [for (let i = 0; i < n; i++) body], with the loop state passed along. *)
Fixpoint for_range {S : Type} (n i : nat) (body : nat → S → run S) (s : S) : run S :=
  match n with
  | O => mret s
  | Datatypes.S n' => s' ← body i s; for_range n' (Datatypes.S i) body s'
  end.

(** ** 32-bit integer operators *)

Definition ToInt32 (z : Z) : Z :=
  let m := z mod 4294967296 in
  if m <? 2147483648 then m else m - 4294967296.

(** [ToInt32] of the result of [charCodeAt]: NaN becomes 0. *)
Definition ToInt32_charCode (o : option Z) : Z :=
  match o with
  | Some z => ToInt32 z
  | None => 0
  end.

Definition bit_xor (x y : Z) : Z := ToInt32 (Z.lxor (ToInt32 x) (ToInt32 y)).
Definition bit_or (x y : Z) : Z := ToInt32 (Z.lor (ToInt32 x) (ToInt32 y)).

(** One iteration of both comparison loops:
    [out |= a.charCodeAt(i) ^ b.charCodeAt(i)]. *)
Definition xor_step (a b : jsstring) (i : nat) (out : Z) : run Z :=
  _ ← emit (XorStep i);
  mret (bit_or out (bit_xor (ToInt32_charCode (charCodeAt a i))
                            (ToInt32_charCode (charCodeAt b i)))).

(** ** [timingSafeEqualHex] (index.ts, lines 1883-1888) *)

Definition timingSafeEqualHex (a b : jsstring) : run bool :=
  if negb (length a =? length b)%nat then mret false
  else
    out ← for_range (length a) 0 (xor_step a b) 0;
    mret (out =? 0).

(** ** [hmacHex] (index.ts, lines 1870-1881) *)

Definition hex_digit (d : Z) : char16 :=
  if d <? 10 then chr (48 + d) else chr (87 + d).

(** [b.toString(16)] for an element [b] of a [Uint8Array]. *)
Definition byte_toString16 (b : byte) : jsstring :=
  let z := byte_to_Z b in
  if z <? 16 then [hex_digit z] else [hex_digit (z / 16); hex_digit (z mod 16)].

(** [s.padStart(n, pad)] for a one-character [pad]. *)
Definition padStart (n : nat) (pad : char16) (s : jsstring) : jsstring :=
  repeat pad (n - length s) ++ s.

Definition hex_of_bytes (l : list byte) : jsstring :=
  flat_map (fun b => padStart 2 (chr 48) (byte_toString16 b)) l.

(** The accumulator both comparison loops compute, as a fold over the pairs
    of characters: the bitwise or of the exclusive or of every pair. *)
Definition xor_accumulate (a b : jsstring) : Z :=
  foldl (fun out p => Z.lor out (Z.lxor (code p.1) (code p.2))) 0 (zip a b).

(** [crypto.subtle.importKey("raw", data, {name: "HMAC", hash: "SHA-256"}, ...)]
    refuses a key of length zero. *)
Definition importKey (raw : list byte) : completion (list byte) :=
  match raw with
  | [] => Throw DataError
  | _ :: _ => Normal raw
  end.

Definition subtle_sign (key data : list byte) : run (list byte) :=
  _ ← emit (HmacSign key data);
  mret (SHA256.hmac key data).

Definition hmacHex (secret message : jsstring) : run jsstring :=
  key ← lift (importKey (TextEncoder_encode secret));
  sig ← subtle_sign key (TextEncoder_encode message);
  mret (hex_of_bytes sig).

(** The value [hmacHex] computes: the HMAC-SHA-256 of the UTF-8 bytes of the
    message under the UTF-8 bytes of the secret, in lower-case hexadecimal. *)
Definition hmac_sha256_hex (secret message : jsstring) : jsstring :=
  hex_of_bytes (SHA256.hmac (TextEncoder_encode secret) (TextEncoder_encode message)).

(** ** [String.prototype.split] and [String.prototype.trim] *)

(** [s.split(sep)] for a separator of one character. *)
Fixpoint split (sep : char16) (s : jsstring) : list jsstring :=
  match s with
  | [] => [[]]
  | c :: r =>
      if char16_eqb c sep then [] :: split sep r
      else
        match split sep r with
        | seg :: segs => (c :: seg) :: segs
        | [] => [[c]]
        end
  end.

(** White space and line terminators, the characters [trim] removes. *)
Definition is_white_space (c : char16) : bool :=
  let z := code c in
  (9 <=? z) && (z <=? 13) || (z =? 32) || (z =? 160) || (z =? 5760)
  || (8192 <=? z) && (z <=? 8202) || (z =? 8232) || (z =? 8233)
  || (z =? 8239) || (z =? 8287) || (z =? 12288) || (z =? 65279).

Fixpoint trimStart (s : jsstring) : jsstring :=
  match s with
  | [] => []
  | c :: r => if is_white_space c then trimStart r else s
  end.

Definition trimEnd (s : jsstring) : jsstring := rev (trimStart (rev s)).
Definition trim (s : jsstring) : jsstring := trimEnd (trimStart s).

(** ** Code units as keys of a map *)

Lemma char16_eq (a b : char16) : code a = code b → a = b.
Proof.
  destruct a as [x Hx], b as [y Hy]; simpl; intros ->.
  f_equal. apply UIP_dec, Bool.bool_dec.
Qed.

Lemma code_range (c : char16) : 0 <= code c < 65536.
Proof.
  pose proof (code_in_u16 c) as H. unfold in_u16 in H.
  apply andb_true_iff in H as [H1 H2]. lia.
Qed.

Lemma code_chr (z : Z) : code (chr z) = z mod 65536.
Proof.
  unfold chr. destruct (Sumbool.sumbool_of_bool _) as [H|H]; [done|].
  exfalso. unfold in_u16 in H. pose proof (Z.mod_pos_bound z 65536).
  apply andb_false_iff in H as [H|H]; lia.
Qed.

Lemma chr_code (c : char16) : chr (code c) = c.
Proof.
  apply char16_eq. rewrite code_chr. apply Z.mod_small, code_range.
Qed.

Global Instance char16_eq_dec : EqDecision char16.
Proof.
  intros a b. destruct (Z.eq_dec (code a) (code b)) as [H|H].
  - left. by apply char16_eq.
  - right. by intros ->.
Defined.

Global Instance char16_countable : Countable char16 :=
  inj_countable' code chr chr_code.

(** ** [verifyStripeWebhookRaw] (index.ts, lines 1513-1544) *)

Record Env : Set := {
  STRIPE_WEBHOOK_SECRET : option jsstring;
  REVIEW_LINK_SECRET : option jsstring
}.

(** [!env.SECRET] is false exactly for a secret that is set and not empty. *)
Definition configured (secret : option jsstring) : option jsstring :=
  match secret with
  | Some (c :: s) => Some (c :: s)
  | _ => None
  end.

(** The object [parts], used as a map from keys to values.  An assignment
    to the key [__proto__] reaches the setter of [Object.prototype], which
    ignores a string, and leaves the object as it is. *)
Definition set_property (k v : jsstring) (o : gmap jsstring jsstring) : gmap jsstring jsstring :=
  if decide (k = js "__proto__") then o else <[k := v]> o.

(** The body of the loop over the segments of the header:
    [const [k, v] = seg.split("=").map((s) => s.trim()); if (k && v) parts[k] = v;] *)
Definition header_segment (parts : gmap jsstring jsstring) (seg : jsstring) : gmap jsstring jsstring :=
  match trim <$> split (chr 61) seg with
  | k :: v :: _ =>
      if truthy_string k && truthy_string v then set_property k v parts else parts
  | _ => parts
  end.

Definition header_parts (stripeSignature : jsstring) : gmap jsstring jsstring :=
  foldl header_segment ∅ (split (chr 44) stripeSignature).

(** [parts.t] and [parts.v1] when both are present and not empty, the
    complement of the test [!t || !v1]. *)
Definition header_t_v1 (stripeSignature : jsstring) : option (jsstring * jsstring) :=
  let parts := header_parts stripeSignature in
  match parts !! js "t", parts !! js "v1" with
  | Some t, Some v1 =>
      if truthy_string t && truthy_string v1 then Some (t, v1) else None
  | _, _ => None
  end.

(** The header read as the format describes it, a list of [key=value] pairs
    separated by commas: the pair of a segment, if it holds one with a key
    and a value that are not empty, and the value of the last pair with a
    given key. *)
Definition segment_pair (seg : jsstring) : option (jsstring * jsstring) :=
  match trim <$> split (chr 61) seg with
  | k :: v :: _ => if truthy_string k && truthy_string v then Some (k, v) else None
  | _ => None
  end.

Definition header_entry (key stripeSignature : jsstring) : option jsstring :=
  snd <$> last (filter (fun kv => kv.1 = key) (omap segment_pair (split (chr 44) stripeSignature))).

(** Lines 1540-1543, the comparison written out in the function. *)
Definition stripe_compare (sigHex v1 : jsstring) : run bool :=
  if negb (length sigHex =? length v1)%nat then mret false
  else
    out ← for_range (length sigHex) 0 (xor_step sigHex v1) 0;
    mret (out =? 0).

Definition verifyStripeWebhookRaw (env : Env) (stripeSignature rawText : jsstring) : run bool :=
  match configured (STRIPE_WEBHOOK_SECRET env) with
  | None => throw (Error "Missing STRIPE_WEBHOOK_SECRET")
  | Some secret =>
      match header_t_v1 stripeSignature with
      | None => mret false
      | Some (t, v1) =>
          let signedPayload := t ++ js "." ++ rawText in
          key ← lift (importKey (TextEncoder_encode secret));
          sigBuf ← subtle_sign key (TextEncoder_encode signedPayload);
          let sigHex := hex_of_bytes sigBuf in
          stripe_compare sigHex v1
      end
  end.

(** ** URI coding functions and their legacy counterparts

    [base64urlEncode] turns a string into the string of its UTF-8 bytes with
    [unescape(encodeURIComponent(str))], and [base64urlDecode] goes back with
    [decodeURIComponent(escape(bin))]. *)

Global Instance completion_fmap : FMap completion := fun A B f m =>
  match m with
  | Normal v => Normal (f v)
  | Throw e => Throw e
  end.

Definition is_digit (c : char16) : bool := (48 <=? code c) && (code c <=? 57).
Definition is_upper (c : char16) : bool := (65 <=? code c) && (code c <=? 90).
Definition is_lower (c : char16) : bool := (97 <=? code c) && (code c <=? 122).
Definition is_alnum (c : char16) : bool := is_digit c || is_upper c || is_lower c.

(** Membership of a character in a set given as a literal. *)
Definition one_of (set : string) (c : char16) : bool :=
  existsb (char16_eqb c) (js set).

Definition hex_value (c : char16) : option Z :=
  if is_digit c then Some (code c - 48)
  else if (65 <=? code c) && (code c <=? 70) then Some (code c - 55)
  else if (97 <=? code c) && (code c <=? 102) then Some (code c - 87)
  else None.

Definition upper_hex_digit (d : Z) : char16 :=
  if d <? 10 then chr (48 + d) else chr (55 + d).

(** ["%XX"] for one octet, with upper-case digits. *)
Definition percent_octet (b : byte) : jsstring :=
  [chr 37; upper_hex_digit (byte_to_Z b / 16); upper_hex_digit (byte_to_Z b mod 16)].

Definition uri_unescaped (c : char16) : bool := is_alnum c || one_of "_-.!~*'()" c.

Fixpoint encodeURIComponent (s : jsstring) : completion jsstring :=
  match s with
  | [] => Normal []
  | c :: r =>
      if uri_unescaped c then cons c <$> encodeURIComponent r
      else if is_high_surrogate c then
        match r with
        | d :: r' =>
            if is_low_surrogate d then
              app (flat_map percent_octet (utf8_of_code_point (pair_code_point c d)))
                <$> encodeURIComponent r'
            else Throw URIError
        | [] => Throw URIError
        end
      else if is_low_surrogate c then Throw URIError
      else app (flat_map percent_octet (utf8_of_code_point (code c))) <$> encodeURIComponent r
  end.

Definition hex2 (h1 h2 : char16) : option Z :=
  a ← hex_value h1; b ← hex_value h2; Some (16 * a + b).

Definition hex4 (h1 h2 h3 h4 : char16) : option Z :=
  a ← hex2 h1 h2; b ← hex2 h3 h4; Some (256 * a + b).

(** [unescape]: ["%uXXXX"] and ["%XX"] stand for one code unit; a ["%"]
    that starts neither stands for itself. *)
Fixpoint unescape (s : jsstring) : jsstring :=
  match s with
  | [] => []
  | c :: r =>
      if code c =? 37 then
        match r with
        | u :: r1 =>
            if code u =? 117 then
              match r1 with
              | h1 :: h2 :: h3 :: h4 :: r5 =>
                  match hex4 h1 h2 h3 h4 with
                  | Some n => chr n :: unescape r5
                  | None => c :: unescape r
                  end
              | _ => c :: unescape r
              end
            else
              match r1 with
              | h2 :: r2 =>
                  match hex2 u h2 with
                  | Some n => chr n :: unescape r2
                  | None => c :: unescape r
                  end
              | [] => c :: unescape r
              end
        | [] => c :: unescape r
        end
      else c :: unescape r
  end.

Definition escape_unescaped (c : char16) : bool := is_alnum c || one_of "_@*+-./" c.

Definition escape (s : jsstring) : jsstring :=
  flat_map
    (fun c =>
       if escape_unescaped c then [c]
       else if code c <? 256 then
         [chr 37; upper_hex_digit (code c / 16); upper_hex_digit (code c mod 16)]
       else
         [chr 37; chr 117; upper_hex_digit (code c / 4096);
          upper_hex_digit (code c / 256 mod 16); upper_hex_digit (code c / 16 mod 16);
          upper_hex_digit (code c mod 16)])
    s.

(** The number of leading 1 bits of an octet. *)
Definition leading_ones (b : Z) : nat :=
  if b <? 128 then 0 else if b <? 192 then 1 else if b <? 224 then 2
  else if b <? 240 then 3 else if b <? 248 then 4 else 5.

(** [n] more groups ["%XX"] at the head of [s]: their octets and what follows. *)
Fixpoint continuation_octets (n : nat) (s : jsstring) : option (list Z * jsstring) :=
  match n with
  | O => Some ([], s)
  | S n' =>
      match s with
      | p :: h1 :: h2 :: r =>
          if code p =? 37 then
            b ← hex2 h1 h2;
            '(bs, r') ← continuation_octets n' r;
            Some (b :: bs, r')
          else None
      | _ => None
      end
  end.

(** The code point a sequence of two to four octets encodes in UTF-8, when
    it is well formed: no overlong form, no surrogate, nothing above U+10FFFF. *)
Definition utf8_code_point (octets : list Z) : option Z :=
  let cont b := (128 <=? b) && (b <=? 191) in
  match octets with
  | [b0; b1] =>
      if (194 <=? b0) && (b0 <=? 223) && cont b1
      then Some ((b0 - 192) * 64 + (b1 - 128)) else None
  | [b0; b1; b2] =>
      if (224 <=? b0) && (b0 <=? 239) && cont b1 && cont b2
         && negb ((b0 =? 224) && (b1 <? 160)) && negb ((b0 =? 237) && (159 <? b1))
      then Some ((b0 - 224) * 4096 + (b1 - 128) * 64 + (b2 - 128)) else None
  | [b0; b1; b2; b3] =>
      if (240 <=? b0) && (b0 <=? 244) && cont b1 && cont b2 && cont b3
         && negb ((b0 =? 240) && (b1 <? 144)) && negb ((b0 =? 244) && (143 <? b1))
      then Some ((b0 - 240) * 262144 + (b1 - 128) * 4096 + (b2 - 128) * 64 + (b3 - 128))
      else None
  | _ => None
  end.

Definition UTF16EncodeCodePoint (cp : Z) : jsstring :=
  if cp <? 65536 then [chr cp]
  else [chr (55296 + (cp - 65536) / 1024); chr (56320 + (cp - 65536) mod 1024)].

(** [decodeURIComponent]; [fuel] bounds the number of iterations of its
    loop, each of which consumes at least one character. *)
Fixpoint decode_loop (fuel : nat) (s : jsstring) : completion jsstring :=
  match s with
  | [] => Normal []
  | c :: r =>
      match fuel with
      | O => Throw URIError
      | S fuel' =>
          if code c =? 37 then
            match r with
            | h1 :: h2 :: r2 =>
                match hex2 h1 h2 with
                | None => Throw URIError
                | Some b =>
                    match leading_ones b with
                    | O => cons (chr b) <$> decode_loop fuel' r2
                    | S O => Throw URIError
                    | S n' =>
                        if (4 <? S n')%nat then Throw URIError
                        else
                          match continuation_octets n' r2 with
                          | None => Throw URIError
                          | Some (bs, r') =>
                              match utf8_code_point (b :: bs) with
                              | None => Throw URIError
                              | Some v => app (UTF16EncodeCodePoint v) <$> decode_loop fuel' r'
                              end
                          end
                    end
                end
            | _ => Throw URIError
            end
          else cons c <$> decode_loop fuel' r
      end
  end.

Definition decodeURIComponent (s : jsstring) : completion jsstring :=
  decode_loop (length s) s.

(** ** [btoa] and [atob] *)

(** The character of a 6-bit value in the base64 alphabet. *)
Definition base64_char (v : Z) : char16 :=
  if v <? 26 then chr (65 + v)
  else if v <? 52 then chr (71 + v)
  else if v <? 62 then chr (v - 4)
  else if v =? 62 then chr 43
  else chr 47.

Definition base64_value (c : char16) : option Z :=
  if is_upper c then Some (code c - 65)
  else if is_lower c then Some (code c - 71)
  else if is_digit c then Some (code c + 4)
  else if code c =? 43 then Some 62
  else if code c =? 47 then Some 63
  else None.

Fixpoint base64_encode (l : list Z) : jsstring :=
  match l with
  | a :: b :: c :: r =>
      base64_char (a / 4) :: base64_char (a mod 4 * 16 + b / 16)
      :: base64_char (b mod 16 * 4 + c / 64) :: base64_char (c mod 64)
      :: base64_encode r
  | [a; b] =>
      [base64_char (a / 4); base64_char (a mod 4 * 16 + b / 16);
       base64_char (b mod 16 * 4); chr 61]
  | [a] => [base64_char (a / 4); base64_char (a mod 4 * 16); chr 61; chr 61]
  | [] => []
  end.

(** [btoa(s)]: base64 of a string of characters below 256, one per byte. *)
Definition btoa (s : jsstring) : completion jsstring :=
  if forallb (fun c => code c <? 256) s then Normal (base64_encode (code <$> s))
  else Throw InvalidCharacterError.

Fixpoint base64_decode (l : list Z) : list Z :=
  match l with
  | a :: b :: c :: d :: r =>
      (a * 4 + b / 16) :: (b mod 16 * 16 + c / 4) :: (c mod 4 * 64 + d)
      :: base64_decode r
  | [a; b; c] => [a * 4 + b / 16; b mod 16 * 16 + c / 4]
  | [a; b] => [a * 4 + b / 16]
  | _ => []
  end.

Definition is_ascii_whitespace (c : char16) : bool :=
  (code c =? 9) || (code c =? 10) || (code c =? 12) || (code c =? 13) || (code c =? 32).

(** One or two ["="] at the end of the data are removed. *)
Definition strip_padding (s : jsstring) : jsstring :=
  match rev s with
  | p :: q :: r =>
      if code p =? 61 then (if code q =? 61 then rev r else rev (q :: r)) else s
  | [p] => if code p =? 61 then [] else s
  | [] => s
  end.

(** [atob(data)], the forgiving base64 decoding of the HTML standard. *)
Definition atob (data : jsstring) : completion jsstring :=
  let d := filter (fun c => negb (is_ascii_whitespace c)) data in
  let d := if (length d mod 4 =? 0)%nat then strip_padding d else d in
  if (length d mod 4 =? 1)%nat then Throw InvalidCharacterError
  else
    match mapM base64_value d with
    | None => Throw InvalidCharacterError
    | Some vs => Normal (chr <$> base64_decode vs)
    end.

(** ** [base64urlEncode] and [base64urlDecode] (index.ts, lines 1890-1898) *)

(** [s.replace(/x/g, "y")] for single characters [x] and [y]. *)
Definition replace_char (x y : Z) (s : jsstring) : jsstring :=
  (fun c => if code c =? x then chr y else c) <$> s.

(** [s.replace(/=+$/g, "")]: the run of ["="] at the end is removed. *)
Fixpoint drop_equals (s : jsstring) : jsstring :=
  match s with
  | [] => []
  | c :: r => if code c =? 61 then drop_equals r else s
  end.

Definition strip_trailing_equals (s : jsstring) : jsstring :=
  rev (drop_equals (rev s)).

Definition base64urlEncode (str : jsstring) : completion jsstring :=
  uri ← encodeURIComponent str;
  b64 ← btoa (unescape uri);
  mret (strip_trailing_equals (replace_char 47 95 (replace_char 43 45 b64))).

Definition base64urlDecode (b64url : jsstring) : completion jsstring :=
  let b64 := replace_char 95 47 (replace_char 45 43 b64url)
             ++ drop ((length b64url + 3) mod 4) (js "===") in
  bin ← atob b64;
  decodeURIComponent (escape bin).

(** ** Numbers

    A Number is an IEEE 754 double: NaN, an infinity, or a finite value
    [(-1)^negative * m * 2^e] in canonical form, that is [2^52 <= m < 2^53]
    and [-1074 <= e <= 971] for a normal number, [0 < m < 2^52] and
    [e = -1074] for a subnormal one, and [m = 0], [e = 0] for a zero. *)

Inductive number : Set :=
| NaN
| Inf (negative : bool)
| Dbl (negative : bool) (m e : Z).

(** [num / den / 2^e >= 1] is [scaled_den den e <= scaled_num num e]. *)
Definition scaled_num (num e : Z) : Z := num * 2 ^ Z.max 0 (- e).
Definition scaled_den (den e : Z) : Z := den * 2 ^ Z.max 0 e.

(** The double nearest to [num / den] ([0 <= num], [0 < den]), ties to the
    even significand, with the sign [negative]. *)
Definition round_ratio (negative : bool) (num den : Z) : number :=
  if num <=? 0 then Dbl negative 0 0
  else
    let e0 := Z.log2 num - Z.log2 den in
    let E := if scaled_den den e0 <=? scaled_num num e0 then e0 else e0 - 1 in
    let e := Z.max (E - 52) (-1074) in
    let q := scaled_num num e / scaled_den den e in
    let r := scaled_num num e mod scaled_den den e in
    let q' := if (scaled_den den e <? 2 * r) || ((2 * r =? scaled_den den e) && Z.odd q)
              then q + 1 else q in
    let '(m, e') := if q' =? 2 ^ 53 then (2 ^ 52, e + 1) else (q', e) in
    if 971 <? e' then Inf negative
    else if m =? 0 then Dbl negative 0 0
    else Dbl negative m e'.

(** The Number of an integer, exact up to [2^53]. *)
Definition number_of_Z (z : Z) : number := round_ratio (z <? 0) (Z.abs z) 1.

(** [10^x] times a non-negative integer, as a Number. *)
Definition round_decimal (negative : bool) (m x : Z) : number :=
  round_ratio negative (m * 10 ^ Z.max 0 x) (10 ^ Z.max 0 (- x)).

Definition number_eqb (x y : number) : bool :=
  match x, y with
  | Inf s, Inf t => Bool.eqb s t
  | Dbl s m e, Dbl t n f => ((m =? 0) && (n =? 0)) || (Bool.eqb s t && (m =? n) && (e =? f))
  | _, _ => false
  end.

(** [x < y]; false when one of them is NaN. *)
Definition number_ltb (x y : number) : bool :=
  match x, y with
  | NaN, _ | _, NaN => false
  | Inf s, Inf t => s && negb t
  | Inf s, Dbl _ _ _ => s
  | Dbl _ _ _, Inf t => negb t
  | Dbl s m e, Dbl t n f =>
      let k := Z.min e f in
      (if s then - m else m) * 2 ^ (e - k) <? (if t then - n else n) * 2 ^ (f - k)
  end.

(** [z <= x] for an integer [z] and a Number [x], on their exact values. *)
Definition Z_le_number (z : Z) (x : number) : Prop :=
  match x with
  | NaN => False
  | Inf negative => negative = false
  | Dbl s m e => z * 2 ^ Z.max 0 (- e) <= (if s then - m else m) * 2 ^ Z.max 0 e
  end.

(** The integer a Number is, when it is one. *)
Definition number_to_Z (x : number) : option Z :=
  match x with
  | Dbl s m e =>
      if m * 2 ^ Z.max 0 e mod 2 ^ Z.max 0 (- e) =? 0
      then Some ((if s then -1 else 1) * (m * 2 ^ Z.max 0 e / 2 ^ Z.max 0 (- e)))
      else None
  | _ => None
  end.

Definition Number_isFinite (x : number) : bool :=
  match x with
  | Dbl _ _ _ => true
  | _ => false
  end.

(** Truthiness of a Number: all but the zeros and NaN. *)
Definition truthy_number (x : number) : bool :=
  match x with
  | NaN => false
  | Inf _ => true
  | Dbl _ m _ => negb (m =? 0)
  end.

(** *** Decimal digits *)

Fixpoint uint_chars (d : Decimal.uint) : jsstring :=
  match d with
  | Decimal.Nil => []
  | Decimal.D0 d => chr 48 :: uint_chars d
  | Decimal.D1 d => chr 49 :: uint_chars d
  | Decimal.D2 d => chr 50 :: uint_chars d
  | Decimal.D3 d => chr 51 :: uint_chars d
  | Decimal.D4 d => chr 52 :: uint_chars d
  | Decimal.D5 d => chr 53 :: uint_chars d
  | Decimal.D6 d => chr 54 :: uint_chars d
  | Decimal.D7 d => chr 55 :: uint_chars d
  | Decimal.D8 d => chr 56 :: uint_chars d
  | Decimal.D9 d => chr 57 :: uint_chars d
  end.

(** The decimal digits of a non-negative integer, ["0"] for zero. *)
Definition decimal_digits (z : Z) : jsstring := uint_chars (N.to_uint (Z.to_N z)).

(** The value of a string of digits in base [radix], most significant first. *)
Definition digits_value (radix : Z) (s : jsstring) : Z :=
  foldl (fun acc c => radix * acc + default 0 (hex_value c)) 0 s.

(** The longest prefix of [s] whose characters satisfy [p], and the rest. *)
Fixpoint span (p : char16 → bool) (s : jsstring) : jsstring * jsstring :=
  match s with
  | [] => ([], [])
  | c :: r => if p c then let '(a, b) := span p r in (c :: a, b) else ([], s)
  end.

(** *** [Number.prototype.toString] in base 10

    For a finite [x > 0], integers [n], [k] and [s] with [k >= 1],
    [10^(k-1) <= s < 10^k] and [s * 10^(n-k)] having [x] as its Number, with
    [k] as small as possible and, among those, [s * 10^(n-k)] nearest to [x]. *)

Definition pow10_num (x : Z) : Z := 10 ^ Z.max 0 x.
Definition pow10_den (x : Z) : Z := 10 ^ Z.max 0 (- x).

(** The [n] with [10^(n-1) <= num/den < 10^n]. *)
Definition decimal_exponent (num den : Z) : Z :=
  match list_find (fun n => num * pow10_den n <? den * pow10_num n) (seqZ (-324) 640) with
  | Some (_, n) => n
  | None => 316
  end.

(** The candidates with [k] digits: the digits of [num/den] cut after the
    [k]-th, and that plus one; the nearer first, the even one on a tie. *)
Definition digit_candidates (num den n0 k : Z) : list Z :=
  let N := num * pow10_num (k - n0) in
  let D := den * pow10_den (k - n0) in
  let lo := N / D in
  let r := N mod D in
  if (2 * r <? D) || ((2 * r =? D) && Z.even lo) then [lo; lo + 1] else [lo + 1; lo].

Definition shortest_digits (m e : Z) : Z * Z * Z :=
  let x := Dbl false m e in
  let num := scaled_den m e in
  let den := scaled_num 1 e in
  let n0 := decimal_exponent num den in
  let valid k s := number_eqb (round_decimal false s (n0 - k)) x in
  let found :=
    list_find (fun ks => valid ks.1 ks.2)
      (k ← seqZ 1 17; (fun s => (k, s)) <$> digit_candidates num den n0 k) in
  match found with
  | Some (_, (k, s)) => if s =? 10 ^ k then (n0 + 1, k, s / 10) else (n0, k, s)
  | None => (n0, 17, num * pow10_num (17 - n0) / (den * pow10_den (17 - n0)))
  end.

Definition Number_toString_positive (m e : Z) : jsstring :=
  let '(n, k, s) := shortest_digits m e in
  let digits := decimal_digits s in
  if (k <=? n) && (n <=? 21) then digits ++ repeat (chr 48) (Z.to_nat (n - k))
  else if (0 <? n) && (n <=? 21) then
    take (Z.to_nat n) digits ++ js "." ++ drop (Z.to_nat n) digits
  else if (-6 <? n) && (n <=? 0) then
    js "0." ++ repeat (chr 48) (Z.to_nat (- n)) ++ digits
  else
    let exponent := (if n - 1 <? 0 then js "-" else js "+") ++ decimal_digits (Z.abs (n - 1)) in
    if k =? 1 then digits ++ js "e" ++ exponent
    else take 1 digits ++ js "." ++ drop 1 digits ++ js "e" ++ exponent.

Definition Number_toString (x : number) : jsstring :=
  match x with
  | NaN => js "NaN"
  | Inf false => js "Infinity"
  | Inf true => js "-Infinity"
  | Dbl negative m e =>
      if m =? 0 then js "0"
      else (if negative then js "-" else []) ++ Number_toString_positive m e
  end.

(** *** Numeric literals *)

(** The value of a decimal literal with integer digits [ip], fraction digits
    [fp] and exponent [x]. *)
Definition decimal_literal (negative : bool) (ip fp : jsstring) (x : Z) : number :=
  round_decimal negative (digits_value 10 (ip ++ fp)) (x - Z.of_nat (length fp)).

(** An exponent part [e], [E] with an optional sign and at least one digit:
    its value and what follows, or [None] when [s] does not start with one. *)
Definition exponent_part (s : jsstring) : option (Z * jsstring) :=
  match s with
  | c :: r =>
      if one_of "eE" c then
        let '(negative, r1) :=
          match r with
          | sg :: r' =>
              if code sg =? 45 then (true, r') else if code sg =? 43 then (false, r') else (false, r)
          | [] => (false, r)
          end in
        let '(ds, r2) := span is_digit r1 in
        match ds with
        | [] => None
        | _ :: _ => Some (if negative then - digits_value 10 ds else digits_value 10 ds, r2)
        end
      else None
  | [] => None
  end.

(** [StrUnsignedDecimalLiteral], which must take the whole of [s]. *)
Definition unsigned_decimal (negative : bool) (s : jsstring) : option number :=
  if jsstring_eqb s (js "Infinity") then Some (Inf negative)
  else
    let '(ip, r) := span is_digit s in
    let '(dot, fp, r1) :=
      match r with
      | c :: r' =>
          if code c =? 46 then let '(fp, r1) := span is_digit r' in (true, fp, r1)
          else (false, [], r)
      | [] => (false, [], r)
      end in
    if negb (truthy_string ip) && negb (truthy_string fp) then None
    else
      match r1 with
      | [] => Some (decimal_literal negative ip fp 0)
      | _ :: _ =>
          match exponent_part r1 with
          | Some (x, []) => Some (decimal_literal negative ip fp x)
          | _ => None
          end
      end.

Definition radix_digit (radix : Z) (c : char16) : bool :=
  match hex_value c with
  | Some d => d <? radix
  | None => false
  end.

(** [0x], [0o] and [0b] literals. *)
Definition non_decimal (s : jsstring) : option number :=
  match s with
  | z :: x :: d :: ds =>
      let radix :=
        if one_of "xX" x then 16 else if one_of "oO" x then 8
        else if one_of "bB" x then 2 else 0 in
      if (code z =? 48) && (0 <? radix) && forallb (radix_digit radix) (d :: ds)
      then Some (number_of_Z (digits_value radix (d :: ds)))
      else None
  | _ => None
  end.

(** [StringToNumber]: the Number a string stands for, NaN if none. *)
Definition StringToNumber (s : jsstring) : number :=
  match trim s with
  | [] => Dbl false 0 0
  | c :: r =>
      match non_decimal (c :: r) with
      | Some x => x
      | None =>
          let o :=
            if code c =? 45 then unsigned_decimal true r
            else if code c =? 43 then unsigned_decimal false r
            else unsigned_decimal false (c :: r) in
          default NaN o
      end
  end.

(** ** JSON *)

Inductive json : Set :=
| JNull
| JBool (b : bool)
| JNumber (x : number)
| JString (s : jsstring)
| JArray (elements : list json)
| JObject (members : list (jsstring * json)).

(** *** [JSON.parse] *)

Definition is_json_ws (c : char16) : bool :=
  (code c =? 9) || (code c =? 10) || (code c =? 13) || (code c =? 32).

Fixpoint skip_ws (s : jsstring) : jsstring :=
  match s with
  | [] => []
  | c :: r => if is_json_ws c then skip_ws r else s
  end.

(** The characters of a string after its opening quote, up to the closing one. *)
Fixpoint parse_string (s : jsstring) : option (jsstring * jsstring) :=
  match s with
  | [] => None
  | c :: r =>
      if code c =? 34 then Some ([], r)
      else if code c =? 92 then
        match r with
        | e :: r1 =>
            if code e =? 117 then
              match r1 with
              | h1 :: h2 :: h3 :: h4 :: r5 =>
                  n ← hex4 h1 h2 h3 h4;
                  '(t, rest) ← parse_string r5;
                  Some (chr n :: t, rest)
              | _ => None
              end
            else
              x ← (if code e =? 34 then Some 34 else if code e =? 92 then Some 92
                   else if code e =? 47 then Some 47 else if code e =? 98 then Some 8
                   else if code e =? 102 then Some 12 else if code e =? 110 then Some 10
                   else if code e =? 114 then Some 13 else if code e =? 116 then Some 9
                   else None);
              '(t, rest) ← parse_string r1;
              Some (chr x :: t, rest)
        | [] => None
        end
      else if code c <? 32 then None
      else '(t, rest) ← parse_string r; Some (c :: t, rest)
  end.

(** A number: an optional minus sign, an integer part without leading zero,
    an optional fraction and an optional exponent. *)
Definition parse_number (s : jsstring) : option (number * jsstring) :=
  let '(negative, s1) :=
    match s with
    | c :: r => if code c =? 45 then (true, r) else (false, s)
    | [] => (false, s)
    end in
  let '(ip, r) := span is_digit s1 in
  match ip with
  | [] => None
  | d :: ds =>
      if (code d =? 48) && truthy_string ds then None
      else
        fr ← match r with
             | c :: r' =>
                 if code c =? 46 then
                   let '(fp, r1) := span is_digit r' in
                   if truthy_string fp then Some (fp, r1) else None
                 else Some ([], r)
             | [] => Some ([], r)
             end;
        let '(fp, r1) := fr in
        match r1 with
        | c :: _ =>
            if one_of "eE" c then
              '(x, r2) ← exponent_part r1;
              Some (decimal_literal negative ip fp x, r2)
            else Some (decimal_literal negative ip fp 0, r1)
        | [] => Some (decimal_literal negative ip fp 0, r1)
        end
  end.

(** [s] starts with the literal [lit]: what follows it. *)
Fixpoint strip_prefix (lit s : jsstring) : option jsstring :=
  match lit, s with
  | [], _ => Some s
  | x :: lit', y :: s' => if char16_eqb x y then strip_prefix lit' s' else None
  | _ :: _, [] => None
  end.

(** A value, the elements of an array after ["["] and the members of an
    object after ["{"]; the flag says whether an element or member must
    follow (after a comma) or the closing bracket may.  [fuel] bounds the
    depth of the calls. *)
Fixpoint parse_value (fuel : nat) (s : jsstring) : option (json * jsstring) :=
  match fuel with
  | O => None
  | S fuel' =>
      match skip_ws s with
      | [] => None
      | c :: r =>
          if code c =? 123 then
            '(ms, rest) ← parse_members fuel' false r; Some (JObject ms, rest)
          else if code c =? 91 then
            '(es, rest) ← parse_elements fuel' false r; Some (JArray es, rest)
          else if code c =? 34 then
            '(t, rest) ← parse_string r; Some (JString t, rest)
          else if code c =? 116 then
            rest ← strip_prefix (js "rue") r; Some (JBool true, rest)
          else if code c =? 102 then
            rest ← strip_prefix (js "alse") r; Some (JBool false, rest)
          else if code c =? 110 then
            rest ← strip_prefix (js "ull") r; Some (JNull, rest)
          else
            '(x, rest) ← parse_number (c :: r); Some (JNumber x, rest)
      end
  end
with parse_elements (fuel : nat) (required : bool) (s : jsstring)
    : option (list json * jsstring) :=
  match fuel with
  | O => None
  | S fuel' =>
      match skip_ws s with
      | [] => None
      | c :: r =>
          if (code c =? 93) && negb required then Some ([], r)
          else
            '(v, r1) ← parse_value fuel' (c :: r);
            match skip_ws r1 with
            | d :: r2 =>
                if code d =? 44 then
                  '(vs, rest) ← parse_elements fuel' true r2; Some (v :: vs, rest)
                else if code d =? 93 then Some ([v], r2)
                else None
            | [] => None
            end
      end
  end
with parse_members (fuel : nat) (required : bool) (s : jsstring)
    : option (list (jsstring * json) * jsstring) :=
  match fuel with
  | O => None
  | S fuel' =>
      match skip_ws s with
      | [] => None
      | c :: r =>
          if (code c =? 125) && negb required then Some ([], r)
          else if code c =? 34 then
            '(k, r1) ← parse_string r;
            match skip_ws r1 with
            | colon :: r2 =>
                if code colon =? 58 then
                  '(v, r3) ← parse_value fuel' r2;
                  match skip_ws r3 with
                  | d :: r4 =>
                      if code d =? 44 then
                        '(ms, rest) ← parse_members fuel' true r4; Some ((k, v) :: ms, rest)
                      else if code d =? 125 then Some ([(k, v)], r4)
                      else None
                  | [] => None
                  end
                else None
            | [] => None
            end
          else None
      end
  end.

(** [JSON.parse(text)]: one value with white space around it and nothing else. *)
Definition JSON_parse (text : jsstring) : completion json :=
  match parse_value (2 * length text + 1) text with
  | Some (v, rest) =>
      match skip_ws rest with
      | [] => Normal v
      | _ :: _ => Throw SyntaxError
      end
  | None => Throw SyntaxError
  end.

(** *** [JSON.stringify] *)

Definition lower_hex4 (z : Z) : jsstring :=
  [hex_digit (z / 4096); hex_digit (z / 256 mod 16); hex_digit (z / 16 mod 16);
   hex_digit (z mod 16)].

(** The characters of [QuoteJSONString] between the quotes.  The string is
    read by code points; a surrogate without its partner is escaped. *)
Fixpoint quote_chars (s : jsstring) : jsstring :=
  match s with
  | [] => []
  | c :: r =>
      let z := code c in
      if z =? 8 then js "\b" ++ quote_chars r
      else if z =? 9 then js "\t" ++ quote_chars r
      else if z =? 10 then js "\n" ++ quote_chars r
      else if z =? 12 then js "\f" ++ quote_chars r
      else if z =? 13 then js "\r" ++ quote_chars r
      else if z =? 34 then [chr 92; chr 34] ++ quote_chars r
      else if z =? 92 then [chr 92; chr 92] ++ quote_chars r
      else if z <? 32 then js "\u" ++ lower_hex4 z ++ quote_chars r
      else if is_high_surrogate c then
        match r with
        | d :: r' =>
            if is_low_surrogate d then c :: d :: quote_chars r'
            else js "\u" ++ lower_hex4 z ++ quote_chars r
        | [] => js "\u" ++ lower_hex4 z
        end
      else if is_low_surrogate c then js "\u" ++ lower_hex4 z ++ quote_chars r
      else c :: quote_chars r
  end.

Definition QuoteJSONString (s : jsstring) : jsstring :=
  [chr 34] ++ quote_chars s ++ [chr 34].

(** The strings of a list with commas between them. *)
Fixpoint join_comma (l : list jsstring) : jsstring :=
  match l with
  | [] => []
  | [x] => x
  | x :: r => x ++ js "," ++ join_comma r
  end.

Fixpoint JSON_stringify (v : json) : jsstring :=
  match v with
  | JNull => js "null"
  | JBool true => js "true"
  | JBool false => js "false"
  | JNumber x => if Number_isFinite x then Number_toString x else js "null"
  | JString s => QuoteJSONString s
  | JArray es => js "[" ++ join_comma (map JSON_stringify es) ++ js "]"
  | JObject ms =>
      js "{"
      ++ join_comma (map (fun m => QuoteJSONString m.1 ++ js ":" ++ JSON_stringify m.2) ms)
      ++ js "}"
  end.

(** ** Values of unknown type: property access and conversions

    The payload of a token is whatever [JSON.parse] returned.  [None] stands
    for [undefined]. *)

(** [v.key]: an own property of an object, the last one of that name the
    text gave; no other value [JSON.parse] returns has a property
    [order_id] or [exp]. *)
Definition Get (v : json) (key : jsstring) : option json :=
  match v with
  | JObject ms => snd <$> last (filter (fun m => bool_decide (m.1 = key)) ms)
  | _ => None
  end.

Definition ToBoolean (v : json) : bool :=
  match v with
  | JNull => false
  | JBool b => b
  | JNumber x => truthy_number x
  | JString s => truthy_string s
  | JArray _ | JObject _ => true
  end.

(** [v || d] *)
Definition or_else (v : option json) (d : json) : json :=
  match v with
  | Some x => if ToBoolean x then x else d
  | None => d
  end.

(** [ToString].  An array is joined with commas, [null] elements giving the
    empty string.  An object gives ["[object Object]"] through
    [Object.prototype.toString], unless it has a property [toString] of its
    own: that is no function, and [valueOf] does not give a primitive. *)
Fixpoint ToString (v : json) : completion jsstring :=
  match v with
  | JNull => Normal (js "null")
  | JBool true => Normal (js "true")
  | JBool false => Normal (js "false")
  | JNumber x => Normal (Number_toString x)
  | JString s => Normal s
  | JArray es =>
      join_comma <$>
        (fix elements (l : list json) : completion (list jsstring) :=
           match l with
           | [] => Normal []
           | e :: r =>
               s ← match e with JNull => Normal [] | _ => ToString e end;
               ss ← elements r;
               Normal (s :: ss)
           end) es
  | JObject ms =>
      if existsb (fun m => bool_decide (m.1 = js "toString")) ms then Throw TypeError
      else Normal (js "[object Object]")
  end.

(** [ToNumber]: an array or object is converted through its string. *)
Definition ToNumber (v : json) : completion number :=
  match v with
  | JNull => Normal (Dbl false 0 0)
  | JBool true => Normal (Dbl false 4503599627370496 (-52))
  | JBool false => Normal (Dbl false 0 0)
  | JNumber x => Normal x
  | JString s => Normal (StringToNumber s)
  | JArray _ | JObject _ => StringToNumber <$> ToString v
  end.

(** ** [createReviewToken] and [verifyReviewToken] (index.ts, lines 1831-1865)

    [now] is the value of [Date.now()], the time in milliseconds, an integer
    of absolute value at most [8.64e15]. *)

Definition time_value (t : Z) : Prop := -8640000000000000 <= t <= 8640000000000000.

Section Issue.

(** [String.prototype.toLowerCase], the lower-case mapping of Unicode. *)
Variable toLowerCase : jsstring → jsstring.

Definition review_payload (order_id email : jsstring) (now : Z) : json :=
  let exp := number_of_Z (now + 45 * 24 * 60 * 60 * 1000) in
  JObject [(js "order_id", JString order_id);
           (js "email", JString (toLowerCase email));
           (js "exp", JNumber exp)].

Definition createReviewToken (env : Env) (order_id email : jsstring) (now : Z) : run jsstring :=
  match configured (REVIEW_LINK_SECRET env) with
  | None => throw (Error "Missing REVIEW_LINK_SECRET")
  | Some secret =>
      let payload := review_payload order_id email now in
      let payloadStr := JSON_stringify payload in
      payloadB64 ← lift (base64urlEncode payloadStr);
      sigHex ← hmacHex secret payloadB64;
      mret (payloadB64 ++ js "." ++ sigHex)
  end.

End Issue.

(** The two halves of a token as lines 1846-1847 take them: the first two
    of the segments between dots, when both are there and not empty. *)
Definition token_halves (token : jsstring) : option (jsstring * jsstring) :=
  match split (chr 46) token with
  | payloadB64 :: sigHex :: _ =>
      if truthy_string payloadB64 && truthy_string sigHex then Some (payloadB64, sigHex)
      else None
  | _ => None
  end.

(** The checks of [verifyReviewToken] on the parsed payload (lines 1859-1864). *)
Definition check_payload (payload : json) (order_id : jsstring) (now : Z) : completion bool :=
  if negb (ToBoolean payload) then Normal false
  else
    oid ← ToString (or_else (Get payload (js "order_id")) (JString []));
    if negb (jsstring_eqb oid order_id) then Normal false
    else
      exp ← ToNumber (or_else (Get payload (js "exp")) (JNumber (Dbl false 0 0)));
      if negb (Number_isFinite exp) || number_ltb exp (number_of_Z now) then Normal false
      else Normal true.

Definition verifyReviewToken (env : Env) (token order_id : jsstring) (now : Z) : run bool :=
  match configured (REVIEW_LINK_SECRET env) with
  | None => mret false
  | Some secret =>
      match split (chr 46) token with
      | payloadB64 :: sigHex :: _ =>
          if negb (truthy_string payloadB64) || negb (truthy_string sigHex) then mret false
          else
            expected ← hmacHex secret payloadB64;
            same ← timingSafeEqualHex expected sigHex;
            if negb same then mret false
            else
              match base64urlDecode payloadB64 ≫= JSON_parse with
              | Throw _ => mret false
              | Normal payload => lift (check_payload payload order_id now)
              end
      | _ => mret false
      end
  end.

(** * Properties *)

(** The proofs evaluate the hash on given inputs and never look into it. *)
Opaque SHA256.hmac.

(** ** The lower-case hexadecimal encoding, as the spec words it

    Two digits for every byte, the high one first, out of
    [0123456789abcdef].  The code writes it with [toString(16)] and
    [padStart]; [hex_of_bytes_lowercase] below shows that this is the same. *)

Definition lowercase_hex_digit (d : Z) : char16 :=
  default (chr 48) (js "0123456789abcdef" !! Z.to_nat d).

Definition lowercase_hex (bytes : list byte) : jsstring :=
  flat_map (fun b => [lowercase_hex_digit (byte_to_Z b / 16);
                      lowercase_hex_digit (byte_to_Z b mod 16)]) bytes.

Lemma hex_of_bytes_lowercase (l : list byte) : hex_of_bytes l = lowercase_hex l.
Proof.
  unfold hex_of_bytes, lowercase_hex. apply flat_map_ext. intros b.
  destruct b; vm_compute; reflexivity.
Qed.

Lemma hmac_sha256_hex_lowercase (secret message : jsstring) :
  hmac_sha256_hex secret message
  = lowercase_hex (SHA256.hmac (TextEncoder_encode secret) (TextEncoder_encode message)).
Proof. unfold hmac_sha256_hex. apply hex_of_bytes_lowercase. Qed.

(** ** Code units and 32-bit operators *)

Lemma jsstring_eqb_eq (a b : jsstring) : jsstring_eqb a b = true ↔ a = b.
Proof.
  revert b. induction a as [|x a IH]; intros [|y b]; simpl; try done.
  unfold char16_eqb. rewrite andb_true_iff, Z.eqb_eq, IH. split.
  - intros [H ->]. f_equal. by apply char16_eq.
  - by intros [= -> ->].
Qed.

Lemma ToInt32_small (z : Z) : 0 <= z < 2147483648 → ToInt32 z = z.
Proof.
  intros H. unfold ToInt32. rewrite (Z.mod_small z) by lia.
  destruct (Z.ltb_spec z 2147483648); lia.
Qed.

Lemma lxor_u16 (x y : Z) :
  0 <= x < 65536 → 0 <= y < 65536 → 0 <= Z.lxor x y < 65536.
Proof.
  intros Hx Hy. assert (H0 : 0 <= Z.lxor x y) by (apply Z.lxor_nonneg; lia).
  split; [done|]. destruct (Z.eq_dec (Z.lxor x y) 0) as [->|Hne]; [lia|].
  apply (Z.log2_lt_pow2 _ 16); [lia|].
  pose proof (Z.log2_lxor x y ltac:(lia) ltac:(lia)) as Hl.
  assert (Z.log2 x < 16).
  { destruct (Z.eq_dec x 0) as [->|]; [done|]. apply Z.log2_lt_pow2; lia. }
  assert (Z.log2 y < 16).
  { destruct (Z.eq_dec y 0) as [->|]; [done|]. apply Z.log2_lt_pow2; lia. }
  lia.
Qed.

Lemma lor_u16 (x y : Z) :
  0 <= x < 65536 → 0 <= y < 65536 → 0 <= Z.lor x y < 65536.
Proof.
  intros Hx Hy. assert (H0 : 0 <= Z.lor x y) by (apply Z.lor_nonneg; lia).
  split; [done|]. destruct (Z.eq_dec (Z.lor x y) 0) as [->|Hne]; [lia|].
  apply (Z.log2_lt_pow2 _ 16); [lia|].
  rewrite Z.log2_lor by lia.
  assert (Z.log2 x < 16).
  { destruct (Z.eq_dec x 0) as [->|]; [done|]. apply Z.log2_lt_pow2; lia. }
  assert (Z.log2 y < 16).
  { destruct (Z.eq_dec y 0) as [->|]; [done|]. apply Z.log2_lt_pow2; lia. }
  lia.
Qed.

(** On an accumulator and two code units the 32-bit operators never wrap. *)
Lemma xor_step_exact (out : Z) (x y : char16) :
  0 <= out < 65536 →
  bit_or out (bit_xor (ToInt32 (code x)) (ToInt32 (code y)))
  = Z.lor out (Z.lxor (code x) (code y)).
Proof.
  intros Hout. pose proof (code_range x) as Hx. pose proof (code_range y) as Hy.
  pose proof (lxor_u16 _ _ Hx Hy) as Hxy.
  pose proof (lor_u16 _ _ Hout Hxy) as Ho.
  unfold bit_or, bit_xor.
  rewrite !(ToInt32_small (code x)), !(ToInt32_small (code y)) by lia.
  rewrite !(ToInt32_small (Z.lxor _ _)) by lia.
  rewrite (ToInt32_small out) by lia. apply ToInt32_small. lia.
Qed.

(** ** The comparison loop *)

Lemma xor_step_at (pa pb a b : jsstring) (x y : char16) (out : Z) :
  length pa = length pb → 0 <= out < 65536 →
  xor_step (pa ++ x :: a) (pb ++ y :: b) (length pa) out
  = (Normal (Z.lor out (Z.lxor (code x) (code y))), [XorStep (length pa)]).
Proof.
  intros Hp Hout. unfold xor_step, charCodeAt.
  rewrite (list_lookup_middle pa a x (length pa)) by done.
  rewrite (list_lookup_middle pb b y (length pa)) by done.
  cbn. by rewrite xor_step_exact.
Qed.

Lemma for_range_xor (pa pb a b : jsstring) (out : Z) :
  length pa = length pb → length a = length b → 0 <= out < 65536 →
  for_range (length a) (length pa) (xor_step (pa ++ a) (pb ++ b)) out
  = (Normal (foldl (fun out p => Z.lor out (Z.lxor (code p.1) (code p.2))) out (zip a b)),
     XorStep <$> seq (length pa) (length a)).
Proof.
  revert pa pb b out. induction a as [|x a IH]; intros pa pb [|y b] out Hp Hl Hout;
    try done.
  simpl in Hl. injection Hl as Hl. cbn [for_range length].
  rewrite xor_step_at by done.
  specialize (IH (pa ++ [x]) (pb ++ [y]) b (Z.lor out (Z.lxor (code x) (code y)))).
  rewrite !length_app, <- !(assoc_L (++)) in IH. simpl in IH.
  replace (length pa + 1)%nat with (S (length pa)) in IH by lia.
  cbn [mbind run_bind]. rewrite IH; [done|lia|done|].
  apply lor_u16; [done|]. apply lxor_u16; apply code_range.
Qed.

Lemma xor_accumulate_nonneg_fold (l : list (char16 * char16)) (out : Z) :
  0 <= out →
  foldl (fun out p => Z.lor out (Z.lxor (code p.1) (code p.2))) out l = 0
  ↔ out = 0 ∧ Forall (fun p => p.1 = p.2) l.
Proof.
  revert out. induction l as [|[x y] l IH]; intros out Hout; simpl.
  - split; [intros ->; by split|by intros [-> _]].
  - pose proof (code_range x). pose proof (code_range y).
    rewrite IH by (apply Z.lor_nonneg; split; [done|apply Z.lxor_nonneg; lia]).
    rewrite Z.lor_eq_0_iff, Z.lxor_eq_0_iff, Forall_cons. simpl. split.
    + intros [[-> H'] Hl]. split; [done|]. split; [by apply char16_eq|done].
    + intros [-> [-> Hl]]. done.
Qed.

Lemma xor_accumulate_zero (a b : jsstring) :
  length a = length b → (xor_accumulate a b = 0 ↔ a = b).
Proof.
  intros Hl. unfold xor_accumulate. rewrite xor_accumulate_nonneg_fold by done.
  split.
  - intros [_ H]. revert b Hl H. induction a as [|x a IH]; intros [|y b] Hl H; try done.
    simpl in *. apply Forall_cons in H as [Hxy H]. simpl in Hxy. subst y.
    f_equal. apply IH; [lia|done].
  - intros ->. split; [done|]. clear Hl. induction b; simpl; constructor; done.
Qed.

(** C2. The comparison of both verifiers: when the lengths differ it returns
    false at once, without one loop iteration; when they agree it runs one
    iteration for every index, whatever the characters are, and returns
    whether the accumulated exclusive ors are zero, which is the case exactly
    when the two strings are equal. *)
Theorem timingSafeEqualHex_constant_time (a b : jsstring) :
  timingSafeEqualHex a b
  = (if (length a =? length b)%nat
     then (Normal (xor_accumulate a b =? 0), XorStep <$> seq 0 (length a))
     else (Normal false, []))
  ∧ stripe_compare a b = timingSafeEqualHex a b
  ∧ ((length a = length b ∧ xor_accumulate a b = 0) ↔ a = b).
Proof.
  split; [|split].
  - unfold timingSafeEqualHex. destruct (Nat.eqb_spec (length a) (length b)) as [Hl|Hl];
      [|done].
    cbn [negb]. pose proof (for_range_xor [] [] a b 0 eq_refl Hl ltac:(lia)) as H.
    cbn [app length] in H. unfold mbind, run_bind. rewrite H.
    unfold mret, run_ret. by rewrite app_nil_r.
  - done.
  - split.
    + intros [Hl H]. by apply xor_accumulate_zero.
    + intros ->. split; [done|]. by apply xor_accumulate_zero.
Qed.

Lemma timingSafeEqualHex_run (a b : jsstring) :
  timingSafeEqualHex a b
  = (Normal (bool_decide (a = b)),
     if (length a =? length b)%nat then XorStep <$> seq 0 (length a) else []).
Proof.
  unfold timingSafeEqualHex. destruct (Nat.eqb_spec (length a) (length b)) as [Hl|Hl].
  - cbn [negb]. pose proof (for_range_xor [] [] a b 0 eq_refl Hl ltac:(lia)) as H.
    cbn [app length] in H. unfold mbind, run_bind. rewrite H.
    unfold mret, run_ret. rewrite app_nil_r. f_equal. f_equal.
    fold (xor_accumulate a b). pose proof (xor_accumulate_zero a b Hl) as Hz.
    destruct (Z.eqb_spec (xor_accumulate a b) 0) as [H0|H0].
    + symmetry. apply bool_decide_eq_true. by apply Hz.
    + symmetry. apply bool_decide_eq_false. intros Hab. by apply H0, Hz.
  - cbn [negb]. unfold mret, run_ret. f_equal. f_equal.
    symmetry. apply bool_decide_eq_false. by intros ->.
Qed.

(** ** [hmacHex] *)

Lemma utf8_of_code_point_nonempty (cp : Z) : utf8_of_code_point cp ≠ [].
Proof. unfold utf8_of_code_point. repeat case_match; done. Qed.

Lemma TextEncoder_encode_nonempty (s : jsstring) : s ≠ [] → TextEncoder_encode s ≠ [].
Proof.
  destruct s as [|c r]; [done|]. intros _. unfold TextEncoder_encode.
  assert (∃ cp cps, code_points_replacing (c :: r) = cp :: cps) as (cp & cps & ->).
  { simpl. repeat case_match; eauto. }
  simpl. pose proof (utf8_of_code_point_nonempty cp).
  destruct (utf8_of_code_point cp); done.
Qed.

Lemma configured_Some (o : option jsstring) (secret : jsstring) :
  configured o = Some secret ↔ o = Some secret ∧ secret ≠ [].
Proof.
  unfold configured. destruct o as [[|c s]|]; split; try done.
  - by intros [[= <-] ?].
  - by intros [= <-].
  - by intros [[= <-] ?].
  - by intros [? ?].
Qed.

Lemma configured_None (o : option jsstring) :
  configured o = None ↔ o = None ∨ o = Some [].
Proof.
  unfold configured. destruct o as [[|c s]|]; split; try done; eauto.
  - by intros [|].
Qed.

Lemma hmacHex_run (secret message : jsstring) :
  secret ≠ [] →
  hmacHex secret message
  = (Normal (hmac_sha256_hex secret message),
     [HmacSign (TextEncoder_encode secret) (TextEncoder_encode message)]).
Proof.
  intros Hs. unfold hmacHex, importKey, hmac_sha256_hex.
  pose proof (TextEncoder_encode_nonempty secret Hs) as Hk.
  destruct (TextEncoder_encode secret) as [|b k]; done.
Qed.

(** ** The signature header *)

Lemma segment_pair_truthy (seg k v : jsstring) :
  segment_pair seg = Some (k, v) → k ≠ [] ∧ v ≠ [].
Proof.
  unfold segment_pair. intros H. repeat case_match; simplify_eq.
  destruct k, v; done.
Qed.

Lemma header_segment_pair (parts : gmap jsstring jsstring) (seg : jsstring) :
  header_segment parts seg
  = match segment_pair seg with
    | Some (k, v) => set_property k v parts
    | None => parts
    end.
Proof. unfold header_segment, segment_pair. repeat case_match; simplify_eq; done. Qed.

Lemma foldl_header_segment_lookup (key : jsstring) (segs : list jsstring)
    (parts : gmap jsstring jsstring) :
  key ≠ js "__proto__" →
  foldl header_segment parts segs !! key
  = match snd <$> last (filter (fun kv => kv.1 = key) (omap segment_pair segs)) with
    | Some v => Some v
    | None => parts !! key
    end.
Proof.
  intros Hk. revert parts. induction segs as [|seg segs IH]; intros parts; [done|].
  cbn [foldl]. rewrite IH, header_segment_pair.
  change (omap segment_pair (seg :: segs))
    with (match segment_pair seg with
          | Some kv => kv :: omap segment_pair segs
          | None => omap segment_pair segs
          end).
  destruct (segment_pair seg) as [[k v]|] eqn:E; [|done].
  rewrite filter_cons. simpl. destruct (decide (k = key)) as [->|Hne].
  - rewrite last_cons. unfold set_property.
    rewrite decide_False by done.
    destruct (last (filter _ _)) as [[k' v']|]; simpl; [done|].
    by rewrite lookup_insert_eq.
  - destruct (last (filter _ _)) as [[k' v']|]; simpl; [done|].
    unfold set_property. case_decide; [done|]. by rewrite lookup_insert_ne.
Qed.

(** The map the code fills holds, for [t] and [v1], the entries of the header. *)
Lemma header_parts_entry (key stripeSignature : jsstring) :
  key ≠ js "__proto__" →
  header_parts stripeSignature !! key = header_entry key stripeSignature.
Proof.
  intros Hk. unfold header_parts, header_entry.
  rewrite foldl_header_segment_lookup by done.
  rewrite lookup_empty. by destruct (snd <$> _).
Qed.

Lemma header_entry_truthy (key hdr v : jsstring) :
  header_entry key hdr = Some v → v ≠ [].
Proof.
  unfold header_entry. intros H.
  destruct (last _) as [[k v']|] eqn:E; simplify_eq/=.
  apply last_Some_elem_of, list_elem_of_filter in E as [_ E].
  apply list_elem_of_omap in E as (seg & _ & E).
  by apply segment_pair_truthy in E as [_ ?].
Qed.

Lemma header_t_v1_entries (hdr : jsstring) :
  header_t_v1 hdr
  = match header_entry (js "t") hdr, header_entry (js "v1") hdr with
    | Some t, Some v1 => Some (t, v1)
    | _, _ => None
    end.
Proof.
  unfold header_t_v1. rewrite !header_parts_entry by (by vm_compute).
  destruct (header_entry (js "t") hdr) as [t|] eqn:Et; [|done].
  destruct (header_entry (js "v1") hdr) as [v1|] eqn:Ev; [|done].
  apply header_entry_truthy in Et, Ev. destruct t, v1; done.
Qed.

(** C3. With the secret configured and a header that has a [t] and a [v1]
    entry, one HMAC-SHA-256 is computed, under the UTF-8 bytes of the secret,
    over the UTF-8 bytes of the string [t], a dot and the raw body as it
    came, and the result is true exactly when the lower-case hexadecimal
    encoding of that HMAC has the length of [v1] and is equal to [v1].
    The HMAC is the one of RFC 2104 with SHA-256: on the key and the data
    of test case 2 of RFC 4231 it has the value the RFC gives. *)
Theorem verifyStripeWebhookRaw_correct (env : Env) (secret hdr raw t v1 : jsstring) :
  configured (STRIPE_WEBHOOK_SECRET env) = Some secret →
  header_entry (js "t") hdr = Some t →
  header_entry (js "v1") hdr = Some v1 →
  ∃ b : bool,
    result (verifyStripeWebhookRaw env hdr raw) = Normal b
    ∧ (b = true ↔
       length (lowercase_hex (SHA256.hmac (TextEncoder_encode secret)
                                (TextEncoder_encode (t ++ js "." ++ raw)))) = length v1
       ∧ lowercase_hex (SHA256.hmac (TextEncoder_encode secret)
                          (TextEncoder_encode (t ++ js "." ++ raw))) = v1)
    ∧ head (trace (verifyStripeWebhookRaw env hdr raw))
      = Some (HmacSign (TextEncoder_encode secret) (TextEncoder_encode (t ++ js "." ++ raw)))
    ∧ lowercase_hex (SHA256.hmac (TextEncoder_encode (js "Jefe"))
                       (TextEncoder_encode (js "what do ya want for nothing?")))
      = js "5bdcc146bf60754e6a042426089575c75a003f089d2739839dec58b964ec3843".
Proof.
  intros Hs Ht Hv. apply configured_Some in Hs as Hs'. destruct Hs' as [_ Hne].
  unfold verifyStripeWebhookRaw. rewrite Hs, header_t_v1_entries, Ht, Hv.
  pose proof (TextEncoder_encode_nonempty secret Hne) as Hk.
  unfold importKey.
  destruct (TextEncoder_encode secret) as [|k0 k]; [done|].
  change (stripe_compare ?a ?b) with (timingSafeEqualHex a b).
  cbn [lift mbind run_bind subtle_sign emit mret run_ret app].
  rewrite hex_of_bytes_lowercase.
  set (sigHex := lowercase_hex _). rewrite timingSafeEqualHex_run.
  exists (bool_decide (sigHex = v1)). unfold result, trace. cbn [fst snd app head].
  split; [done|]. split; [|split; [done|vm_compute; reflexivity]].
  rewrite bool_decide_eq_true. split; [by intros ->|by intros [_ ?]].
Qed.

(** A header signed under the secret [whsec_test] (the value of [v1] was
    computed outside this file) is accepted. *)
Lemma verifyStripeWebhookRaw_correct_witness :
  result (verifyStripeWebhookRaw
            {| STRIPE_WEBHOOK_SECRET := Some (js "whsec_test"); REVIEW_LINK_SECRET := None |}
            (js "t=1700000000,v1=35495024f4ef3f94e5a93e22221544c4b75e9a42300cd965ab81cb85cd994e91")
            (js "{}"))
  = Normal true.
Proof.
  destruct (verifyStripeWebhookRaw_correct
              {| STRIPE_WEBHOOK_SECRET := Some (js "whsec_test"); REVIEW_LINK_SECRET := None |}
              (js "whsec_test")
              (js "t=1700000000,v1=35495024f4ef3f94e5a93e22221544c4b75e9a42300cd965ab81cb85cd994e91")
              (js "{}") (js "1700000000")
              (js "35495024f4ef3f94e5a93e22221544c4b75e9a42300cd965ab81cb85cd994e91"))
    as (b & Hb & Hiff & _); [reflexivity | vm_compute; reflexivity | vm_compute; reflexivity |].
  rewrite Hb. f_equal. apply Hiff. split; vm_compute; reflexivity.
Defined.

(** C6. With the secret configured, a header that has no [t] entry or no
    [v1] entry makes the verification return false with an empty trace: no
    HMAC is computed, no character is compared, nothing is thrown. *)
Theorem verifyStripeWebhookRaw_fail_closed (env : Env) (secret hdr raw : jsstring) :
  configured (STRIPE_WEBHOOK_SECRET env) = Some secret →
  header_entry (js "t") hdr = None ∨ header_entry (js "v1") hdr = None →
  verifyStripeWebhookRaw env hdr raw = (Normal false, []).
Proof.
  intros Hs H. unfold verifyStripeWebhookRaw. rewrite Hs, header_t_v1_entries.
  destruct H as [-> | ->]; [done|]. by destruct (header_entry (js "t") hdr).
Qed.

Lemma verifyStripeWebhookRaw_fail_closed_witness :
  verifyStripeWebhookRaw
    {| STRIPE_WEBHOOK_SECRET := Some (js "whsec_test"); REVIEW_LINK_SECRET := None |}
    (js "t=1700000000") (js "{}") = (Normal false, []).
Proof.
  apply (verifyStripeWebhookRaw_fail_closed _ (js "whsec_test")); [reflexivity|].
  right. vm_compute. reflexivity.
Defined.

(** ** [split] *)

Lemma split_nonempty (sep : char16) (s : jsstring) : split sep s ≠ [].
Proof. destruct s as [|c r]; simpl; [done|]. repeat case_match; done. Qed.

Lemma split_app_sep (sep : char16) (a b : jsstring) :
  split sep (a ++ sep :: b) = split sep a ++ split sep b.
Proof.
  induction a as [|c a IH]; simpl.
  - unfold char16_eqb. by rewrite Z.eqb_refl.
  - destruct (char16_eqb c sep); [by rewrite IH|].
    rewrite IH. pose proof (split_nonempty sep a).
    destruct (split sep a); done.
Qed.

Lemma split_no_sep (sep : char16) (s : jsstring) :
  Forall (fun c => code c ≠ code sep) s → split sep s = [s].
Proof.
  induction 1 as [|c s Hc Hs IH]; simpl; [done|].
  unfold char16_eqb. destruct (Z.eqb_spec (code c) (code sep)); [done|].
  by rewrite IH.
Qed.

(** ** The control flow of [verifyReviewToken] *)

Lemma verifyReviewToken_no_halves (env : Env) (token order_id : jsstring) (now : Z) :
  token_halves token = None →
  verifyReviewToken env token order_id now = (Normal false, []).
Proof.
  unfold token_halves, verifyReviewToken. intros H.
  destruct (configured _); [|done].
  destruct (split (chr 46) token) as [|p [|s rest]]; try done.
  destruct (truthy_string p), (truthy_string s); done.
Qed.

Lemma verifyReviewToken_halves (env : Env) (secret token order_id p s : jsstring) (now : Z) :
  configured (REVIEW_LINK_SECRET env) = Some secret →
  token_halves token = Some (p, s) →
  result (verifyReviewToken env token order_id now)
  = if bool_decide (hmac_sha256_hex secret p = s) then
      match base64urlDecode p ≫= JSON_parse with
      | Normal payload => check_payload payload order_id now
      | Throw _ => Normal false
      end
    else Normal false.
Proof.
  intros Hs H. unfold token_halves in H. unfold verifyReviewToken. rewrite Hs.
  apply configured_Some in Hs as [_ Hne].
  destruct (split (chr 46) token) as [|p' [|s' rest]]; try done.
  destruct (truthy_string p') eqn:Hp, (truthy_string s') eqn:Hs'; simplify_eq/=.
  rewrite hmacHex_run by done. cbn [mbind run_bind].
  rewrite timingSafeEqualHex_run. cbn [app].
  destruct (bool_decide _); cbn [negb]; [|done].
  destruct (base64urlDecode p ≫= JSON_parse) as [payload|e]; [|done].
  unfold lift. cbn. done.
Qed.

Lemma token_halves_extend (token extra p s : jsstring) :
  token_halves token = Some (p, s) →
  token_halves (token ++ js "." ++ extra) = Some (p, s).
Proof.
  unfold token_halves. change (token ++ js "." ++ extra) with (token ++ chr 46 :: extra).
  rewrite split_app_sep.
  destruct (split (chr 46) token) as [|p' [|s' rest]]; try done.
Qed.

(** C10. Without a review-link secret, [verifyReviewToken] returns false for
    every token and throws nothing, whereas [createReviewToken] throws its
    configuration error; without a webhook secret [verifyStripeWebhookRaw]
    throws too.  None of them computes anything before. *)
Theorem missing_secret_behaviour (toLowerCase : jsstring → jsstring) (env : Env)
    (token order_id email hdr raw : jsstring) (now : Z) :
  (configured (REVIEW_LINK_SECRET env) = None →
     verifyReviewToken env token order_id now = (Normal false, [])
     ∧ createReviewToken toLowerCase env order_id email now
       = (Throw (Error "Missing REVIEW_LINK_SECRET"), []))
  ∧ (configured (STRIPE_WEBHOOK_SECRET env) = None →
     verifyStripeWebhookRaw env hdr raw
     = (Throw (Error "Missing STRIPE_WEBHOOK_SECRET"), [])).
Proof.
  split.
  - intros H. unfold verifyReviewToken, createReviewToken. by rewrite H.
  - intros H. unfold verifyStripeWebhookRaw. by rewrite H.
Qed.

(** C7. With the secret configured, a token that lacks one of its two halves
    makes [verifyReviewToken] return false at once, and a token whose payload
    half does not decode from base64url or does not parse as JSON makes it
    return false as well; in neither case is anything thrown.  The token
    ["not-a-valid-token"] is of the first kind. *)
Theorem verifyReviewToken_malformed (env : Env) (secret token order_id : jsstring) (now : Z) :
  configured (REVIEW_LINK_SECRET env) = Some secret →
  (token_halves token = None →
     verifyReviewToken env token order_id now = (Normal false, []))
  ∧ (∀ p s e, token_halves token = Some (p, s) →
       base64urlDecode p ≫= JSON_parse = Throw e →
       result (verifyReviewToken env token order_id now) = Normal false)
  ∧ verifyReviewToken env (js "not-a-valid-token") (js "FF-1") now = (Normal false, []).
Proof.
  intros Hs. split; [|split].
  - apply verifyReviewToken_no_halves.
  - intros p s e Hh He. rewrite (verifyReviewToken_halves env secret token order_id p s) by done.
    rewrite He. by destruct (bool_decide _).
  - by apply verifyReviewToken_no_halves.
Qed.

Lemma verifyReviewToken_malformed_witness :
  verifyReviewToken
    {| STRIPE_WEBHOOK_SECRET := None; REVIEW_LINK_SECRET := Some (js "s3cret") |}
    (js "not-a-valid-token") (js "FF-1") 1700000000000 = (Normal false, []).
Proof.
  apply (verifyReviewToken_malformed
           {| STRIPE_WEBHOOK_SECRET := None; REVIEW_LINK_SECRET := Some (js "s3cret") |}
           (js "s3cret") (js "") (js "FF-1") 1700000000000).
  reflexivity.
Defined.

(** ** Examples used below: one environment and one token issued in it *)

Definition example_env : Env :=
  {| STRIPE_WEBHOOK_SECRET := Some (js "whsec_test"); REVIEW_LINK_SECRET := Some (js "s3cret") |}.

(** The token for order [FF-2026-100001] and [ann@example.com], issued at
    time 1700000000000 under the secret [s3cret]. *)
Definition example_payload_half : jsstring :=
  js "eyJvcmRlcl9pZCI6IkZGLTIwMjYtMTAwMDAxIiwiZW1haWwiOiJhbm5AZXhhbXBsZS5jb20iLCJleHAiOjE3MDM4ODgwMDAwMDB9".

Definition example_signature_half : jsstring :=
  js "06c000542410b9b0dcbd6b96dc5fe0b998fdc62737eaf99044500dc08655cc8f".

Definition example_token : jsstring :=
  example_payload_half ++ js "." ++ example_signature_half.

(** C8, as stated, fails: a valid token followed by further segments is
    still accepted, although what follows its first dot is no longer the
    HMAC of the payload half. *)
Lemma extra_segments_still_accepted :
  result (verifyReviewToken example_env example_token (js "FF-2026-100001") 1700000000001)
  = Normal true
  ∧ result (verifyReviewToken example_env (example_token ++ js ".extra.segments")
              (js "FF-2026-100001") 1700000000001)
    = Normal true
  ∧ hmac_sha256_hex (js "s3cret") example_payload_half
    ≠ example_signature_half ++ js ".extra.segments".
Proof.
  split; [|split].
  - vm_compute. reflexivity.
  - vm_compute. reflexivity.
  - intros H. apply (f_equal length) in H. vm_compute in H. discriminate H.
Qed.

(** C8, amended.  The token is split at every dot and the first two segments
    are its payload half and its signature half.  Verification fails at once
    when one of them is missing or empty.  The signature half must be the
    recomputed HMAC, in lower-case hexadecimal, of the payload half:
    verification returns true only if it is, and returns false if it is not.
    Segments after the second are not looked at: appending them to a token
    leaves the result (and the trace) of the verification as it was. *)
Theorem verifyReviewToken_first_two_segments (env : Env) (token order_id : jsstring) (now : Z) :
  (token_halves token = None →
     verifyReviewToken env token order_id now = (Normal false, []))
  ∧ (∀ secret p s,
       configured (REVIEW_LINK_SECRET env) = Some secret →
       token_halves token = Some (p, s) →
       (result (verifyReviewToken env token order_id now) = Normal true →
          s = lowercase_hex (SHA256.hmac (TextEncoder_encode secret) (TextEncoder_encode p)))
       ∧ (s ≠ lowercase_hex (SHA256.hmac (TextEncoder_encode secret) (TextEncoder_encode p)) →
          result (verifyReviewToken env token order_id now) = Normal false))
  ∧ (∀ p s extra, token_halves token = Some (p, s) →
       split (chr 46) (token ++ js "." ++ extra) = split (chr 46) token ++ split (chr 46) extra
       ∧ token_halves (token ++ js "." ++ extra) = Some (p, s)
       ∧ verifyReviewToken env (token ++ js "." ++ extra) order_id now
         = verifyReviewToken env token order_id now).
Proof.
  split; [apply verifyReviewToken_no_halves|]. split.
  - intros secret p s Hs Hh.
    rewrite (verifyReviewToken_halves env secret token order_id p s) by done.
    rewrite hmac_sha256_hex_lowercase.
    destruct (bool_decide _) eqn:E.
    + apply bool_decide_eq_true in E. by split.
    + by split.
  - intros p s extra H. split; [apply split_app_sep|].
    split; [by apply token_halves_extend|].
    unfold verifyReviewToken. destruct (configured _); [|done].
    change (token ++ js "." ++ extra) with (token ++ chr 46 :: extra).
    rewrite split_app_sep. unfold token_halves in H.
    destruct (split (chr 46) token) as [|p' [|s' rest]]; done.
Qed.

(** ** The checks on the payload *)

Lemma ToString_or_else_string (x : jsstring) :
  ToString (or_else (Some (JString x)) (JString [])) = Normal x.
Proof. by destruct x. Qed.

Lemma check_payload_order_id (payload : json) (order_id oid : jsstring) (now : Z) :
  ToString (or_else (Get payload (js "order_id")) (JString [])) = Normal oid →
  oid ≠ order_id →
  check_payload payload order_id now = Normal false.
Proof.
  intros Ho Hne. unfold check_payload. destruct (ToBoolean payload); [|done].
  cbn [negb]. rewrite Ho. cbn [mbind completion_bind].
  destruct (jsstring_eqb oid order_id) eqn:E; [|done].
  by apply jsstring_eqb_eq in E.
Qed.

(** Two tokens signed under the secret [s3cret] (payload halves and
    signatures computed outside this file): the payload of the first has
    the array [["FF-2026-100001"]] as its [order_id], that of the second the
    object [{toString: null}]; both have 1703888000000 as their [exp]. *)
Definition array_order_payload_half : jsstring :=
  js "eyJvcmRlcl9pZCI6WyJGRi0yMDI2LTEwMDAwMSJdLCJleHAiOjE3MDM4ODgwMDAwMDB9".

Definition array_order_token : jsstring :=
  array_order_payload_half
  ++ js ".d23bdfaf6866019857c0ccb9f26394ff06d70bb15288861a002ebbb4657cb99d".

Definition object_order_payload_half : jsstring :=
  js "eyJvcmRlcl9pZCI6eyJ0b1N0cmluZyI6bnVsbH0sImV4cCI6MTcwMzg4ODAwMDAwMH0".

Definition object_order_token : jsstring :=
  object_order_payload_half
  ++ js ".cf61466a67de0260867602f6fd9702835a46d977d5518a3362bd332657a49c1c".

(** C4, as stated, fails.  The signature of both tokens is valid.  The
    [order_id] of the first is an array, so it is not string-equal to
    [FF-2026-100001], and the token is accepted for that order: line 1859
    compares [String(payload.order_id || "")].  On the second token the
    conversion throws, outside the [try], and the call fails with a
    [TypeError] where the claim has it return false. *)
Lemma order_id_coercion_counterexample :
  (token_halves array_order_token
   = Some (array_order_payload_half,
           lowercase_hex (SHA256.hmac (TextEncoder_encode (js "s3cret"))
                            (TextEncoder_encode array_order_payload_half)))
   ∧ (fun payload => Get payload (js "order_id"))
       <$> (base64urlDecode array_order_payload_half ≫= JSON_parse)
     = Normal (Some (JArray [JString (js "FF-2026-100001")]))
   ∧ result (verifyReviewToken example_env array_order_token (js "FF-2026-100001")
               1700000000001)
     = Normal true)
  ∧ (token_halves object_order_token
     = Some (object_order_payload_half,
             lowercase_hex (SHA256.hmac (TextEncoder_encode (js "s3cret"))
                              (TextEncoder_encode object_order_payload_half)))
     ∧ result (verifyReviewToken example_env object_order_token (js "FF-2026-100001")
                 1700000000001)
       = Throw TypeError).
Proof. repeat split; vm_compute; reflexivity. Qed.

(** C4, amended.  With the secret configured, take a token with its two
    halves whose payload half decodes and parses.  Line 1859 reads the order
    id of the payload as [String(payload.order_id || "")]: a string as itself,
    a missing or falsy one as the empty string, a number in its decimal form,
    an array as its elements joined by commas.  Whatever the signature half
    is, when that string is not the expected order id the verification
    returns false; in particular when [payload.order_id] is a string other
    than the expected one. *)
Theorem verifyReviewToken_cross_order (env : Env) (secret token order_id p s : jsstring)
    (payload : json) (now : Z) :
  configured (REVIEW_LINK_SECRET env) = Some secret →
  token_halves token = Some (p, s) →
  base64urlDecode p ≫= JSON_parse = Normal payload →
  (∀ oid, ToString (or_else (Get payload (js "order_id")) (JString [])) = Normal oid →
     oid ≠ order_id →
     result (verifyReviewToken env token order_id now) = Normal false)
  ∧ (∀ oid, Get payload (js "order_id") = Some (JString oid) →
     oid ≠ order_id →
     result (verifyReviewToken env token order_id now) = Normal false).
Proof.
  intros Hs Hh Hp.
  assert (∀ oid, ToString (or_else (Get payload (js "order_id")) (JString [])) = Normal oid →
     oid ≠ order_id →
     result (verifyReviewToken env token order_id now) = Normal false) as H.
  { intros oid Ho Hne.
    rewrite (verifyReviewToken_halves env secret token order_id p s) by done.
    rewrite Hp. destruct (bool_decide _); [|done].
    by apply (check_payload_order_id _ _ oid). }
  split; [done|]. intros oid Hg Hne. apply (H oid); [|done].
  rewrite Hg. apply ToString_or_else_string.
Qed.

(** The token issued for order [FF-2026-100001], its signature valid, is
    refused for order [FF-2026-999999]. *)
Lemma verifyReviewToken_cross_order_witness :
  hmac_sha256_hex (js "s3cret") example_payload_half = example_signature_half
  ∧ result (verifyReviewToken example_env example_token (js "FF-2026-999999") 1700000000001)
    = Normal false.
Proof.
  split; [vm_compute; reflexivity|].
  eapply (verifyReviewToken_cross_order example_env (js "s3cret") example_token
            (js "FF-2026-999999") example_payload_half example_signature_half).
  - reflexivity.
  - vm_compute. reflexivity.
  - vm_compute. reflexivity.
  - vm_compute. reflexivity.
  - intros H. apply (f_equal (fun l => code <$> l !! 8%nat)) in H. vm_compute in H.
    discriminate H.
Defined.

(** ** Numbers: integers below [2^53] are exact *)

Lemma round_ratio_integer (negative : bool) (z : Z) :
  0 < z < 2 ^ 53 →
  round_ratio negative z 1 = Dbl negative (z * 2 ^ (52 - Z.log2 z)) (Z.log2 z - 52).
Proof.
  intros Hz. unfold round_ratio.
  destruct (Z.leb_spec z 0) as [?|_]; [lia|].
  pose proof (Z.log2_spec z ltac:(lia)) as [Hlo Hhi].
  pose proof (Z.log2_nonneg z) as HL0.
  assert (HL : Z.log2 z <= 52).
  { apply Z.lt_succ_r, (Z.pow_lt_mono_r_iff 2); [lia|lia|].
    replace (Z.succ 52) with 53 by lia. lia. }
  change (Z.log2 1) with 0. rewrite Z.sub_0_r.
  set (L := Z.log2 z) in *.
  unfold scaled_den, scaled_num.
  rewrite (Z.max_r 0 L), (Z.max_l 0 (- L)) by lia.
  rewrite Z.pow_0_r, !Z.mul_1_l, Z.mul_1_r.
  destruct (Z.leb_spec (2 ^ L) z) as [_|?]; [|lia].
  rewrite (Z.max_l (L - 52) (-1074)) by lia.
  rewrite (Z.max_r 0 (- (L - 52))), (Z.max_l 0 (L - 52)) by lia.
  rewrite Z.pow_0_r, Z.div_1_r, Z.mod_1_r.
  replace (- (L - 52)) with (52 - L) by lia.
  change (1 <? 2 * 0) with false. change (2 * 0 =? 1) with false. cbn [orb andb].
  assert (Hq : 0 < z * 2 ^ (52 - L) < 2 ^ 53).
  { assert (0 < 2 ^ (52 - L)) by (apply Z.pow_pos_nonneg; lia).
    split; [lia|].
    replace (2 ^ 53) with (2 ^ Z.succ L * 2 ^ (52 - L)).
    - apply Z.mul_lt_mono_pos_r; lia.
    - rewrite <- Z.pow_add_r by lia. f_equal. lia. }
  destruct (Z.eqb_spec (z * 2 ^ (52 - L)) (2 ^ 53)) as [?|_]; [lia|].
  destruct (Z.ltb_spec 971 (L - 52)) as [?|_]; [lia|].
  destruct (Z.eqb_spec (z * 2 ^ (52 - L)) 0) as [?|_]; [lia|].
  done.
Qed.

Lemma number_of_Z_repr (z : Z) :
  - 2 ^ 53 < z < 2 ^ 53 →
  ∃ n f, number_of_Z z = Dbl (z <? 0) n f ∧ f <= 0
         ∧ (if z <? 0 then - n else n) = z * 2 ^ (- f).
Proof.
  intros Hz. unfold number_of_Z.
  destruct (Z.lt_trichotomy z 0) as [Hneg|[->|Hpos]].
  - rewrite round_ratio_integer by lia.
    pose proof (Z.log2_nonneg (Z.abs z)).
    assert (Z.log2 (Z.abs z) <= 52).
    { apply Z.lt_succ_r, (Z.pow_lt_mono_r_iff 2); [lia|lia|].
      pose proof (Z.log2_spec (Z.abs z) ltac:(lia)). replace (Z.succ 52) with 53 by lia. lia. }
    eexists _, _. split; [done|]. split; [lia|].
    destruct (Z.ltb_spec z 0); [|lia].
    replace (- (Z.log2 (Z.abs z) - 52)) with (52 - Z.log2 (Z.abs z)) by lia.
    rewrite Z.abs_neq by lia. lia.
  - exists 0, 0. done.
  - rewrite round_ratio_integer by lia.
    pose proof (Z.log2_nonneg (Z.abs z)).
    assert (Z.log2 (Z.abs z) <= 52).
    { apply Z.lt_succ_r, (Z.pow_lt_mono_r_iff 2); [lia|lia|].
      pose proof (Z.log2_spec (Z.abs z) ltac:(lia)). replace (Z.succ 52) with 53 by lia. lia. }
    eexists _, _. split; [done|]. split; [lia|].
    destruct (Z.ltb_spec z 0); [lia|].
    replace (- (Z.log2 (Z.abs z) - 52)) with (52 - Z.log2 (Z.abs z)) by lia.
    rewrite Z.abs_eq by lia. done.
Qed.

(** The integer a Number made from an integer is. *)
Lemma number_to_Z_of_Z (z : Z) : - 2 ^ 53 < z < 2 ^ 53 → number_to_Z (number_of_Z z) = Some z.
Proof.
  intros Hz. destruct (number_of_Z_repr z Hz) as (n & f & -> & Hf & Hn).
  unfold number_to_Z. rewrite (Z.max_l 0 f), (Z.max_r 0 (- f)), Z.pow_0_r, Z.mul_1_r by lia.
  assert (0 < 2 ^ (- f)) by (apply Z.pow_pos_nonneg; lia).
  destruct (Z.ltb_spec z 0).
  - assert (n = (- z) * 2 ^ (- f)) as -> by lia.
    rewrite Z.mod_mul, Z.div_mul by lia. simpl. f_equal. lia.
  - subst n. rewrite Z.mod_mul, Z.div_mul by lia. simpl. f_equal. lia.
Qed.

(** [Date.now() > exp] is false exactly when the time is at most [exp]. *)
Lemma number_ltb_of_Z (s : bool) (m e now : Z) :
  - 2 ^ 53 < now < 2 ^ 53 →
  number_ltb (Dbl s m e) (number_of_Z now) = false ↔ Z_le_number now (Dbl s m e).
Proof.
  intros Hz. destruct (number_of_Z_repr now Hz) as (n & f & -> & Hf & Hn).
  unfold number_ltb, Z_le_number. rewrite Hn. set (sm := if s then - m else m).
  rewrite Z.ltb_ge.
  destruct (Z.le_gt_cases 0 e) as [He|He].
  - rewrite (Z.min_r e f), (Z.max_l 0 (- e)), (Z.max_r 0 e), Z.sub_diag by lia.
    rewrite !Z.pow_0_r, !Z.mul_1_r.
    replace (e - f) with (e + - f) by lia. rewrite Z.pow_add_r, Z.mul_assoc by lia.
    assert (0 < 2 ^ (- f)) by (apply Z.pow_pos_nonneg; lia).
    symmetry. apply Z.mul_le_mono_pos_r. done.
  - rewrite (Z.max_r 0 (- e)), (Z.max_l 0 e), Z.pow_0_r, Z.mul_1_r by lia.
    set (k := Z.min e f).
    assert (Hk : k <= e ∧ k <= f) by lia. destruct Hk as [Hke Hkf].
    assert (0 < 2 ^ (e - k)) by (apply Z.pow_pos_nonneg; lia).
    replace (now * 2 ^ (- f) * 2 ^ (f - k)) with (now * 2 ^ (- e) * 2 ^ (e - k)).
    + symmetry. apply Z.mul_le_mono_pos_r. done.
    + rewrite <- !Z.mul_assoc, <- !Z.pow_add_r by lia. do 2 f_equal. lia.
Qed.

Lemma time_value_safe (t : Z) : time_value t → - 2 ^ 53 < t < 2 ^ 53.
Proof. unfold time_value. lia. Qed.

Lemma check_payload_true (payload : json) (order_id : jsstring) (now : Z) :
  time_value now →
  check_payload payload order_id now = Normal true →
  ToString (or_else (Get payload (js "order_id")) (JString [])) = Normal order_id
  ∧ ∃ exp, ToNumber (or_else (Get payload (js "exp")) (JNumber (Dbl false 0 0))) = Normal exp
           ∧ Number_isFinite exp = true ∧ Z_le_number now exp.
Proof.
  intros Ht. unfold check_payload. destruct (ToBoolean payload); [|done]. cbn [negb].
  destruct (ToString _) as [oid|]; [|done]. cbn [mbind completion_bind].
  destruct (jsstring_eqb oid order_id) eqn:Eo; [|done]. cbn [negb].
  apply jsstring_eqb_eq in Eo as ->.
  destruct (ToNumber _) as [exp|]; [|done]. cbn [mbind completion_bind].
  destruct (Number_isFinite exp) eqn:Ef; [|done]. cbn [negb orb].
  destruct (number_ltb exp (number_of_Z now)) eqn:El; [done|]. intros _.
  split; [done|]. exists exp. split; [done|]. split; [done|].
  destruct exp as [| |s m e]; try done.
  by apply number_ltb_of_Z; [apply time_value_safe|].
Qed.

Lemma check_payload_expired (payload : json) (order_id : jsstring) (now : Z) (exp : number) :
  time_value now →
  ToNumber (or_else (Get payload (js "exp")) (JNumber (Dbl false 0 0))) = Normal exp →
  ¬ Z_le_number now exp →
  check_payload payload order_id now ≠ Normal true
  ∧ (∀ oid, ToString (or_else (Get payload (js "order_id")) (JString [])) = Normal oid →
       check_payload payload order_id now = Normal false).
Proof.
  intros Ht He Hn. split.
  - intros H. apply check_payload_true in H as (_ & exp' & He' & _ & Hle); [|done].
    rewrite He in He'. by simplify_eq.
  - intros oid Ho. unfold check_payload. destruct (ToBoolean payload); [|done]. cbn [negb].
    rewrite Ho, He. cbn [mbind completion_bind].
    destruct (jsstring_eqb oid order_id); [|done]. cbn [negb].
    destruct (Number_isFinite exp) eqn:Ef; [|done]. cbn [negb orb].
    destruct (number_ltb exp (number_of_Z now)) eqn:El; [done|].
    exfalso. apply Hn. destruct exp as [| |s m e]; try done.
    by apply number_ltb_of_Z; [apply time_value_safe|].
Qed.

(** Three more tokens signed under [s3cret]: the payload of the first has
    the string ["1703888000000"] as its [exp], that of the second has no
    [exp], and that of the third the object [{toString: null}] as its
    [order_id] and 1 as its [exp]. *)
Definition string_exp_payload_half : jsstring :=
  js "eyJvcmRlcl9pZCI6IkZGLTIwMjYtMTAwMDAxIiwiZXhwIjoiMTcwMzg4ODAwMDAwMCJ9".

Definition string_exp_token : jsstring :=
  string_exp_payload_half
  ++ js ".82b6b70f3c249d0162284bfe0b744c08a59d4dfe0c65ae6b3f93b1184eacb148".

Definition no_exp_token : jsstring :=
  js "eyJvcmRlcl9pZCI6IkZGLTIwMjYtMTAwMDAxIn0"
  ++ js ".da74a53c62cea894cd9a3be72ccbe72ddd3d9bbaedb0dc4f6e92140b882bbffe".

Definition past_exp_object_token : jsstring :=
  js "eyJvcmRlcl9pZCI6eyJ0b1N0cmluZyI6bnVsbH0sImV4cCI6MX0"
  ++ js ".f04520db513d88b4237dd5368b0620c6e9c3662dbd919ac8c61a012f4be5084e".

(** C5, as stated, fails.  The first token is accepted although its [exp]
    is a string and no number; the second is accepted at time 0 although
    it has no [exp]: line 1861 reads [Number(payload.exp || 0)].  The third
    has an [exp] long past, and the call throws a [TypeError] (from line
    1859) where the claim has it return false. *)
Lemma exp_coercion_counterexample :
  ((fun payload => Get payload (js "exp"))
     <$> (base64urlDecode string_exp_payload_half ≫= JSON_parse)
   = Normal (Some (JString (js "1703888000000")))
   ∧ result (verifyReviewToken example_env string_exp_token (js "FF-2026-100001")
               1700000000001)
     = Normal true)
  ∧ result (verifyReviewToken example_env no_exp_token (js "FF-2026-100001") 0) = Normal true
  ∧ result (verifyReviewToken example_env past_exp_object_token (js "FF-2026-100001")
              1700000000001)
    = Throw TypeError.
Proof. repeat split; vm_compute; reflexivity. Qed.

(** C5, amended.  Line 1861 reads the expiry of the payload as
    [Number(payload.exp || 0)]: a number as itself, a string as the number
    it spells, a missing or falsy one as 0.  Verification returns true only
    for a token whose payload gives, read so, a finite expiry that the
    current time has not passed.  A token whose expiry, read so, lies in
    the past is never accepted, whatever its signature half: verification
    does not return true, and it returns false as soon as the order id of
    the payload converts to a string at all (otherwise the call may throw). *)
Theorem verifyReviewToken_expiry (env : Env) (token order_id : jsstring) (now : Z) :
  time_value now →
  (result (verifyReviewToken env token order_id now) = Normal true →
     ∃ p s payload exp,
       token_halves token = Some (p, s)
       ∧ base64urlDecode p ≫= JSON_parse = Normal payload
       ∧ ToNumber (or_else (Get payload (js "exp")) (JNumber (Dbl false 0 0))) = Normal exp
       ∧ Number_isFinite exp = true
       ∧ Z_le_number now exp)
  ∧ (∀ p s payload exp,
       token_halves token = Some (p, s) →
       base64urlDecode p ≫= JSON_parse = Normal payload →
       ToNumber (or_else (Get payload (js "exp")) (JNumber (Dbl false 0 0))) = Normal exp →
       ¬ Z_le_number now exp →
       result (verifyReviewToken env token order_id now) ≠ Normal true
       ∧ (∀ oid, ToString (or_else (Get payload (js "order_id")) (JString [])) = Normal oid →
            result (verifyReviewToken env token order_id now) = Normal false)).
Proof.
  intros Ht. split.
  - intros H. destruct (configured (REVIEW_LINK_SECRET env)) as [secret|] eqn:Hs.
    2:{ unfold verifyReviewToken in H. by rewrite Hs in H. }
    destruct (token_halves token) as [[p s]|] eqn:Hh.
    2:{ by rewrite verifyReviewToken_no_halves in H. }
    rewrite (verifyReviewToken_halves env secret token order_id p s) in H by done.
    destruct (bool_decide _); [|done].
    destruct (base64urlDecode p ≫= JSON_parse) as [payload|] eqn:Hp; [|done].
    apply check_payload_true in H as (_ & exp & He & Hf & Hle); [|done].
    by exists p, s, payload, exp.
  - intros p s payload exp Hh Hp He Hn.
    destruct (check_payload_expired payload order_id now exp Ht He Hn) as [H1 H2].
    destruct (configured (REVIEW_LINK_SECRET env)) as [secret|] eqn:Hs.
    2:{ unfold verifyReviewToken. rewrite Hs. by split. }
    rewrite (verifyReviewToken_halves env secret token order_id p s) by done.
    rewrite Hp. destruct (bool_decide _); [done|]. by split.
Qed.

(** The example token, expiring at 1703888000000, is refused one millisecond
    later and accepted until then. *)
Lemma verifyReviewToken_expiry_witness :
  result (verifyReviewToken example_env example_token (js "FF-2026-100001") 1703888000001)
  = Normal false
  ∧ result (verifyReviewToken example_env example_token (js "FF-2026-100001") 1703888000000)
    = Normal true.
Proof.
  split; [|vm_compute; reflexivity].
  assert (Ht : time_value 1703888000001) by (unfold time_value; lia).
  destruct (verifyReviewToken_expiry example_env example_token (js "FF-2026-100001")
              1703888000001 Ht) as [_ H].
  destruct (H example_payload_half example_signature_half
              (JObject [(js "order_id", JString (js "FF-2026-100001"));
                        (js "email", JString (js "ann@example.com"));
                        (js "exp", JNumber (number_of_Z 1703888000000))])
              (number_of_Z 1703888000000)) as [_ H'].
  - vm_compute. reflexivity.
  - vm_compute. reflexivity.
  - vm_compute. reflexivity.
  - vm_compute. intros Hle. apply Hle. reflexivity.
  - apply (H' (js "FF-2026-100001")). vm_compute. reflexivity.
Defined.

(** * The helpers around the signed tokens

    The rest of [worker/src/index.ts] that is plain computation: the CORS
    headers, the HTML escaping of the e-mail templates, the hex digests, the
    base64url and cookie readers and the access check built on them. *)

(** ** Requests

    Of a request the helpers read header values only.  [req.headers.get(name)]
    matches names without regard to ASCII case; the map holds the headers
    under their lower-case names. *)

Definition ascii_lower (c : char16) : char16 :=
  if is_upper c then chr (code c + 32) else c.

Record Request : Type := { headers : gmap jsstring jsstring }.

Definition headers_get (req : Request) (name : string) : option jsstring :=
  headers req !! (ascii_lower <$> js name).

(** [x || ""] for a string or [null] *)
Definition or_empty (x : option jsstring) : jsstring := default [] x.

(** ** [cors] (index.ts, lines 1353-1373) *)

Definition allowed_origins : list jsstring :=
  [js "https://fur-fusion.com"; js "https://www.fur-fusion.com";
   js "http://localhost:8080"; js "http://127.0.0.1:8080"].

Definition cors (req : Request) : list (jsstring * jsstring) :=
  let origin := or_empty (headers_get req "Origin") in
  let allowOrigin :=
    if bool_decide (origin ∈ allowed_origins) then origin else js "https://fur-fusion.com" in
  [(js "Access-Control-Allow-Origin", allowOrigin);
   (js "Access-Control-Allow-Headers",
    js "Content-Type, Authorization, Stripe-Signature, CF-Access-Jwt-Assertion");
   (js "Access-Control-Allow-Methods", js "GET, POST, PATCH, DELETE, OPTIONS");
   (js "Access-Control-Allow-Credentials", js "true");
   (js "Vary", js "Origin")].

(** The value of a header in a list of headers. *)
Definition header_value (name : string) (hs : list (jsstring * jsstring)) : option jsstring :=
  (fun found => found.2.2) <$> list_find (fun h => h.1 = js name) hs.

(** ** [escapeHtml] and [escapeAttr] (index.ts, lines 1903-1914) *)

(** [s.replaceAll(x, by)] for a pattern of one character and a replacement
    without [$]. *)
Definition replaceAll (x : Z) (by_ : string) (s : jsstring) : jsstring :=
  flat_map (fun c => if code c =? x then js by_ else [c]) s.

Definition escapeHtml (s : jsstring) : jsstring :=
  replaceAll 39 "&#039;"
    (replaceAll 34 "&quot;"
       (replaceAll 62 "&gt;"
          (replaceAll 60 "&lt;"
             (replaceAll 38 "&amp;" s)))).

Definition escapeAttr (s : jsstring) : jsstring := escapeHtml s.

(** What the five passes together do to one character. *)
Definition escape_html_char (c : char16) : jsstring :=
  if code c =? 38 then js "&amp;"
  else if code c =? 60 then js "&lt;"
  else if code c =? 62 then js "&gt;"
  else if code c =? 34 then js "&quot;"
  else if code c =? 39 then js "&#039;"
  else [c].

(** ** [hashString] (index.ts, lines 1919-1923) *)

Definition hashString (str : jsstring) : jsstring :=
  hex_of_bytes (SHA256.digest (TextEncoder_encode str)).

Definition is_lower_hex (c : char16) : bool :=
  is_digit c || (97 <=? code c) && (code c <=? 102).

(** ** Properties of [cors] *)

(** X1. The origin [cors] allows is always one of the four origins of its
    list: the origin of the request when that is in the list, and
    [https://fur-fusion.com] for any other or missing origin.  Credentials
    are always allowed and [Vary: Origin] is always set. *)
Theorem cors_allow_origin (req : Request) :
  ∃ o, header_value "Access-Control-Allow-Origin" (cors req) = Some o
       ∧ o ∈ allowed_origins
       ∧ (o = or_empty (headers_get req "Origin")
          ↔ or_empty (headers_get req "Origin") ∈ allowed_origins)
       ∧ (or_empty (headers_get req "Origin") ∉ allowed_origins
          → o = js "https://fur-fusion.com")
       ∧ header_value "Access-Control-Allow-Credentials" (cors req) = Some (js "true")
       ∧ header_value "Vary" (cors req) = Some (js "Origin").
Proof.
  unfold cors. set (origin := or_empty _).
  destruct (bool_decide (origin ∈ allowed_origins)) eqn:E.
  - apply bool_decide_eq_true in E. exists origin.
    split; [reflexivity|]. split; [done|]. split; [done|]. split; [done|].
    split; reflexivity.
  - apply bool_decide_eq_false in E. exists (js "https://fur-fusion.com").
    split; [reflexivity|]. split; [apply list_elem_of_here|].
    split; [|split; [done|split; reflexivity]].
    split; [|done]. intros <-. exfalso. apply E. apply list_elem_of_here.
Qed.

(** ** Properties of [escapeHtml] *)

Lemma flat_map_app_list {A B} (f : A → list B) (l1 l2 : list A) :
  flat_map f (l1 ++ l2) = flat_map f l1 ++ flat_map f l2.
Proof. induction l1 as [|x l1 IH]; simpl; [done|]. by rewrite IH, (assoc_L (++)). Qed.

Lemma replaceAll_cons (x : Z) (by_ : string) (c : char16) (s : jsstring) :
  replaceAll x by_ (c :: s) = (if code c =? x then js by_ else [c]) ++ replaceAll x by_ s.
Proof. done. Qed.

Lemma replaceAll_app (x : Z) (by_ : string) (a b : jsstring) :
  replaceAll x by_ (a ++ b) = replaceAll x by_ a ++ replaceAll x by_ b.
Proof. apply flat_map_app_list. Qed.

(** The five passes, of which the first replaces the ampersands the others
    would add, amount to one pass over the characters. *)
Lemma escapeHtml_chars (s : jsstring) : escapeHtml s = flat_map escape_html_char s.
Proof.
  unfold escapeHtml. induction s as [|c s IH]; [done|].
  rewrite replaceAll_cons. cbn [flat_map]. rewrite <- IH. unfold escape_html_char.
  destruct (Z.eqb_spec (code c) 38) as [E|E38].
  { rewrite !replaceAll_app. f_equal. }
  rewrite !replaceAll_app, replaceAll_cons.
  destruct (Z.eqb_spec (code c) 60) as [E|E60].
  { rewrite !replaceAll_app. f_equal. }
  rewrite !replaceAll_app, replaceAll_cons.
  destruct (Z.eqb_spec (code c) 62) as [E|E62].
  { rewrite !replaceAll_app. f_equal. }
  rewrite !replaceAll_app, replaceAll_cons.
  destruct (Z.eqb_spec (code c) 34) as [E|E34].
  { rewrite !replaceAll_app. f_equal. }
  rewrite !replaceAll_app, replaceAll_cons.
  destruct (Z.eqb_spec (code c) 39) as [E|E39]; [f_equal|].
  done.
Qed.

Definition html_entity_tails : list jsstring :=
  [js "amp;"; js "lt;"; js "gt;"; js "quot;"; js "#039;"].

Lemma escape_html_char_cases (c : char16) :
  (escape_html_char c = [c] ∧ code c ∉ [38; 60; 62; 34; 39])
  ∨ (∃ tail, escape_html_char c = chr 38 :: tail ∧ tail ∈ html_entity_tails
             ∧ Forall (fun d => code d ∉ [38; 60; 62; 34; 39]) tail
             ∧ code c ∈ [38; 60; 62; 34; 39]).
Proof.
  unfold escape_html_char, html_entity_tails.
  destruct (Z.eqb_spec (code c) 38) as [E|?].
  { right. exists (js "amp;"). rewrite E. split; [done|]. split; [by apply (bool_decide_unpack _); vm_compute|].
    split; [|by apply (bool_decide_unpack _); vm_compute]. apply (bool_decide_unpack _). by vm_compute. }
  destruct (Z.eqb_spec (code c) 60) as [E|?].
  { right. exists (js "lt;"). rewrite E. split; [done|]. split; [by apply (bool_decide_unpack _); vm_compute|].
    split; [|by apply (bool_decide_unpack _); vm_compute]. apply (bool_decide_unpack _). by vm_compute. }
  destruct (Z.eqb_spec (code c) 62) as [E|?].
  { right. exists (js "gt;"). rewrite E. split; [done|]. split; [by apply (bool_decide_unpack _); vm_compute|].
    split; [|by apply (bool_decide_unpack _); vm_compute]. apply (bool_decide_unpack _). by vm_compute. }
  destruct (Z.eqb_spec (code c) 34) as [E|?].
  { right. exists (js "quot;"). rewrite E. split; [done|]. split; [by apply (bool_decide_unpack _); vm_compute|].
    split; [|by apply (bool_decide_unpack _); vm_compute]. apply (bool_decide_unpack _). by vm_compute. }
  destruct (Z.eqb_spec (code c) 39) as [E|?].
  { right. exists (js "#039;"). rewrite E. split; [done|]. split; [by apply (bool_decide_unpack _); vm_compute|].
    split; [|by apply (bool_decide_unpack _); vm_compute]. apply (bool_decide_unpack _). by vm_compute. }
  left. split; [done|]. rewrite !not_elem_of_cons. repeat split; (done || apply not_elem_of_nil).
Qed.

Lemma app_eq_split_fresh {A} (x : A) (l1 l2 pre post : list A) :
  x ∉ l1 → l1 ++ l2 = pre ++ x :: post →
  ∃ pre', pre = l1 ++ pre' ∧ l2 = pre' ++ x :: post.
Proof.
  revert pre. induction l1 as [|y l1 IH]; intros pre Hx H; simpl in *; [by exists pre|].
  apply not_elem_of_cons in Hx as [Hne Hx].
  destruct pre as [|p pre]; simplify_eq/=.
  destruct (IH pre Hx) as (pre' & -> & ->); [done|]. by exists pre'.
Qed.

Lemma escape_html_entities (s pre post : jsstring) :
  flat_map escape_html_char s = pre ++ chr 38 :: post →
  ∃ tail, tail ∈ html_entity_tails ∧ tail `prefix_of` post.
Proof.
  revert pre. induction s as [|c s IH]; intros pre H; simpl in H.
  { by destruct pre. }
  destruct (escape_html_char_cases c) as [[Hc Hn]|(tail & Hc & Ht & Hf & _)]; rewrite Hc in H.
  - destruct (app_eq_split_fresh (chr 38) [c] (flat_map escape_html_char s) pre post)
      as (pre' & -> & H'); [|done|by eapply IH].
    apply not_elem_of_cons. split; [|apply not_elem_of_nil].
    intros E. apply Hn. rewrite <- E. apply list_elem_of_here.
  - destruct pre as [|p pre]; simplify_eq/=.
    + exists tail. split; [done|]. by eexists.
    + destruct (app_eq_split_fresh (chr 38) tail (flat_map escape_html_char s) pre post)
        as (pre' & -> & H'); [|done|by eapply IH].
      intros Hin. rewrite Forall_forall in Hf. apply (Hf _ Hin). apply list_elem_of_here.
Qed.

Lemma escape_html_char_nonempty (c : char16) : escape_html_char c ≠ [].
Proof. destruct (escape_html_char_cases c) as [[-> _]|(tail & -> & _)]; done. Qed.

Lemma special_char (c : char16) :
  code c ∈ [38; 60; 62; 34; 39] →
  c = chr 38 ∨ c = chr 60 ∨ c = chr 62 ∨ c = chr 34 ∨ c = chr 39.
Proof.
  rewrite !elem_of_cons, elem_of_nil.
  intros [E|[E|[E|[E|[E|[]]]]]]; [left|right; left|right; right; left
    |right; right; right; left|right; right; right; right];
    apply char16_eq; by rewrite E.
Qed.

Lemma escape_html_char_inj_app (x y : char16) (a b : jsstring) :
  escape_html_char x ++ a = escape_html_char y ++ b → x = y ∧ a = b.
Proof.
  intros H.
  destruct (escape_html_char_cases x) as [[Hx Hnx]|(tx & _ & _ & _ & Hsx)],
           (escape_html_char_cases y) as [[Hy Hny]|(ty & _ & _ & _ & Hsy)].
  - rewrite Hx, Hy in H. by simplify_eq/=.
  - rewrite Hx in H. apply special_char in Hsy.
    destruct Hsy as [->|[->|[->|[->| ->]]]]; vm_compute in H;
      injection H as -> _; exfalso; apply Hnx; by apply (bool_decide_unpack _); vm_compute.
  - rewrite Hy in H. apply special_char in Hsx.
    destruct Hsx as [->|[->|[->|[->| ->]]]]; vm_compute in H;
      injection H as <- _; exfalso; apply Hny; by apply (bool_decide_unpack _); vm_compute.
  - apply special_char in Hsx, Hsy.
    destruct Hsx as [->|[->|[->|[->| ->]]]], Hsy as [->|[->|[->|[->| ->]]]];
      vm_compute in H; first [ discriminate H | by simplify_eq ].
Qed.

Lemma escape_html_inj (a b : jsstring) :
  flat_map escape_html_char a = flat_map escape_html_char b → a = b.
Proof.
  revert b. induction a as [|x a IH]; intros [|y b] H; simpl in H.
  - done.
  - pose proof (escape_html_char_nonempty y). by destruct (escape_html_char y).
  - pose proof (escape_html_char_nonempty x). by destruct (escape_html_char x).
  - apply escape_html_char_inj_app in H as [-> H]. f_equal. by apply IH.
Qed.

(** X2. The result of [escapeHtml] (and of [escapeAttr], which is the same
    function) holds none of the characters [<], [>], double quote and single
    quote, and an ampersand only as the start of one of the five entities it
    writes. *)
Theorem escapeHtml_no_markup (s : jsstring) :
  escapeAttr s = escapeHtml s
  ∧ Forall (fun c => code c ∉ [60; 62; 34; 39]) (escapeHtml s)
  ∧ (∀ pre post, escapeHtml s = pre ++ chr 38 :: post →
       ∃ tail, tail ∈ html_entity_tails ∧ tail `prefix_of` post).
Proof.
  split; [done|]. rewrite escapeHtml_chars. split.
  - induction s as [|c s IH]; simpl; [done|]. apply Forall_app. split; [|done].
    destruct (escape_html_char_cases c) as [[-> Hn]|(tail & -> & _ & Hf & _)].
    + apply Forall_singleton. rewrite !not_elem_of_cons in *. naive_solver.
    + apply Forall_cons. split; [by apply (bool_decide_unpack _); vm_compute|].
      eapply Forall_impl; [done|]. intros d. rewrite !not_elem_of_cons. naive_solver.
  - apply escape_html_entities.
Qed.

(** X3. [escapeHtml] loses nothing and works piece by piece: different
    strings have different escaped forms, and the escaped form of a
    concatenation is the concatenation of the escaped forms, so that a text
    put together from escaped parts is the escaped whole. *)
Theorem escapeHtml_injective (a b : jsstring) :
  (escapeHtml a = escapeHtml b ↔ a = b)
  ∧ escapeHtml (a ++ b) = escapeHtml a ++ escapeHtml b.
Proof.
  rewrite !escapeHtml_chars. split; [|apply flat_map_app_list].
  split; [apply escape_html_inj|by intros ->].
Qed.

(** ** Hex digests: [hmacHex] and [hashString] *)

Lemma hex_byte_shape (b : byte) :
  ∃ h l, padStart 2 (chr 48) (byte_toString16 b) = [h; l]
         ∧ is_lower_hex h = true ∧ is_lower_hex l = true
         ∧ hex2 h l = Some (byte_to_Z b).
Proof. destruct b; vm_compute; eexists _, _; done. Qed.

Lemma hex_of_bytes_cons (b : byte) (l : list byte) :
  hex_of_bytes (b :: l) = padStart 2 (chr 48) (byte_toString16 b) ++ hex_of_bytes l.
Proof. done. Qed.

Lemma hex_of_bytes_length (l : list byte) : length (hex_of_bytes l) = (2 * length l)%nat.
Proof.
  induction l as [|b l IH]; [done|]. rewrite hex_of_bytes_cons.
  destruct (hex_byte_shape b) as (h & x & -> & _). simpl. rewrite IH. lia.
Qed.

Lemma hex_of_bytes_lower_hex (l : list byte) :
  Forall (fun c => is_lower_hex c = true) (hex_of_bytes l).
Proof.
  induction l as [|b l IH]; [done|]. rewrite hex_of_bytes_cons.
  destruct (hex_byte_shape b) as (h & x & -> & Hh & Hx & _).
  by repeat constructor.
Qed.

Lemma byte_to_Z_inj (a b : byte) : byte_to_Z a = byte_to_Z b → a = b.
Proof.
  unfold byte_to_Z. intros H. apply N2Z.inj in H.
  pose proof (Byte.of_to_N a) as Ha. pose proof (Byte.of_to_N b) as Hb.
  rewrite H in Ha. rewrite Ha in Hb. by injection Hb.
Qed.

Lemma hex_of_bytes_inj (a b : list byte) : hex_of_bytes a = hex_of_bytes b → a = b.
Proof.
  revert b. induction a as [|x a IH]; intros [|y b]; rewrite ?hex_of_bytes_cons.
  - done.
  - destruct (hex_byte_shape y) as (h & l & -> & _). done.
  - destruct (hex_byte_shape x) as (h & l & -> & _). done.
  - destruct (hex_byte_shape x) as (h & l & -> & _ & _ & Hx).
    destruct (hex_byte_shape y) as (h' & l' & -> & _ & _ & Hy).
    intros H. injection H as -> -> H. rewrite Hx in Hy. injection Hy as Hy.
    f_equal; [by apply byte_to_Z_inj|by apply IH].
Qed.

Lemma digest_length (msg : list byte) : length (SHA256.digest msg) = 32%nat.
Proof. unfold SHA256.digest. by rewrite !length_app. Qed.

Lemma hmac_length (key msg : list byte) : length (SHA256.hmac key msg) = 32%nat.
Proof. with_strategy transparent [SHA256.hmac] (unfold SHA256.hmac). apply digest_length. Qed.

(** X4. For a secret that is not empty [hmacHex] computes one HMAC, over the
    UTF-8 bytes of the message under those of the secret, and returns 64
    characters, each a digit or a letter from [a] to [f]; two of its results
    are equal only if the two HMACs are. [hashString] returns a string of
    the same shape. *)
Theorem hex_digest_shape (secret message secret' message' : jsstring) :
  (secret ≠ [] →
     ∃ h, hmacHex secret message
          = (Normal h, [HmacSign (TextEncoder_encode secret) (TextEncoder_encode message)])
          ∧ h = hmac_sha256_hex secret message
          ∧ length h = 64%nat
          ∧ Forall (fun c => is_lower_hex c = true) h)
  ∧ (hmac_sha256_hex secret message = hmac_sha256_hex secret' message'
     ↔ SHA256.hmac (TextEncoder_encode secret) (TextEncoder_encode message)
       = SHA256.hmac (TextEncoder_encode secret') (TextEncoder_encode message'))
  ∧ length (hashString message) = 64%nat
  ∧ Forall (fun c => is_lower_hex c = true) (hashString message).
Proof.
  split; [|split; [|split]].
  - intros Hs. eexists. split; [by apply hmacHex_run|]. split; [done|].
    unfold hmac_sha256_hex. split; [|apply hex_of_bytes_lower_hex].
    by rewrite hex_of_bytes_length, hmac_length.
  - unfold hmac_sha256_hex. split; [apply hex_of_bytes_inj|by intros ->].
  - unfold hashString. by rewrite hex_of_bytes_length, digest_length.
  - apply hex_of_bytes_lower_hex.
Qed.

(** ** [getCookie], [b64urlDecodeToString], [getAccessEmail] and [isAdmin]
    (index.ts, lines 1404-1453) *)

(** [p.startsWith(prefix)] *)
Definition startsWith (p prefix : jsstring) : bool :=
  match strip_prefix prefix p with
  | Some _ => true
  | None => false
  end.

(** The first of the parts of the [Cookie] header, cut at [";"] and
    trimmed, that starts with the name and ["="]: what follows. *)
Definition getCookie (req : Request) (name : jsstring) : option jsstring :=
  let cookie := or_empty (headers_get req "Cookie") in
  let parts := trim <$> split (chr 59) cookie in
  (fun found => drop (length name + 1) found.2)
    <$> list_find (fun p => startsWith p (name ++ js "=") = true) parts.

Definition b64urlDecodeToString (b64url : jsstring) : completion jsstring :=
  let b64 := replace_char 95 47 (replace_char 45 43 b64url)
             ++ drop ((length b64url + 3) mod 4) (js "===") in
  atob b64.

(** [a || b] for two strings that may be [null] *)
Definition or_string (a b : option jsstring) : option jsstring :=
  match a with
  | Some (c :: s) => a
  | _ => b
  end.

Section Access.

Variable toLowerCase : jsstring → jsstring.

(** The e-mail address of the caller: the header that Cloudflare Access
    sets, or else the [email] of the payload of the [CF_Authorization]
    cookie. *)
Definition getAccessEmail (req : Request) : option jsstring :=
  let h := or_string (headers_get req "cf-access-authenticated-user-email")
                     (headers_get req "Cf-Access-Authenticated-User-Email") in
  match h with
  | Some (c :: s) => Some (toLowerCase (trim (c :: s)))
  | _ =>
      match getCookie req (js "CF_Authorization") with
      | Some (c :: s) =>
          match split (chr 46) (c :: s) with
          | _ :: part1 :: _ =>
              let email :=
                payload ← b64urlDecodeToString part1 ≫= JSON_parse;
                text ← ToString (or_else (Get payload (js "email")) (JString []));
                mret (toLowerCase (trim text)) in
              match email with
              | Normal (c :: e) => Some (c :: e)
              | _ => None
              end
          | _ => None
          end
      | _ => None
      end
  end.

(** [env.ADMIN_EMAIL] is given as [admin_email]. *)
Definition isAdmin (req : Request) (admin_email : option jsstring) : bool :=
  match getAccessEmail req with
  | Some (c :: e) =>
      let raw := trim (toLowerCase (or_empty admin_email)) in
      if negb (truthy_string raw) then false
      else
        let allowed := filter (fun s => truthy_string s = true) (trim <$> split (chr 44) raw) in
        bool_decide (c :: e ∈ allowed)
  | _ => false
  end.

End Access.

(** ** Base64: [btoa], [atob] and the URL-safe form *)

(** A property decided on every integer of a range holds on the range. *)
Lemma forall_range (P : Z → Prop) `{!∀ z, Decision (P z)} (n : Z) :
  bool_decide (Forall P (seqZ 0 n)) = true → ∀ z, 0 <= z < n → P z.
Proof.
  intros Hall z Hz. apply bool_decide_eq_true in Hall. rewrite Forall_forall in Hall.
  apply Hall, elem_of_seqZ. lia.
Qed.

Lemma base64_value_char (v : Z) : 0 <= v < 64 → base64_value (base64_char v) = Some v.
Proof. apply (forall_range (fun v => base64_value (base64_char v) = Some v)). by vm_compute. Qed.

(** What the two replacements of [base64urlEncode], and the two of the
    decoders, do to one character. *)
Definition to_url_char (c : char16) : char16 :=
  (fun u => if code u =? 47 then chr 95 else u) (if code c =? 43 then chr 45 else c).

Definition of_url_char (c : char16) : char16 :=
  (fun d => if code d =? 95 then chr 47 else d) (if code c =? 45 then chr 43 else c).

Definition is_url_safe (c : char16) : bool := is_alnum c || (code c =? 45) || (code c =? 95).

(** No character of the alphabet is ["="], white space or a dot, its
    URL-safe form is a letter, a digit, ["-"] or ["_"], and the decoders
    bring it back. *)
Lemma base64_char_plain (v : Z) :
  0 <= v < 64 →
  code (base64_char v) ≠ 61
  ∧ is_ascii_whitespace (base64_char v) = false
  ∧ code (to_url_char (base64_char v)) ≠ 61
  ∧ is_url_safe (to_url_char (base64_char v)) = true
  ∧ of_url_char (to_url_char (base64_char v)) = base64_char v.
Proof.
  apply (forall_range (fun v =>
    code (base64_char v) ≠ 61
    ∧ is_ascii_whitespace (base64_char v) = false
    ∧ code (to_url_char (base64_char v)) ≠ 61
    ∧ is_url_safe (to_url_char (base64_char v)) = true
    ∧ of_url_char (to_url_char (base64_char v)) = base64_char v)).
  by vm_compute.
Qed.

Lemma list_ind3 {A} (P : list A → Prop) :
  P [] → (∀ a, P [a]) → (∀ a b, P [a; b]) →
  (∀ a b c r, P r → P (a :: b :: c :: r)) → ∀ l, P l.
Proof.
  intros H0 H1 H2 H3 l.
  assert (P l ∧ (∀ a, P (a :: l)) ∧ (∀ a b, P (a :: b :: l))) as [? _]; [|done].
  induction l as [|x l (IH0 & IH1 & IH2)]; [done|].
  split; [apply IH1|]. split; [intros a; apply IH2|]. intros a b. by apply H3.
Qed.

(** The shape of the result of [btoa]: characters of the alphabet for the
    6-bit groups, then padding up to a multiple of four. *)
Lemma base64_encode_spec (bytes : list Z) :
  Forall (fun b => 0 <= b < 256) bytes →
  ∃ (vs : list Z) (k : nat),
    base64_encode bytes = (base64_char <$> vs) ++ repeat (chr 61) k
    ∧ Forall (fun v => 0 <= v < 64) vs
    ∧ base64_decode vs = bytes
    ∧ (length vs mod 4 = 0 ∧ k = 0 ∨ length vs mod 4 = 2 ∧ k = 2
       ∨ length vs mod 4 = 3 ∧ k = 1)%nat
    ∧ (bytes ≠ [] → vs ≠ []).
Proof.
  induction bytes as [|a|a b|a b c r IH] using list_ind3; intros Hb.
  - exists [], 0%nat. repeat split; try done. by left.
  - apply Forall_cons in Hb as [Ha _].
    exists [a / 4; a mod 4 * 16], 2%nat. split; [done|].
    split; [repeat constructor; Z.div_mod_to_equations; lia|].
    split; [simpl; f_equal; Z.div_mod_to_equations; lia|].
    split; [right; left; done|done].
  - apply Forall_cons in Hb as [Ha Hb]. apply Forall_cons in Hb as [Hb _].
    exists [a / 4; a mod 4 * 16 + b / 16; b mod 16 * 4], 1%nat. split; [done|].
    split; [repeat constructor; Z.div_mod_to_equations; lia|].
    split; [simpl; f_equal; [|f_equal]; Z.div_mod_to_equations; lia|].
    split; [right; right; done|done].
  - apply Forall_cons in Hb as [Ha Hb]. apply Forall_cons in Hb as [Hb Hc].
    apply Forall_cons in Hc as [Hc Hr].
    destruct (IH Hr) as (vs & k & He & Hv & Hd & Hk & _).
    exists (a / 4 :: a mod 4 * 16 + b / 16 :: b mod 16 * 4 + c / 64 :: c mod 64 :: vs), k.
    split; [simpl; by rewrite He|].
    split; [repeat (apply Forall_cons; split); try done; Z.div_mod_to_equations; lia|].
    split.
    { cbn [base64_decode]. rewrite Hd. f_equal; [|f_equal; [|f_equal]];
        Z.div_mod_to_equations; lia. }
    split; [|done]. cbn [length].
    replace (S (S (S (S (length vs))))) with (length vs + 1 * 4)%nat by lia.
    by rewrite Nat.Div0.mod_add.
Qed.

Lemma replace_to_url (s : jsstring) :
  replace_char 47 95 (replace_char 43 45 s) = to_url_char <$> s.
Proof. unfold replace_char. by rewrite <- list_fmap_compose. Qed.

Lemma replace_of_url (s : jsstring) :
  replace_char 95 47 (replace_char 45 43 s) = of_url_char <$> s.
Proof. unfold replace_char. by rewrite <- list_fmap_compose. Qed.

Lemma rev_repeat_equals (k : nat) (x : jsstring) :
  rev (x ++ repeat (chr 61) k) = repeat (chr 61) k ++ rev x.
Proof. by rewrite rev_app_distr, rev_repeat. Qed.

Lemma drop_equals_repeat (k : nat) (l : jsstring) :
  drop_equals (repeat (chr 61) k ++ l) = drop_equals l.
Proof. induction k as [|k IH]; [done|]. simpl. by rewrite IH. Qed.

Lemma drop_equals_plain (l : jsstring) :
  Forall (fun c => code c ≠ 61) l → drop_equals l = l.
Proof.
  destruct 1 as [|c l Hc _]; [done|]. simpl.
  by destruct (Z.eqb_spec (code c) 61).
Qed.

Lemma strip_trailing_equals_padding (k : nat) (x : jsstring) :
  Forall (fun c => code c ≠ 61) x →
  strip_trailing_equals (x ++ repeat (chr 61) k) = x.
Proof.
  intros Hx. unfold strip_trailing_equals.
  rewrite rev_repeat_equals, drop_equals_repeat, drop_equals_plain, rev_involutive; [done|].
  by apply Forall_rev.
Qed.

Lemma strip_padding_spec (k : nat) (x : jsstring) :
  Forall (fun c => code c ≠ 61) x →
  (k = 0 ∨ (k = 1 ∧ x ≠ []) ∨ k = 2)%nat →
  strip_padding (x ++ repeat (chr 61) k) = x.
Proof.
  intros Hx Hk. unfold strip_padding. rewrite rev_repeat_equals.
  assert (Hr : Forall (fun c => code c ≠ 61) (rev x)) by by apply Forall_rev.
  destruct Hk as [->|[[-> Hne]| ->]]; cbn [repeat app].
  - rewrite app_nil_r. destruct (rev x) as [|p [|q r]] eqn:E; [done| |].
    + apply Forall_cons in Hr as [Hp _]. by destruct (Z.eqb_spec (code p) 61).
    + apply Forall_cons in Hr as [Hp _]. by destruct (Z.eqb_spec (code p) 61).
  - destruct (rev x) as [|q r] eqn:E.
    { apply (f_equal (@rev _)) in E. rewrite rev_involutive in E. done. }
    apply Forall_cons in Hr as [Hq _]. change (code (chr 61) =? 61) with true.
    cbn match. destruct (Z.eqb_spec (code q) 61); [done|].
    by rewrite <- E, rev_involutive.
  - change (code (chr 61) =? 61) with true. cbn match. apply rev_involutive.
Qed.

Lemma filter_all {A} (P : A → Prop) `{!∀ x, Decision (P x)} (l : list A) :
  Forall P l → filter P l = l.
Proof.
  induction 1 as [|x l Hx _ IH]; [done|]. by rewrite filter_cons_True, IH.
Qed.

(** [atob] on what [btoa] gave, and on its URL-safe form once the decoders
    have put the alphabet and the padding back. *)
Lemma atob_padded (bytes vs : list Z) (k : nat) :
  Forall (fun v => 0 <= v < 64) vs →
  base64_decode vs = bytes →
  (length vs mod 4 = 0 ∧ k = 0 ∨ length vs mod 4 = 2 ∧ k = 2
   ∨ length vs mod 4 = 3 ∧ k = 1)%nat →
  atob ((base64_char <$> vs) ++ repeat (chr 61) k) = Normal (chr <$> bytes).
Proof.
  intros Hv Hd Hk. unfold atob.
  assert (Hplain : Forall (fun c => code c ≠ 61) (base64_char <$> vs)).
  { apply Forall_fmap. eapply Forall_impl; [done|]. intros v Hr. by apply base64_char_plain. }
  rewrite filter_all.
  2:{ apply Forall_app. split.
      - apply Forall_fmap. eapply Forall_impl; [done|]. intros v Hr. simpl.
        destruct (base64_char_plain v Hr) as (_ & -> & _). done.
      - apply Forall_forall. intros c Hc%list_elem_of_In%repeat_spec. by subst c. }
  assert (Hlen : (length ((base64_char <$> vs) ++ repeat (chr 61) k) mod 4 =? 0)%nat = true).
  { rewrite length_app, length_fmap, repeat_length. apply Nat.eqb_eq.
    destruct Hk as [[H ->]|[[H ->]|[H ->]]].
    - by rewrite Nat.add_0_r.
    - rewrite <- Nat.Div0.add_mod_idemp_l, H. done.
    - rewrite <- Nat.Div0.add_mod_idemp_l, H. done. }
  rewrite Hlen. rewrite strip_padding_spec; [|done|].
  2:{ destruct Hk as [[H ->]|[[H ->]|[H ->]]]; [by left|by right; right|right; left].
      split; [done|]. intros E. apply fmap_nil_inv in E. by subst vs. }
  rewrite length_fmap.
  destruct (Nat.eqb_spec (length vs mod 4) 1) as [E|_].
  { exfalso. destruct Hk as [[H _]|[[H _]|[H _]]]; lia. }
  rewrite (mapM_fmap_Forall_Some base64_value base64_char vs).
  - by rewrite Hd.
  - eapply Forall_impl; [done|]. intros v Hr. by apply base64_value_char.
Qed.

(** ** Well-formed strings and binary strings *)

(** [s.isWellFormed()]: every surrogate of [s] is half of a pair. *)
Fixpoint well_formed (s : jsstring) : bool :=
  match s with
  | [] => true
  | c :: r =>
      if is_high_surrogate c then
        match r with
        | d :: r' => is_low_surrogate d && well_formed r'
        | [] => false
        end
      else negb (is_low_surrogate c) && well_formed r
  end.

(** The string that has one character for every byte, as [atob] returns it
    and [btoa] takes it. *)
Definition binary_string (bytes : list byte) : jsstring :=
  (fun b => chr (byte_to_Z b)) <$> bytes.

(** ** The URI coding functions as UTF-8 coders *)

Lemma byte_to_Z_range (b : byte) : 0 <= byte_to_Z b < 256.
Proof. unfold byte_to_Z. pose proof (Byte.to_N_bounded b). lia. Qed.

Lemma byte_to_of_Z (z : Z) : 0 <= z < 256 → byte_to_Z (byte_of_Z z) = z.
Proof.
  intros Hz. unfold byte_to_Z, byte_of_Z. rewrite Z.mod_small by done.
  destruct (Byte.of_N (Z.to_N z)) as [b|] eqn:E.
  - apply Byte.to_of_N in E. rewrite E. lia.
  - apply Byte.of_N_None_iff in E. lia.
Qed.

Lemma byte_of_to_Z (b : byte) : byte_of_Z (byte_to_Z b) = b.
Proof. apply byte_to_Z_inj, byte_to_of_Z, byte_to_Z_range. Qed.

Lemma percent_octet_spec (b : byte) :
  ∃ h l, percent_octet b = [chr 37; h; l] ∧ code h ≠ 117 ∧ hex2 h l = Some (byte_to_Z b).
Proof. destruct b; vm_compute; eexists _, _; done. Qed.

Lemma unescape_percent (bs : list byte) (rest : jsstring) :
  unescape (flat_map percent_octet bs ++ rest) = binary_string bs ++ unescape rest.
Proof.
  induction bs as [|b bs IH]; [done|]. cbn [flat_map binary_string fmap list_fmap].
  destruct (percent_octet_spec b) as (h & l & -> & Hh & Hx).
  cbn [app unescape]. change (code (chr 37) =? 37) with true. cbn match.
  destruct (Z.eqb_spec (code h) 117) as [?|_]; [done|].
  rewrite Hx. cbn [app]. f_equal. apply IH.
Qed.

(** Membership in a set given as a literal, on character codes. *)
Lemma one_of_codes (set : string) (c : char16) :
  one_of set c = bool_decide (code c ∈ code <$> js set).
Proof.
  unfold one_of. induction (js set) as [|d l IH]; [done|]. cbn [existsb fmap list_fmap].
  rewrite IH. unfold char16_eqb.
  destruct (Z.eqb_spec (code c) (code d)) as [E|E]; cbn [orb].
  - symmetry. apply bool_decide_eq_true. rewrite E. apply list_elem_of_here.
  - apply bool_decide_ext. rewrite elem_of_cons. naive_solver.
Qed.

Ltac codes_in H :=
  rewrite ?one_of_codes in H;
  repeat match type of H with
         | context [code <$> js ?s] =>
             let l := eval vm_compute in (code <$> js s) in
             change (code <$> js s) with l in H
         end.

Ltac bool_to_Z H :=
  rewrite ?orb_true_iff, ?andb_true_iff, ?negb_true_iff, ?orb_false_iff, ?andb_false_iff,
    ?bool_decide_eq_true, ?bool_decide_eq_false, ?elem_of_cons, ?not_elem_of_cons,
    ?elem_of_nil, ?Z.leb_le, ?Z.ltb_lt, ?Z.eqb_eq, ?Z.leb_gt, ?Z.ltb_ge, ?Z.eqb_neq in H.

Lemma uri_unescaped_ascii (c : char16) :
  uri_unescaped c = true → code c ≠ 37 ∧ code c < 128.
Proof.
  intros H. unfold uri_unescaped, is_alnum, is_digit, is_upper, is_lower in H.
  codes_in H. bool_to_Z H. lia.
Qed.

Lemma unescaped_not_surrogate (c : char16) :
  uri_unescaped c = true → is_high_surrogate c = false ∧ is_low_surrogate c = false.
Proof.
  intros [_ H]%uri_unescaped_ascii. unfold is_high_surrogate, is_low_surrogate.
  split; apply andb_false_iff; left; apply Z.leb_gt; lia.
Qed.

Lemma binary_string_app (a b : list byte) :
  binary_string (a ++ b) = binary_string a ++ binary_string b.
Proof. apply fmap_app. Qed.

Lemma TextEncoder_encode_plain (c : char16) (r : jsstring) :
  is_high_surrogate c = false → is_low_surrogate c = false →
  TextEncoder_encode (c :: r) = utf8_of_code_point (code c) ++ TextEncoder_encode r.
Proof. intros Hh Hl. unfold TextEncoder_encode. cbn [code_points_replacing]. by rewrite Hh, Hl. Qed.

Lemma TextEncoder_encode_pair (c d : char16) (r : jsstring) :
  is_high_surrogate c = true → is_low_surrogate d = true →
  TextEncoder_encode (c :: d :: r)
  = utf8_of_code_point (pair_code_point c d) ++ TextEncoder_encode r.
Proof. intros Hh Hl. unfold TextEncoder_encode. cbn [code_points_replacing]. by rewrite Hh, Hl. Qed.

(** On a well-formed string, [unescape(encodeURIComponent(s))] is the string
    of the UTF-8 bytes of [s]. *)
Lemma encodeURIComponent_unescape (s : jsstring) :
  well_formed s = true →
  ∃ e, encodeURIComponent s = Normal e
       ∧ unescape e = binary_string (TextEncoder_encode s).
Proof.
  remember (length s) as n eqn:Hn. assert (Hle : (length s <= n)%nat) by lia. clear Hn.
  revert s Hle. induction n as [|n IH]; intros [|c r] Hle Hw; try (simpl in Hle; lia).
  - by exists [].
  - by exists [].
  - cbn [encodeURIComponent well_formed] in *. simpl in Hle.
    destruct (uri_unescaped c) eqn:Hu.
    { destruct (unescaped_not_surrogate c Hu) as [Hh Hl]. rewrite Hh, Hl in Hw.
      destruct (IH r ltac:(lia) Hw) as (e & -> & He).
      exists (c :: e). split; [done|].
      destruct (uri_unescaped_ascii c Hu) as [H37 H128]. pose proof (code_range c).
      cbn [unescape]. destruct (Z.eqb_spec (code c) 37) as [?|_]; [done|].
      rewrite He, TextEncoder_encode_plain by done.
      unfold utf8_of_code_point. destruct (Z.ltb_spec (code c) 128); [|lia].
      cbn [app binary_string fmap list_fmap]. rewrite byte_to_of_Z by lia.
      by rewrite chr_code. }
    destruct (is_high_surrogate c) eqn:Hh.
    { destruct r as [|d r']; [done|]. destruct (is_low_surrogate d) eqn:Hl; [|done].
      simpl in Hle. destruct (IH r' ltac:(lia) Hw) as (e & -> & He).
      eexists. split; [done|].
      by rewrite unescape_percent, He, TextEncoder_encode_pair, binary_string_app. }
    destruct (is_low_surrogate c) eqn:Hl; [done|].
    destruct (IH r ltac:(lia) Hw) as (e & -> & He).
    eexists. split; [done|].
    by rewrite unescape_percent, He, TextEncoder_encode_plain, binary_string_app.
Qed.

(** A string with a surrogate that has no partner makes [encodeURIComponent]
    throw. *)
Lemma encodeURIComponent_ill_formed (s : jsstring) :
  well_formed s = false → encodeURIComponent s = Throw URIError.
Proof.
  remember (length s) as n eqn:Hn. assert (Hle : (length s <= n)%nat) by lia. clear Hn.
  revert s Hle. induction n as [|n IH]; intros [|c r] Hle Hw; try (simpl in Hle; lia);
    try done.
  cbn [encodeURIComponent well_formed] in *. simpl in Hle.
  destruct (uri_unescaped c) eqn:Hu.
  { destruct (unescaped_not_surrogate c Hu) as [Hh Hl]. rewrite Hh, Hl in Hw.
    by rewrite (IH r ltac:(lia) Hw). }
  destruct (is_high_surrogate c) eqn:Hh.
  { destruct r as [|d r']; [done|]. destruct (is_low_surrogate d) eqn:Hl; [|done].
    simpl in Hle. by rewrite (IH r' ltac:(lia) Hw). }
  destruct (is_low_surrogate c) eqn:Hl; [done|].
  by rewrite (IH r ltac:(lia) Hw).
Qed.

(** *** Decoding *)

(** What [escape] writes for the character of one byte. *)
Definition escape_byte (b : byte) : jsstring :=
  if escape_unescaped (chr (byte_to_Z b)) then [chr (byte_to_Z b)] else percent_octet b.

Lemma escape_binary_string (bs : list byte) :
  escape (binary_string bs) = flat_map escape_byte bs.
Proof.
  unfold escape, binary_string. induction bs as [|b bs IH]; [done|].
  cbn [fmap list_fmap flat_map]. fold (fmap (M := list) (fun b => chr (byte_to_Z b)) bs).
  rewrite IH. f_equal. unfold escape_byte.
  destruct (escape_unescaped _); [done|].
  pose proof (byte_to_Z_range b). rewrite code_chr, Z.mod_small by lia.
  destruct (Z.ltb_spec (byte_to_Z b) 256); [done|lia].
Qed.

Lemma escape_byte_spec (b : byte) :
  (escape_byte b = [chr (byte_to_Z b)] ∧ byte_to_Z b < 128 ∧ byte_to_Z b ≠ 37)
  ∨ (∃ h l, escape_byte b = [chr 37; h; l] ∧ hex2 h l = Some (byte_to_Z b)).
Proof. destruct b; vm_compute; first [left; done | right; eexists _, _; done]. Qed.

Lemma escape_byte_high (z : Z) :
  128 <= z < 256 →
  ∃ h l, escape_byte (byte_of_Z z) = [chr 37; h; l] ∧ hex2 h l = Some z.
Proof.
  intros Hz. destruct (escape_byte_spec (byte_of_Z z)) as [[_ [H _]]|(h & l & H1 & H2)].
  - rewrite byte_to_of_Z in H by lia. lia.
  - rewrite byte_to_of_Z in H2 by lia. by exists h, l.
Qed.

Lemma fmap_cons_app (c : char16) (m : completion jsstring) :
  cons c <$> m = app [c] <$> m.
Proof. by destruct m. Qed.

Lemma decode_loop_plain (fuel : nat) (c : char16) (rest : jsstring) :
  code c ≠ 37 → decode_loop (S fuel) (c :: rest) = cons c <$> decode_loop fuel rest.
Proof. intros H. cbn [decode_loop]. by destruct (Z.eqb_spec (code c) 37). Qed.

Lemma decode_loop_percent (fuel : nat) (h l : char16) (rest : jsstring) (b : Z) :
  hex2 h l = Some b →
  decode_loop (S fuel) (chr 37 :: h :: l :: rest)
  = match leading_ones b with
    | O => cons (chr b) <$> decode_loop fuel rest
    | S O => Throw URIError
    | S n' =>
        if (4 <? S n')%nat then Throw URIError
        else
          match continuation_octets n' rest with
          | None => Throw URIError
          | Some (bs, r') =>
              match utf8_code_point (b :: bs) with
              | None => Throw URIError
              | Some v => app (UTF16EncodeCodePoint v) <$> decode_loop fuel r'
              end
          end
    end.
Proof. intros H. cbn [decode_loop]. change (code (chr 37) =? 37) with true. by rewrite H. Qed.

Lemma continuation_octets_step (n : nat) (h l : char16) (rest : jsstring) (b : Z) :
  hex2 h l = Some b →
  continuation_octets (S n) (chr 37 :: h :: l :: rest)
  = '(bs, r') ← continuation_octets n rest; Some (b :: bs, r').
Proof.
  intros H. cbn [continuation_octets]. change (code (chr 37) =? 37) with true.
  by rewrite H.
Qed.

(** A Unicode scalar value: a code point that is no surrogate. *)
Definition scalar_value (cp : Z) : Prop :=
  0 <= cp < 1114112 ∧ ¬ (55296 <= cp <= 57343).

Lemma decode_loop_code_point (fuel : nat) (cp : Z) (rest : jsstring) :
  scalar_value cp →
  decode_loop (S fuel) (flat_map escape_byte (utf8_of_code_point cp) ++ rest)
  = app (UTF16EncodeCodePoint cp) <$> decode_loop fuel rest.
Proof.
  intros [Hr Hs]. unfold utf8_of_code_point.
  destruct (Z.ltb_spec cp 128) as [H1|H1].
  { cbn [flat_map]. rewrite app_nil_r.
    destruct (escape_byte_spec (byte_of_Z cp)) as [[-> [_ H37]]|(h & l & -> & Hx)];
      rewrite byte_to_of_Z in * by lia.
    - cbn [app]. rewrite decode_loop_plain by (rewrite code_chr, Z.mod_small; lia).
      unfold UTF16EncodeCodePoint. destruct (Z.ltb_spec cp 65536); [|lia].
      apply fmap_cons_app.
    - cbn [app]. rewrite (decode_loop_percent _ _ _ _ cp) by done.
      unfold leading_ones. destruct (Z.ltb_spec cp 128); [|lia].
      unfold UTF16EncodeCodePoint. destruct (Z.ltb_spec cp 65536); [|lia].
      apply fmap_cons_app. }
  destruct (Z.ltb_spec cp 2048) as [H2|H2].
  { destruct (escape_byte_high (192 + cp / 64)) as (h0 & l0 & E0 & Hx0);
      [Z.div_mod_to_equations; lia|].
    destruct (escape_byte_high (128 + cp mod 64)) as (h1 & l1 & E1 & Hx1);
      [Z.div_mod_to_equations; lia|].
    cbn [flat_map]. rewrite E0, E1, app_nil_r. cbn [app].
    rewrite (decode_loop_percent _ _ _ _ _ Hx0).
    assert (leading_ones (192 + cp / 64) = 2%nat) as ->.
    { unfold leading_ones. repeat case_match; try done;
        repeat match goal with H : _ = true |- _ => bool_to_Z H | H : _ = false |- _ => bool_to_Z H end;
        Z.div_mod_to_equations; lia. }
    cbn [Nat.ltb Nat.leb].
    rewrite (continuation_octets_step _ _ _ _ _ Hx1). cbn [continuation_octets mbind option_bind].
    assert (utf8_code_point [192 + cp / 64; 128 + cp mod 64] = Some cp) as ->; [|done].
    unfold utf8_code_point. case_match eqn:E.
    - f_equal. Z.div_mod_to_equations; lia.
    - exfalso. bool_to_Z E. Z.div_mod_to_equations; lia. }
  destruct (Z.ltb_spec cp 65536) as [H3|H3].
  { destruct (escape_byte_high (224 + cp / 4096)) as (h0 & l0 & E0 & Hx0);
      [Z.div_mod_to_equations; lia|].
    destruct (escape_byte_high (128 + cp / 64 mod 64)) as (h1 & l1 & E1 & Hx1);
      [Z.div_mod_to_equations; lia|].
    destruct (escape_byte_high (128 + cp mod 64)) as (h2 & l2 & E2 & Hx2);
      [Z.div_mod_to_equations; lia|].
    cbn [flat_map]. rewrite E0, E1, E2, app_nil_r. cbn [app].
    rewrite (decode_loop_percent _ _ _ _ _ Hx0).
    assert (leading_ones (224 + cp / 4096) = 3%nat) as ->.
    { unfold leading_ones. repeat case_match; try done;
        repeat match goal with H : _ = true |- _ => bool_to_Z H | H : _ = false |- _ => bool_to_Z H end;
        Z.div_mod_to_equations; lia. }
    cbn [Nat.ltb Nat.leb].
    rewrite (continuation_octets_step _ _ _ _ _ Hx1). 
    rewrite (continuation_octets_step _ _ _ _ _ Hx2).
    cbn [continuation_octets mbind option_bind].
    assert (utf8_code_point [224 + cp / 4096; 128 + cp / 64 mod 64; 128 + cp mod 64]
            = Some cp) as ->; [|done].
    unfold utf8_code_point. case_match eqn:E.
    - f_equal. Z.div_mod_to_equations; lia.
    - exfalso. bool_to_Z E. Z.div_mod_to_equations; lia. }
  destruct (escape_byte_high (240 + cp / 262144)) as (h0 & l0 & E0 & Hx0);
    [Z.div_mod_to_equations; lia|].
  destruct (escape_byte_high (128 + cp / 4096 mod 64)) as (h1 & l1 & E1 & Hx1);
    [Z.div_mod_to_equations; lia|].
  destruct (escape_byte_high (128 + cp / 64 mod 64)) as (h2 & l2 & E2 & Hx2);
    [Z.div_mod_to_equations; lia|].
  destruct (escape_byte_high (128 + cp mod 64)) as (h3 & l3 & E3 & Hx3);
    [Z.div_mod_to_equations; lia|].
  cbn [flat_map]. rewrite E0, E1, E2, E3, app_nil_r. cbn [app].
  rewrite (decode_loop_percent _ _ _ _ _ Hx0).
  assert (leading_ones (240 + cp / 262144) = 4%nat) as ->.
  { unfold leading_ones. repeat case_match; try done;
      repeat match goal with H : _ = true |- _ => bool_to_Z H | H : _ = false |- _ => bool_to_Z H end;
      Z.div_mod_to_equations; lia. }
  cbn [Nat.ltb Nat.leb].
  rewrite (continuation_octets_step _ _ _ _ _ Hx1). 
  rewrite (continuation_octets_step _ _ _ _ _ Hx2).
  rewrite (continuation_octets_step _ _ _ _ _ Hx3).
  cbn [continuation_octets mbind option_bind].
  assert (utf8_code_point [240 + cp / 262144; 128 + cp / 4096 mod 64;
                           128 + cp / 64 mod 64; 128 + cp mod 64] = Some cp) as ->; [|done].
  unfold utf8_code_point. case_match eqn:E.
  - f_equal. Z.div_mod_to_equations; lia.
  - exfalso. bool_to_Z E. Z.div_mod_to_equations; lia.
Qed.

Lemma escape_byte_nonempty (b : byte) : escape_byte b ≠ [].
Proof. destruct (escape_byte_spec b) as [[-> _]|(h & l & -> & _)]; done. Qed.

Lemma escaped_code_point_length (cp : Z) :
  (1 <= length (flat_map escape_byte (utf8_of_code_point cp)))%nat.
Proof.
  pose proof (utf8_of_code_point_nonempty cp) as H.
  destruct (utf8_of_code_point cp) as [|b bs]; [done|]. cbn [flat_map].
  pose proof (escape_byte_nonempty b). rewrite length_app.
  destruct (escape_byte b); [done|]. simpl. lia.
Qed.

Lemma decode_loop_code_points (cps : list Z) (fuel : nat) :
  Forall scalar_value cps →
  (length (flat_map (fun cp => flat_map escape_byte (utf8_of_code_point cp)) cps) <= fuel)%nat →
  decode_loop fuel (flat_map (fun cp => flat_map escape_byte (utf8_of_code_point cp)) cps)
  = Normal (flat_map UTF16EncodeCodePoint cps).
Proof.
  intros Hs. revert fuel. induction Hs as [|cp cps Hcp _ IH]; intros fuel Hf.
  { by destruct fuel. }
  cbn [flat_map] in *. rewrite length_app in Hf.
  pose proof (escaped_code_point_length cp).
  destruct fuel as [|fuel]; [lia|].
  rewrite decode_loop_code_point by done. rewrite IH by lia. done.
Qed.

Lemma code_points_well_formed (s : jsstring) :
  well_formed s = true →
  Forall scalar_value (code_points_replacing s)
  ∧ flat_map UTF16EncodeCodePoint (code_points_replacing s) = s.
Proof.
  remember (length s) as n eqn:Hn. assert (Hle : (length s <= n)%nat) by lia. clear Hn.
  revert s Hle. induction n as [|n IH]; intros [|c r] Hle Hw; try (simpl in Hle; lia);
    try done.
  cbn [well_formed code_points_replacing] in *. simpl in Hle.
  pose proof (code_range c) as Hc.
  destruct (is_high_surrogate c) eqn:Hh.
  - destruct r as [|d r']; [done|]. apply andb_true_iff in Hw as [Hl Hw].
    rewrite Hl. simpl in Hle. destruct (IH r' ltac:(lia) Hw) as [IH1 IH2].
    pose proof (code_range d) as Hd.
    unfold is_high_surrogate in Hh. unfold is_low_surrogate in Hl.
    bool_to_Z Hh. bool_to_Z Hl.
    split.
    + constructor; [|done]. unfold scalar_value, pair_code_point. lia.
    + cbn [flat_map]. rewrite IH2. unfold UTF16EncodeCodePoint, pair_code_point.
      destruct (Z.ltb_spec (65536 + (code c - 55296) * 1024 + (code d - 56320)) 65536);
        [lia|].
      cbn [app]. f_equal; [|f_equal].
      * apply char16_eq. rewrite code_chr, Z.mod_small; Z.div_mod_to_equations; lia.
      * apply char16_eq. rewrite code_chr, Z.mod_small; Z.div_mod_to_equations; lia.
  - apply andb_true_iff in Hw as [Hl Hw]. apply negb_true_iff in Hl. rewrite Hl.
    destruct (IH r ltac:(lia) Hw) as [IH1 IH2].
    unfold is_high_surrogate in Hh. unfold is_low_surrogate in Hl.
    bool_to_Z Hh. bool_to_Z Hl.
    split.
    + constructor; [|done]. unfold scalar_value. lia.
    + cbn [flat_map]. rewrite IH2. unfold UTF16EncodeCodePoint.
      destruct (Z.ltb_spec (code c) 65536); [|lia]. cbn [app]. by rewrite chr_code.
Qed.

Lemma flat_map_flat_map {A B C} (f : A → list B) (g : B → list C) (l : list A) :
  flat_map g (flat_map f l) = flat_map (fun x => flat_map g (f x)) l.
Proof.
  induction l as [|x l IH]; [done|]. cbn [flat_map]. by rewrite flat_map_app_list, IH.
Qed.

(** On the string of the UTF-8 bytes of a well-formed string,
    [decodeURIComponent(escape(bin))] gives that string back. *)
Lemma decodeURIComponent_escape (s : jsstring) :
  well_formed s = true →
  decodeURIComponent (escape (binary_string (TextEncoder_encode s))) = Normal s.
Proof.
  intros Hw. destruct (code_points_well_formed s Hw) as [Hs Hu].
  unfold decodeURIComponent. rewrite escape_binary_string. unfold TextEncoder_encode.
  rewrite flat_map_flat_map, decode_loop_code_points by done. by rewrite Hu.
Qed.

Lemma binary_string_codes (bs : list byte) :
  Forall (fun b => 0 <= b < 256) (code <$> binary_string bs)
  ∧ forallb (fun c => code c <? 256) (binary_string bs) = true
  ∧ chr <$> (code <$> binary_string bs) = binary_string bs.
Proof.
  split; [|split].
  - unfold binary_string. rewrite <- list_fmap_compose. apply Forall_fmap, Forall_forall.
    intros b _. simpl. pose proof (byte_to_Z_range b). rewrite code_chr, Z.mod_small; lia.
  - apply forallb_forall. intros c Hc%list_elem_of_In%list_elem_of_fmap.
    destruct Hc as (b & -> & _). pose proof (byte_to_Z_range b).
    rewrite code_chr, Z.mod_small by lia. apply Z.ltb_lt. lia.
  - rewrite <- list_fmap_compose. rewrite <- (list_fmap_id (binary_string bs)) at 2.
    apply list_fmap_ext. intros i c _. simpl. apply chr_code.
Qed.

(** ** [base64urlEncode], [base64urlDecode] and [b64urlDecodeToString] *)

Lemma fmap_repeat_char (f : char16 → char16) (c : char16) (k : nat) :
  f <$> repeat c k = repeat (f c) k.
Proof. induction k as [|k IH]; [done|]. simpl. by rewrite <- IH. Qed.

Lemma padding_of_length (n k : nat) :
  (n mod 4 = 0 ∧ k = 0 ∨ n mod 4 = 2 ∧ k = 2 ∨ n mod 4 = 3 ∧ k = 1)%nat →
  drop ((n + 3) mod 4) (js "===") = repeat (chr 61) k.
Proof.
  intros [[H ->]|[[H ->]|[H ->]]]; rewrite <- Nat.Div0.add_mod_idemp_l, H; done.
Qed.

(** The URL-safe form of the base64 encoding of some bytes, and what the
    decoders make of it. *)
Lemma base64url_form (bytes : list Z) :
  Forall (fun b => 0 <= b < 256) bytes →
  ∃ u, strip_trailing_equals (replace_char 47 95 (replace_char 43 45 (base64_encode bytes))) = u
       ∧ Forall (fun c => is_url_safe c = true) u
       ∧ (bytes ≠ [] → u ≠ [])
       ∧ atob (replace_char 95 47 (replace_char 45 43 u)
               ++ drop ((length u + 3) mod 4) (js "===")) = Normal (chr <$> bytes).
Proof.
  intros Hb. destruct (base64_encode_spec bytes Hb) as (vs & k & He & Hv & Hd & Hk & Hne).
  exists (to_url_char <$> (base64_char <$> vs)).
  assert (Hall : Forall (fun v => code (to_url_char (base64_char v)) ≠ 61
                                 ∧ is_url_safe (to_url_char (base64_char v)) = true
                                 ∧ of_url_char (to_url_char (base64_char v)) = base64_char v) vs).
  { eapply Forall_impl; [done|]. intros v Hr.
    destruct (base64_char_plain v Hr) as (_ & _ & ? & ? & ?). done. }
  split; [|split; [|split]].
  - rewrite He, replace_to_url, fmap_app, fmap_repeat_char.
    change (to_url_char (chr 61)) with (chr 61).
    apply strip_trailing_equals_padding. rewrite <- list_fmap_compose.
    apply Forall_fmap. eapply Forall_impl; [done|]. by intros v (? & _).
  - rewrite <- list_fmap_compose. apply Forall_fmap.
    eapply Forall_impl; [done|]. by intros v (_ & ? & _).
  - intros Hn E. apply fmap_nil_inv, fmap_nil_inv in E. by apply Hne.
  - rewrite replace_of_url, !length_fmap, (padding_of_length _ k) by done.
    replace (of_url_char <$> (to_url_char <$> (base64_char <$> vs)))
      with (base64_char <$> vs); [by apply atob_padded|].
    rewrite <- !list_fmap_compose. apply list_fmap_ext. intros i v Hi. simpl.
    rewrite Forall_forall in Hall. symmetry. apply Hall. by eapply list_elem_of_lookup_2.
Qed.

Lemma base64url_codec (s : jsstring) :
  well_formed s = true →
  ∃ u, base64urlEncode s = Normal u
       ∧ Forall (fun c => is_url_safe c = true) u
       ∧ (s ≠ [] → u ≠ [])
       ∧ base64urlDecode u = Normal s
       ∧ b64urlDecodeToString u = Normal (binary_string (TextEncoder_encode s)).
Proof.
  intros Hw. destruct (encodeURIComponent_unescape s Hw) as (e & He & Hu).
  destruct (binary_string_codes (TextEncoder_encode s)) as (Hr & Hf & Hc).
  destruct (base64url_form _ Hr) as (u & Hs & Hsafe & Hne & Ha).
  exists u. unfold base64urlEncode, base64urlDecode, b64urlDecodeToString.
  rewrite He. cbn [mbind completion_bind]. rewrite Hu. unfold btoa. rewrite Hf.
  cbn [mbind completion_bind mret completion_ret]. rewrite Hs, Ha, Hc.
  split; [done|]. split; [done|]. split.
  { intros Hn. apply Hne. intros E. apply fmap_nil_inv, fmap_nil_inv in E.
    by apply (TextEncoder_encode_nonempty s). }
  split; [|done]. cbn [mbind completion_bind]. by apply decodeURIComponent_escape.
Qed.

(** X5. For a string in which every surrogate is paired, [base64urlEncode]
    returns a string of letters, digits, ["-"] and ["_"] (without padding),
    [base64urlDecode] gives the string back from it, and
    [b64urlDecodeToString] gives the string of its UTF-8 bytes.  For any
    other string [base64urlEncode] throws a [URIError]. *)
Theorem base64url_round_trip (s : jsstring) :
  (well_formed s = true →
     ∃ u, base64urlEncode s = Normal u
          ∧ Forall (fun c => is_url_safe c = true) u
          ∧ (s ≠ [] → u ≠ [])
          ∧ base64urlDecode u = Normal s
          ∧ b64urlDecodeToString u = Normal (binary_string (TextEncoder_encode s)))
  ∧ (well_formed s = false → base64urlEncode s = Throw URIError).
Proof.
  split.
  - apply base64url_codec.
  - intros Hw. unfold base64urlEncode. by rewrite encodeURIComponent_ill_formed.
Qed.

(** ** [JSON.parse] reads back what [JSON.stringify] writes *)

Lemma hex_value_digit (d : Z) : 0 <= d < 16 → hex_value (hex_digit d) = Some d.
Proof.
  revert d. apply (forall_range (fun d => hex_value (hex_digit d) = Some d) 16).
  by vm_compute.
Qed.

Lemma hex4_lower (z : Z) :
  0 <= z < 65536 →
  hex4 (hex_digit (z / 4096)) (hex_digit (z / 256 mod 16)) (hex_digit (z / 16 mod 16))
       (hex_digit (z mod 16)) = Some z.
Proof.
  intros Hz. unfold hex4, hex2.
  rewrite !hex_value_digit by (Z.div_mod_to_equations; lia).
  cbn [mbind option_bind]. f_equal. Z.div_mod_to_equations. lia.
Qed.

Lemma parse_string_plain (c : char16) (r : jsstring) :
  code c ≠ 34 → code c ≠ 92 → 32 <= code c →
  parse_string (c :: r) = '(t, rest) ← parse_string r; Some (c :: t, rest).
Proof.
  intros H1 H2 H3. cbn [parse_string].
  destruct (Z.eqb_spec (code c) 34); [done|].
  destruct (Z.eqb_spec (code c) 92); [done|].
  destruct (Z.ltb_spec (code c) 32); [lia|]. done.
Qed.

Lemma parse_string_unicode_escape (z : Z) (r : jsstring) :
  0 <= z < 65536 →
  parse_string (js "\u" ++ lower_hex4 z ++ r)
  = '(t, rest) ← parse_string r; Some (chr z :: t, rest).
Proof.
  intros Hz. unfold lower_hex4.
  change (parse_string (js "\u" ++ ?l ++ r)) with
    (n ← hex4 (hex_digit (z / 4096)) (hex_digit (z / 256 mod 16))
              (hex_digit (z / 16 mod 16)) (hex_digit (z mod 16));
     '(t, rest) ← parse_string r; Some (chr n :: t, rest)).
  by rewrite hex4_lower.
Qed.

Lemma quote_chars_cons (c : char16) (r : jsstring) :
  quote_chars (c :: r) =
  let z := code c in
  if z =? 8 then js "\b" ++ quote_chars r
  else if z =? 9 then js "\t" ++ quote_chars r
  else if z =? 10 then js "\n" ++ quote_chars r
  else if z =? 12 then js "\f" ++ quote_chars r
  else if z =? 13 then js "\r" ++ quote_chars r
  else if z =? 34 then [chr 92; chr 34] ++ quote_chars r
  else if z =? 92 then [chr 92; chr 92] ++ quote_chars r
  else if z <? 32 then js "\u" ++ lower_hex4 z ++ quote_chars r
  else if is_high_surrogate c then
    match r with
    | d :: r' =>
        if is_low_surrogate d then c :: d :: quote_chars r'
        else js "\u" ++ lower_hex4 z ++ quote_chars r
    | [] => js "\u" ++ lower_hex4 z
    end
  else if is_low_surrogate c then js "\u" ++ lower_hex4 z ++ quote_chars r
  else c :: quote_chars r.
Proof. done. Qed.

Lemma simple_escape_case (c : char16) (e x : Z) (r rest : jsstring) :
  (∀ t, parse_string (chr 92 :: chr e :: t)
        = '(t', rest') ← parse_string t; Some (chr x :: t', rest')) →
  code c = x →
  parse_string (quote_chars r ++ chr 34 :: rest) = Some (r, rest) →
  parse_string (([chr 92; chr e] ++ quote_chars r) ++ chr 34 :: rest) = Some (c :: r, rest).
Proof.
  intros Hp Hx Hr. cbn [app]. rewrite Hp, Hr. cbn. by rewrite <- Hx, chr_code.
Qed.

(** The text between the quotes of [QuoteJSONString s], followed by the
    closing quote, is read back as [s]. *)
Lemma parse_string_quote_chars (s rest : jsstring) :
  parse_string (quote_chars s ++ chr 34 :: rest) = Some (s, rest).
Proof.
  remember (length s) as n eqn:Hn. revert s Hn rest.
  induction n as [n IH] using lt_wf_ind. intros s Hn rest.
  destruct s as [|c r]; [done|].
  assert (IHr : ∀ rest, parse_string (quote_chars r ++ chr 34 :: rest) = Some (r, rest)).
  { intros rest'. apply (IH (length r)); [simpl in Hn; lia|done]. }
  pose proof (code_range c) as Hc.
  assert (Hu : parse_string ((js "\u" ++ lower_hex4 (code c) ++ quote_chars r)
                             ++ chr 34 :: rest) = Some (c :: r, rest)).
  { rewrite <- !app_assoc, parse_string_unicode_escape, IHr by done.
    cbn. by rewrite chr_code. }
  rewrite quote_chars_cons. cbv zeta.
  destruct (Z.eqb_spec (code c) 8) as [E|_].
  { by apply (simple_escape_case c 98 8). }
  destruct (Z.eqb_spec (code c) 9) as [E|_].
  { by apply (simple_escape_case c 116 9). }
  destruct (Z.eqb_spec (code c) 10) as [E|_].
  { by apply (simple_escape_case c 110 10). }
  destruct (Z.eqb_spec (code c) 12) as [E|_].
  { by apply (simple_escape_case c 102 12). }
  destruct (Z.eqb_spec (code c) 13) as [E|_].
  { by apply (simple_escape_case c 114 13). }
  destruct (Z.eqb_spec (code c) 34) as [E|N34].
  { by apply (simple_escape_case c 34 34). }
  destruct (Z.eqb_spec (code c) 92) as [E|N92].
  { by apply (simple_escape_case c 92 92). }
  destruct (Z.ltb_spec (code c) 32) as [?|H32]; [done|].
  destruct (is_high_surrogate c) eqn:Eh.
  - destruct r as [|d r'].
    + rewrite <- app_assoc, parse_string_unicode_escape by done.
      cbn. by rewrite chr_code.
    + destruct (is_low_surrogate d) eqn:El; [|done].
      cbn [app]. rewrite parse_string_plain by done.
      unfold is_low_surrogate in El. apply andb_prop in El as [El1 El2].
      apply Z.leb_le in El1, El2.
      rewrite parse_string_plain by lia.
      erewrite (IH (length r')); [done|simpl in Hn; lia|done].
  - destruct (is_low_surrogate c); [done|].
    cbn [app]. by rewrite parse_string_plain, IHr.
Qed.

(** ** The decimal text of an integer Number *)

From Stdlib Require DecimalPos DecimalN.

Lemma uint_chars_digits (d : Decimal.uint) :
  Forall (fun c => is_digit c = true) (uint_chars d).
Proof. induction d; constructor; done. Qed.

Lemma digits_value_acc (acc : Z) (s : jsstring) :
  foldl (fun acc c => 10 * acc + default 0 (hex_value c)) acc s
  = acc * 10 ^ Z.of_nat (length s) + digits_value 10 s.
Proof.
  unfold digits_value. revert acc. induction s as [|c s IH]; intros acc.
  - simpl. lia.
  - cbn [foldl length]. rewrite IH, (IH (10 * 0 + _)).
    rewrite Nat2Z.inj_succ, Z.pow_succ_r by lia. lia.
Qed.

Lemma digits_value_app (a b : jsstring) :
  digits_value 10 (a ++ b) = digits_value 10 a * 10 ^ Z.of_nat (length b) + digits_value 10 b.
Proof. unfold digits_value at 1. by rewrite foldl_app, digits_value_acc. Qed.

Lemma digits_value_zeros (j : nat) : digits_value 10 (repeat (chr 48) j) = 0.
Proof.
  induction j as [|j IH]; [done|].
  change (repeat (chr 48) (S j)) with ([chr 48] ++ repeat (chr 48) j).
  rewrite digits_value_app, IH. done.
Qed.

Lemma uint_value_acc (d : Decimal.uint) (acc : positive) :
  foldl (fun acc c => 10 * acc + default 0 (hex_value c)) (Z.pos acc) (uint_chars d)
  = Z.pos (Pos.of_uint_acc d acc).
Proof.
  revert acc. induction d; intros acc; cbn [uint_chars Pos.of_uint_acc foldl]; [done|..];
    rewrite <- IHd; f_equal;
    match goal with |- context [default 0 ?h] => let v := eval vm_compute in (default 0 h) in
      change (default 0 h) with v end; lia.
Qed.

Lemma uint_value (d : Decimal.uint) : digits_value 10 (uint_chars d) = Z.of_N (Pos.of_uint d).
Proof.
  unfold digits_value.
  induction d; cbn [uint_chars Pos.of_uint foldl]; [done|done|apply uint_value_acc ..].
Qed.

Lemma decimal_digits_value (z : Z) : 0 <= z → digits_value 10 (decimal_digits z) = z.
Proof.
  intros Hz. unfold decimal_digits. rewrite uint_value.
  change (Pos.of_uint ?d) with (N.of_uint d).
  rewrite DecimalN.Unsigned.of_to. lia.
Qed.

Lemma nzhead_not_zero (d : Decimal.uint) :
  match Decimal.nzhead d with Decimal.D0 _ => False | _ => True end.
Proof. induction d; done. Qed.

(** The digits of a positive integer do not start with a zero. *)
Lemma decimal_digits_head (z : Z) :
  0 < z → ∃ d ds, decimal_digits z = d :: ds ∧ is_digit d = true ∧ code d ≠ 48.
Proof.
  intros Hz. unfold decimal_digits.
  pose proof (DecimalN.Unsigned.to_of (N.to_uint (Z.to_N z))) as Hn.
  rewrite DecimalN.Unsigned.of_to in Hn.
  pose proof (DecimalN.Unsigned.of_to (Z.to_N z)) as Ho.
  pose proof (nzhead_not_zero (N.to_uint (Z.to_N z))) as Hh.
  unfold Decimal.unorm in Hn.
  destruct (Decimal.nzhead (N.to_uint (Z.to_N z))); try done;
    rewrite Hn; try (eexists _, _; done).
  rewrite Hn in Ho. cbn in Ho. lia.
Qed.

(** *** The shortest digits of an integer below [2^53] *)

Lemma decimal_exponent_integer (N P2 : Z) :
  0 < N < 10 ^ 16 → 0 < P2 →
  1 <= decimal_exponent (N * P2) P2 <= 16
  ∧ 10 ^ (decimal_exponent (N * P2) P2 - 1) <= N < 10 ^ decimal_exponent (N * P2) P2.
Proof.
  intros HN HP. unfold decimal_exponent.
  set (P := fun n => N * P2 * pow10_den n <? P2 * pow10_num n).
  assert (HPpos : ∀ n, 1 <= n → (P n = true ↔ N < 10 ^ n)).
  { intros n Hn. unfold P, pow10_den, pow10_num.
    rewrite (Z.max_l 0 (- n)), (Z.max_r 0 n) by lia.
    rewrite Z.pow_0_r, Z.mul_1_r, Z.ltb_lt. split; nia. }
  assert (HPneg : ∀ n, n <= 0 → P n = false).
  { intros n Hn. unfold P, pow10_den, pow10_num.
    rewrite (Z.max_r 0 (- n)), (Z.max_l 0 n) by lia.
    rewrite Z.pow_0_r. apply Z.ltb_ge.
    assert (0 < 10 ^ (- n)) by (apply Z.pow_pos_nonneg; lia).
    assert (P2 <= N * P2) by nia.
    assert (N * P2 * 1 <= N * P2 * 10 ^ (- n)) by (apply Z.mul_le_mono_nonneg_l; lia).
    lia. }
  assert (H16 : P 16 = true) by (apply HPpos; lia).
  destruct (list_find _ _) as [[i n]|] eqn:E.
  - apply list_find_Some in E as (Hl & Hp & Hmin).
    apply lookup_seqZ in Hl as [Hn Hi].
    apply Is_true_true in Hp. fold (P n) in Hp.
    assert (1 <= n).
    { destruct (Z.le_gt_cases n 0) as [Hle|]; [|lia]. by rewrite HPneg in Hp. }
    assert (n <= 16).
    { destruct (Z.le_gt_cases n 16) as [|Hgt]; [done|].
      destruct (Hmin 340%nat 16); [by apply lookup_seqZ|lia|by apply Is_true_true]. }
    split; [done|]. split; [|by apply HPpos].
    destruct (Z.eq_dec n 1) as [->|]; [simpl; lia|].
    destruct (Z.le_gt_cases (10 ^ (n - 1)) N) as [|Hlt]; [done|].
    destruct (Hmin (i - 1)%nat (n - 1)).
    + apply lookup_seqZ. lia.
    + lia.
    + apply Is_true_true. fold (P (n - 1)). apply HPpos; lia.
  - apply list_find_None in E.
    rewrite Forall_forall in E. destruct (E 16).
    + apply elem_of_seqZ. lia.
    + by apply Is_true_true.
Qed.

Lemma digit_candidates_spec (num den n0 k s : Z) :
  s ∈ digit_candidates num den n0 k →
  let lo := num * pow10_num (k - n0) / (den * pow10_den (k - n0)) in
  s = lo ∨ s = lo + 1.
Proof.
  unfold digit_candidates. cbv zeta.
  case_match; intros Hs; repeat (apply elem_of_cons in Hs as [->|Hs]);
    try (by left); try (by right); by apply elem_of_nil in Hs.
Qed.

(** The candidates of [shortest_digits] up to [k] digits. *)
Lemma candidates_split (num den n0 : Z) :
  1 <= n0 <= 16 →
  (k ← seqZ 1 17; (fun s => (k, s)) <$> digit_candidates num den n0 k)
  = (k ← seqZ 1 n0; (fun s => (k, s)) <$> digit_candidates num den n0 k)
    ++ (k ← seqZ (1 + n0) (17 - n0); (fun s => (k, s)) <$> digit_candidates num den n0 k).
Proof.
  intros Hn. rewrite <- bind_app, <- seqZ_app by lia. do 2 f_equal. lia.
Qed.

(** For an integer [N] below [2^53], held as [m * 2^e], the digits found are
    those of an integer [s] that, with [j] zeros after it, has the Number
    of [N] as its Number. *)
Lemma shortest_digits_integer (N : Z) :
  0 < N < 2 ^ 53 →
  let L := Z.log2 N in
  ∃ n k s, shortest_digits (N * 2 ^ (52 - L)) (L - 52) = (n, k, s)
           ∧ 1 <= k <= n ∧ n <= 17 ∧ 0 < s
           ∧ round_ratio false (s * 10 ^ (n - k)) 1 = number_of_Z N.
Proof.
  intros HN L.
  pose proof (Z.log2_spec N ltac:(lia)) as [Hlo Hhi]. fold L in Hlo, Hhi.
  pose proof (Z.log2_nonneg N) as HL0. fold L in HL0.
  assert (HL : L <= 52).
  { apply Z.lt_succ_r, (Z.pow_lt_mono_r_iff 2); [lia|lia|].
    replace (Z.succ 52) with 53 by lia. lia. }
  set (P2 := 2 ^ (52 - L)).
  assert (HP2 : 0 < P2) by (apply Z.pow_pos_nonneg; lia).
  assert (Hx : number_of_Z N = Dbl false (N * P2) (L - 52)).
  { unfold number_of_Z. rewrite Z.abs_eq by lia.
    destruct (Z.ltb_spec N 0); [lia|]. by rewrite round_ratio_integer. }
  unfold shortest_digits. cbv zeta.
  assert (Hnum : scaled_den (N * P2) (L - 52) = N * P2).
  { unfold scaled_den. rewrite Z.max_l by lia. rewrite Z.pow_0_r. lia. }
  assert (Hden : scaled_num 1 (L - 52) = P2).
  { unfold scaled_num. rewrite Z.max_r by lia. unfold P2. rewrite Z.mul_1_l. f_equal. lia. }
  rewrite Hnum, Hden.
  destruct (decimal_exponent_integer N P2) as (Hn0 & Hlow & Hup); [lia|done|].
  set (n0 := decimal_exponent (N * P2) P2) in *.
  set (valid := fun ks : Z * Z =>
                  number_eqb (round_decimal false ks.2 (n0 - ks.1)) (Dbl false (N * P2) (L - 52))).
  assert (Hvalid : ∀ k s, 1 <= k <= n0 → valid (k, s) = true →
            round_ratio false (s * 10 ^ (n0 - k)) 1 = number_of_Z N).
  { intros k s Hk Hv. unfold valid, round_decimal in Hv. cbn [fst snd] in Hv.
    rewrite (Z.max_r 0 (n0 - k)), (Z.max_l 0 (- (n0 - k))), Z.pow_0_r in Hv by lia.
    rewrite Hx. destruct (round_ratio false (s * 10 ^ (n0 - k)) 1) as [| |t m e]; try done.
    unfold number_eqb in Hv.
    destruct (Z.eqb_spec (N * P2) 0); [nia|]. rewrite andb_false_r in Hv. cbn [orb] in Hv.
    apply andb_prop in Hv as [Hv He]. apply andb_prop in Hv as [Hs Hm].
    apply Z.eqb_eq in He, Hm. destruct t; [done|]. by subst. }
  rewrite candidates_split by done.
  set (l1 := seqZ 1 n0 ≫= _). set (l2 := seqZ (1 + n0) (17 - n0) ≫= _).
  assert (Hin : (n0, N) ∈ l1).
  { apply list_elem_of_bind. exists n0. split; [|apply elem_of_seqZ; lia].
    apply list_elem_of_fmap. exists N. split; [done|].
    unfold digit_candidates. rewrite Z.sub_diag.
    change (pow10_num 0) with 1. change (pow10_den 0) with 1. rewrite !Z.mul_1_r.
    rewrite Z.div_mul, Z.mod_mul by lia. case_match; repeat constructor. }
  assert (Hv0 : valid (n0, N) = true).
  { unfold valid, round_decimal. cbn [fst snd]. rewrite Z.sub_diag. cbn.
    rewrite Z.mul_1_r, round_ratio_integer by lia. fold L. fold P2.
    unfold number_eqb. rewrite !Z.eqb_refl. cbn. by rewrite orb_true_r. }
  destruct (list_find _ (l1 ++ l2)) as [[i [k s]]|] eqn:Hf; cycle 1.
  { apply list_find_None in Hf. rewrite Forall_app, Forall_forall in Hf.
    destruct Hf as [Hf _]. destruct (Hf _ Hin). by apply Is_true_true. }
  apply list_find_app_Some in Hf as [Hf|(_ & Hf & _)]; cycle 1.
  { apply list_find_None in Hf. rewrite Forall_forall in Hf.
    destruct (Hf _ Hin). by apply Is_true_true. }
  apply list_find_Some in Hf as (Hl & Hv & _). apply Is_true_true in Hv.
  apply list_elem_of_lookup_2 in Hl.
  apply list_elem_of_bind in Hl as (k' & Hs & Hk).
  apply list_elem_of_fmap in Hs as (s' & [= -> ->] & Hs).
  apply elem_of_seqZ in Hk.
  apply digit_candidates_spec in Hs. cbv zeta in Hs.
  assert (Hlo' : 10 ^ (k' - 1) <= N * P2 * pow10_num (k' - n0) / (P2 * pow10_den (k' - n0))
                 < 10 ^ k').
  { unfold pow10_num, pow10_den.
    rewrite (Z.max_l 0 (k' - n0)), (Z.max_r 0 (- (k' - n0))) by lia.
    rewrite Z.pow_0_r, Z.mul_1_r, (Z.mul_comm N), Z.div_mul_cancel_l by lia.
    replace (- (k' - n0)) with (n0 - k') by lia.
    assert (0 < 10 ^ (n0 - k')) by (apply Z.pow_pos_nonneg; lia).
    assert (10 ^ n0 = 10 ^ k' * 10 ^ (n0 - k')).
    { rewrite <- Z.pow_add_r by lia. f_equal. lia. }
    assert (10 ^ (n0 - 1) = 10 ^ (k' - 1) * 10 ^ (n0 - k')).
    { rewrite <- Z.pow_add_r by lia. f_equal. lia. }
    split.
    - apply Z.div_le_lower_bound; lia.
    - apply Z.div_lt_upper_bound; lia. }
  assert (0 < 10 ^ (k' - 1)) by (apply Z.pow_pos_nonneg; lia).
  assert (Hs' : 0 < s' <= 10 ^ k') by lia.
  pose proof (Hvalid k' s' ltac:(lia) Hv) as Hr.
  destruct (Z.eqb_spec s' (10 ^ k')) as [E|_].
  - exists (n0 + 1), k', (s' / 10).
    assert (s' = 10 ^ (k' - 1) * 10) as Es.
    { rewrite E. replace k' with (Z.succ (k' - 1)) at 1 by lia.
      rewrite Z.pow_succ_r by lia. lia. }
    split; [done|]. split; [lia|]. split; [lia|].
    rewrite Es, Z.div_mul by lia. split; [lia|].
    rewrite <- Hr, Es. f_equal.
    replace (n0 + 1 - k') with (Z.succ (n0 - k')) by lia. rewrite Z.pow_succ_r by lia. lia.
  - exists n0, k', s'. repeat split; try done; lia.
Qed.

(** *** Reading the text of an integer back *)

Lemma span_digits (a b : jsstring) :
  Forall (fun c => is_digit c = true) a →
  match b with c :: _ => is_digit c = false | [] => True end →
  span is_digit (a ++ b) = (a, b).
Proof.
  induction 1 as [|x a Hx _ IH]; intros Hb; cbn [app span].
  - destruct b as [|c b]; [done|]. cbn [span]. by rewrite Hb.
  - by rewrite Hx, IH.
Qed.

(** Digits that do not start with a zero, followed by a character that
    continues no number, are a numeric literal: the integer they spell. *)
Lemma parse_number_integer (d c : char16) (ds rest : jsstring) :
  Forall (fun c => is_digit c = true) (d :: ds) → code d ≠ 48 →
  is_digit c = false → code c ≠ 46 → one_of "eE" c = false →
  parse_number ((d :: ds) ++ c :: rest)
  = Some (round_ratio false (digits_value 10 (d :: ds)) 1, c :: rest).
Proof.
  intros Hds Hd Hc1 Hc2 Hc3. unfold parse_number.
  assert (code d ≠ 45).
  { apply Forall_cons in Hds as [Hd' _]. unfold is_digit in Hd'.
    apply andb_prop in Hd' as [Hd' _]. apply Z.leb_le in Hd'. lia. }
  cbn [app]. destruct (Z.eqb_spec (code d) 45); [done|].
  change (d :: ds ++ c :: rest) with ((d :: ds) ++ c :: rest).
  rewrite span_digits by done.
  destruct (Z.eqb_spec (code d) 48); [done|]. cbn [andb].
  destruct (Z.eqb_spec (code c) 46); [done|]. cbn [mbind option_bind].
  rewrite Hc3. unfold decimal_literal, round_decimal.
  rewrite app_nil_r. cbn [length Z.of_nat Z.sub Z.opp Z.max Z.compare].
  by rewrite Z.pow_0_r, Z.mul_1_r.
Qed.

Lemma number_of_Z_positive (N : Z) :
  0 < N < 2 ^ 53 →
  number_of_Z N = Dbl false (N * 2 ^ (52 - Z.log2 N)) (Z.log2 N - 52)
  ∧ N * 2 ^ (52 - Z.log2 N) ≠ 0.
Proof.
  intros HN. unfold number_of_Z. rewrite Z.abs_eq by lia.
  destruct (Z.ltb_spec N 0); [lia|]. rewrite round_ratio_integer by done.
  split; [done|].
  pose proof (Z.log2_spec N ltac:(lia)) as [Hlo Hhi].
  pose proof (Z.log2_nonneg N) as HL0.
  assert (HL : Z.log2 N <= 52).
  { apply Z.lt_succ_r, (Z.pow_lt_mono_r_iff 2); [lia|lia|].
    replace (Z.succ 52) with 53 by lia. lia. }
  assert (0 < 2 ^ (52 - Z.log2 N)) by (apply Z.pow_pos_nonneg; lia). nia.
Qed.

(** [Number.prototype.toString] of a positive integer below [2^53] writes
    digits only, without a leading zero, and a numeric literal reads them
    back as the same Number. *)
Lemma Number_toString_integer (N : Z) (c : char16) (rest : jsstring) :
  0 < N < 2 ^ 53 →
  is_digit c = false → code c ≠ 46 → one_of "eE" c = false →
  ∃ d ds, Number_toString (number_of_Z N) = d :: ds
          ∧ Forall (fun c => is_digit c = true) (d :: ds)
          ∧ parse_number (Number_toString (number_of_Z N) ++ c :: rest)
            = Some (number_of_Z N, c :: rest).
Proof.
  intros HN Hc1 Hc2 Hc3.
  destruct (shortest_digits_integer N HN) as (n & k & s & Hsd & Hk & Hn & Hs & Hr).
  destruct (number_of_Z_positive N HN) as [Hx Hm]. rewrite Hx.
  unfold Number_toString. destruct (Z.eqb_spec (N * 2 ^ (52 - Z.log2 N)) 0); [done|].
  cbn [app]. unfold Number_toString_positive. rewrite Hsd.
  destruct (Z.leb_spec k n); [|lia]. destruct (Z.leb_spec n 21); [|lia]. cbn [andb].
  destruct (decimal_digits_head s Hs) as (d & ds & Hd & Hdig & Hnz).
  assert (Hall : Forall (fun c => is_digit c = true)
                   (decimal_digits s ++ repeat (chr 48) (Z.to_nat (n - k)))).
  { apply Forall_app. split; [apply uint_chars_digits|].
    apply Forall_forall. intros x Hin. apply list_elem_of_In, repeat_spec in Hin.
    by subst. }
  assert (Hval : digits_value 10 (decimal_digits s ++ repeat (chr 48) (Z.to_nat (n - k)))
                 = s * 10 ^ (n - k)).
  { rewrite digits_value_app, digits_value_zeros, decimal_digits_value by lia.
    rewrite repeat_length, Z2Nat.id by lia. lia. }
  rewrite Hd in *. cbn [app] in *.
  exists d, (ds ++ repeat (chr 48) (Z.to_nat (n - k))). split; [done|]. split; [done|].
  change (d :: (ds ++ ?z) ++ c :: rest) with ((d :: ds ++ z) ++ c :: rest).
  rewrite parse_number_integer by done. rewrite Hval, Hr, Hx. done.
Qed.

(** *** Objects whose members are strings and positive integers *)

Definition scalar (v : json) : Prop :=
  match v with
  | JString _ => True
  | JNumber x => ∃ N, 0 < N < 2 ^ 53 ∧ x = number_of_Z N
  | _ => False
  end.

Lemma parse_value_quote (f : nat) (t : jsstring) :
  parse_value (S f) (chr 34 :: t) = '(s, rest) ← parse_string t; Some (JString s, rest).
Proof. done. Qed.

Lemma parse_value_digit (f : nat) (d : char16) (t : jsstring) :
  is_digit d = true →
  parse_value (S f) (d :: t) = '(x, rest) ← parse_number (d :: t); Some (JNumber x, rest).
Proof.
  intros Hd. unfold is_digit in Hd. apply andb_prop in Hd as [H1 H2].
  apply Z.leb_le in H1, H2.
  cbn [parse_value skip_ws]. unfold is_json_ws.
  repeat match goal with
         | |- context [code d =? ?z] => rewrite (proj2 (Z.eqb_neq (code d) z)) by lia
         end.
  cbn [orb].
  repeat match goal with
         | |- context [code d =? ?z] => rewrite (proj2 (Z.eqb_neq (code d) z)) by lia
         end.
  done.
Qed.

(** A string or integer, followed by a comma or a closing brace, is read
    back as the value it was written from. *)
Lemma parse_value_scalar (f : nat) (v : json) (c : char16) (rest : jsstring) :
  scalar v → c = chr 44 ∨ c = chr 125 →
  parse_value (S f) (JSON_stringify v ++ c :: rest) = Some (v, c :: rest).
Proof.
  intros Hv Hc. destruct v as [| |x|s| |]; try done.
  - destruct Hv as (N & HN & ->).
    destruct (Number_toString_integer N c rest HN) as (d & ds & Ht & Hd & Hp).
    { by destruct Hc as [->| ->]. }
    { by destruct Hc as [->| ->]. }
    { by destruct Hc as [->| ->]. }
    cbn [JSON_stringify]. destruct (number_of_Z_positive N HN) as [Hx _].
    rewrite Hx at 1. cbn [Number_isFinite].
    rewrite Ht in *. cbn [app] in *. apply Forall_cons in Hd as [Hd _].
    by rewrite parse_value_digit, Hp.
  - cbn [JSON_stringify]. unfold QuoteJSONString. rewrite <- !app_assoc. cbn [app].
    by rewrite parse_value_quote, parse_string_quote_chars.
Qed.

Lemma parse_members_member (f : nat) (required : bool) (k t : jsstring) :
  parse_members (S f) required (QuoteJSONString k ++ js ":" ++ t)
  = '(v, r3) ← parse_value f t;
    match skip_ws r3 with
    | d :: r4 =>
        if code d =? 44 then
          '(ms, rest) ← parse_members f true r4; Some ((k, v) :: ms, rest)
        else if code d =? 125 then Some ([(k, v)], r4)
        else None
    | [] => None
    end.
Proof.
  unfold QuoteJSONString. rewrite <- !app_assoc.
  change (parse_members (S f) required ([chr 34] ++ ?t'))
    with ('(k, r1) ← parse_string t';
          match skip_ws r1 with
          | colon :: r2 =>
              if code colon =? 58 then
                '(v, r3) ← parse_value f r2;
                match skip_ws r3 with
                | d :: r4 =>
                    if code d =? 44 then
                      '(ms, rest) ← parse_members f true r4; Some ((k, v) :: ms, rest)
                    else if code d =? 125 then Some ([(k, v)], r4)
                    else None
                | [] => None
                end
              else None
          | [] => None
          end).
  cbn [app]. by rewrite parse_string_quote_chars.
Qed.

Lemma parse_members_flat (ms : list (jsstring * json)) :
  ms ≠ [] → Forall (fun m => scalar m.2) ms →
  ∀ (f : nat) (required : bool) (rest : jsstring),
    (length ms <= f)%nat →
    parse_members (S f) required
      (join_comma (map (fun m => QuoteJSONString m.1 ++ js ":" ++ JSON_stringify m.2) ms)
       ++ chr 125 :: rest)
    = Some (ms, rest).
Proof.
  induction ms as [|[k v] ms IH]; [done|]. intros _ Hall f required rest Hf.
  apply Forall_cons in Hall as [Hv Hall]. cbn [fst snd] in Hv.
  destruct f as [|f]; [simpl in Hf; lia|].
  destruct ms as [|m ms].
  - cbn [map join_comma fst snd]. rewrite <- !app_assoc.
    rewrite parse_members_member.
    by rewrite (parse_value_scalar f v (chr 125) rest Hv (or_intror eq_refl)).
  - set (g := fun m : jsstring * json => QuoteJSONString m.1 ++ js ":" ++ JSON_stringify m.2) in *.
    change (map g ((k, v) :: m :: ms)) with (g (k, v) :: g m :: map g ms).
    change (join_comma (g (k, v) :: g m :: map g ms))
      with (g (k, v) ++ js "," ++ join_comma (map g (m :: ms))).
    unfold g at 1. cbn [fst snd]. rewrite <- !app_assoc.
    rewrite parse_members_member.
    change (js "," ++ ?x) with (chr 44 :: x).
    rewrite (parse_value_scalar f v (chr 44) _ Hv (or_introl eq_refl)).
    cbn [mbind option_bind].
    change (skip_ws (chr 44 :: ?t)) with (chr 44 :: t).
    change (code (chr 44) =? 44) with true. cbv iota.
    destruct f as [|f]; [simpl in Hf; lia|].
    rewrite IH; [done|done|done|simpl in *; lia].
Qed.

Lemma join_comma_length (l : list jsstring) :
  Forall (fun x => x ≠ []) l → (length l <= length (join_comma l))%nat.
Proof.
  induction 1 as [|x l Hx _ IH]; [done|].
  destruct l as [|y l].
  - destruct x; [done|]. simpl. lia.
  - change (join_comma (x :: y :: l)) with (x ++ js "," ++ join_comma (y :: l)).
    rewrite !length_app. change (length (js ",")) with 1%nat.
    cbn [length] in *. lia.
Qed.

(** [JSON.parse(JSON.stringify(o))] is [o] for an object [o] with at least
    one member, whose members are strings and positive integers below [2^53]. *)
Lemma JSON_parse_stringify_flat (ms : list (jsstring * json)) :
  ms ≠ [] → Forall (fun m => scalar m.2) ms →
  JSON_parse (JSON_stringify (JObject ms)) = Normal (JObject ms).
Proof.
  intros Hne Hall. unfold JSON_parse. cbn [JSON_stringify].
  set (members := join_comma _).
  assert (Hlen : (length ms <= length members)%nat).
  { unfold members. etrans; [|apply join_comma_length].
    - by rewrite length_map.
    - apply Forall_forall. intros x Hx. apply list_elem_of_In, in_map_iff in Hx as (m & <- & _).
      unfold QuoteJSONString. done. }
  assert (Hfuel : ∃ f, (2 * length (js "{" ++ members ++ js "}") + 1 = S (S f))%nat
                       ∧ (length ms <= f)%nat).
  { rewrite !length_app. cbn [length js]. eexists (2 * length members + _)%nat.
    split; [|].
    - instantiate (1 := 3%nat). simpl. lia.
    - lia. }
  destruct Hfuel as (f & -> & Hf).
  change (js "{" ++ members ++ js "}") with (chr 123 :: (members ++ chr 125 :: [])).
  change (parse_value (S (S f)) (chr 123 :: ?r))
    with ('(ms, rest) ← parse_members (S f) false r; Some (JObject ms, rest)).
  unfold members. by rewrite parse_members_flat.
Qed.

(** ** A token that [createReviewToken] has issued *)

Lemma well_formed_plain (s : jsstring) :
  Forall (fun c => code c < 55296) s → well_formed s = true.
Proof.
  induction 1 as [|c s Hc _ IH]; [done|]. cbn [well_formed].
  unfold is_high_surrogate, is_low_surrogate.
  destruct (Z.leb_spec 55296 (code c)); [lia|].
  destruct (Z.leb_spec 56320 (code c)); [lia|]. done.
Qed.

Lemma well_formed_app (a b : jsstring) :
  well_formed a = true → well_formed b = true → well_formed (a ++ b) = true.
Proof.
  remember (length a) as n eqn:Hn. revert a Hn.
  induction n as [n IH] using lt_wf_ind. intros a Hn Ha Hb.
  destruct a as [|c a]; [done|]. cbn [app well_formed] in *.
  destruct (is_high_surrogate c).
  - destruct a as [|d a]; [done|]. cbn [app].
    apply andb_prop in Ha as [Hd Ha]. rewrite Hd. cbn [andb].
    apply (IH (length a)); [simpl in Hn; lia|done|done|done].
  - apply andb_prop in Ha as [Hc Ha]. rewrite Hc. cbn [andb].
    apply (IH (length a)); [simpl in Hn; lia|done|done|done].
Qed.

Lemma hex_digit_plain (d : Z) : 0 <= d < 16 → code (hex_digit d) < 55296.
Proof.
  revert d. apply (forall_range (fun d => code (hex_digit d) < 55296) 16). by vm_compute.
Qed.

Lemma well_formed_unicode_escape (z : Z) :
  0 <= z < 65536 → well_formed (js "\u" ++ lower_hex4 z) = true.
Proof.
  intros Hz. apply well_formed_plain. unfold lower_hex4.
  change (js "\u" ++ [?a; ?b; ?c; ?d]) with [chr 92; chr 117; a; b; c; d].
  apply Forall_cons_2; [done|]. apply Forall_cons_2; [done|].
  repeat (apply Forall_cons_2; [apply hex_digit_plain; Z.div_mod_to_equations; lia|]).
  apply Forall_nil_2.
Qed.

(** [JSON.stringify] writes a surrogate that has no partner as an escape:
    what it writes for a string is well formed. *)
Lemma well_formed_quote_chars (s : jsstring) : well_formed (quote_chars s) = true.
Proof.
  remember (length s) as n eqn:Hn. revert s Hn.
  induction n as [n IH] using lt_wf_ind. intros s Hn.
  destruct s as [|c r]; [done|].
  assert (IHr : well_formed (quote_chars r) = true).
  { apply (IH (length r)); [simpl in Hn; lia|done]. }
  pose proof (code_range c) as Hc.
  assert (Hu : well_formed (js "\u" ++ lower_hex4 (code c) ++ quote_chars r) = true).
  { rewrite app_assoc. apply well_formed_app; [by apply well_formed_unicode_escape|done]. }
  rewrite quote_chars_cons. cbv zeta.
  destruct (code c =? 8); [by apply well_formed_app|].
  destruct (code c =? 9); [by apply well_formed_app|].
  destruct (code c =? 10); [by apply well_formed_app|].
  destruct (code c =? 12); [by apply well_formed_app|].
  destruct (code c =? 13); [by apply well_formed_app|].
  destruct (code c =? 34); [by apply well_formed_app|].
  destruct (code c =? 92); [by apply well_formed_app|].
  destruct (code c <? 32); [done|].
  destruct (is_high_surrogate c) eqn:Eh.
  - destruct r as [|d r']; [by apply well_formed_unicode_escape|].
    destruct (is_low_surrogate d) eqn:El; [|done].
    cbn [well_formed]. rewrite Eh, El. cbn [andb].
    apply (IH (length r')); [simpl in Hn; lia|done].
  - destruct (is_low_surrogate c) eqn:El; [done|].
    cbn [well_formed]. by rewrite Eh, El.
Qed.

Lemma well_formed_stringify_scalar (v : json) :
  scalar v → well_formed (JSON_stringify v) = true.
Proof.
  destruct v as [| |x|s| |]; try done.
  - intros (N & HN & ->). cbn [JSON_stringify].
    destruct (Number_toString_integer N (chr 125) [] HN) as (d & ds & Ht & Hd & _); try done.
    destruct (number_of_Z_positive N HN) as [Hx _]. rewrite Hx at 1. cbn [Number_isFinite].
    rewrite Ht. apply well_formed_plain. eapply Forall_impl; [done|].
    intros c Hc. unfold is_digit in Hc. apply andb_prop in Hc as [_ Hc].
    apply Z.leb_le in Hc. lia.
  - intros _. cbn [JSON_stringify]. unfold QuoteJSONString.
    apply well_formed_app; [done|]. apply well_formed_app; [|done].
    apply well_formed_quote_chars.
Qed.

Lemma well_formed_join_comma (l : list jsstring) :
  Forall (fun x => well_formed x = true) l → well_formed (join_comma l) = true.
Proof.
  induction 1 as [|x l Hx _ IH]; [done|].
  destruct l as [|y l]; [done|].
  change (join_comma (x :: y :: l)) with (x ++ js "," ++ join_comma (y :: l)).
  apply well_formed_app; [done|]. by apply well_formed_app.
Qed.

Lemma well_formed_stringify_flat (ms : list (jsstring * json)) :
  Forall (fun m => scalar m.2) ms → well_formed (JSON_stringify (JObject ms)) = true.
Proof.
  intros Hall. cbn [JSON_stringify].
  apply well_formed_app; [done|]. apply well_formed_app; [|done].
  apply well_formed_join_comma. apply Forall_forall. intros x Hx.
  apply list_elem_of_In, in_map_iff in Hx as (m & <- & Hm).
  apply well_formed_app; [|apply well_formed_app; [done|]].
  - unfold QuoteJSONString. apply well_formed_app; [done|]. apply well_formed_app; [|done].
    apply well_formed_quote_chars.
  - apply well_formed_stringify_scalar. rewrite Forall_forall in Hall. apply Hall.
    by apply list_elem_of_In.
Qed.

Section Issued.

Variable toLowerCase : jsstring → jsstring.

Lemma review_payload_scalar (order_id email : jsstring) (issued : Z) :
  0 <= issued <= 8640000000000000 →
  ∃ ms, review_payload toLowerCase order_id email issued = JObject ms
        ∧ ms ≠ [] ∧ Forall (fun m => scalar m.2) ms.
Proof.
  intros Hi. eexists. split; [done|]. split; [done|].
  repeat constructor. exists (issued + 45 * 24 * 60 * 60 * 1000). split; [lia|done].
Qed.

(** What [verifyReviewToken] finds in the payload that [createReviewToken]
    wrote. *)
Lemma check_review_payload (order_id email other : jsstring) (issued now : Z) :
  0 <= issued <= 8640000000000000 → time_value now →
  check_payload (review_payload toLowerCase order_id email issued) other now
  = Normal (bool_decide (other = order_id) && bool_decide (now <= issued + 3888000000)).
Proof.
  intros Hi Hn. unfold check_payload, review_payload.
  set (N := issued + 45 * 24 * 60 * 60 * 1000).
  assert (HN : 0 < N < 2 ^ 53) by (unfold N; lia).
  destruct (number_of_Z_positive N HN) as [Hx Hm].
  cbn [ToBoolean negb].
  assert (Ho : Get (JObject [(js "order_id", JString order_id);
                             (js "email", JString (toLowerCase email));
                             (js "exp", JNumber (number_of_Z N))]) (js "order_id")
               = Some (JString order_id)) by done.
  assert (He : Get (JObject [(js "order_id", JString order_id);
                             (js "email", JString (toLowerCase email));
                             (js "exp", JNumber (number_of_Z N))]) (js "exp")
               = Some (JNumber (number_of_Z N))) by done.
  rewrite Ho, He, ToString_or_else_string. cbn [mbind completion_bind].
  destruct (jsstring_eqb order_id other) eqn:Eo.
  - apply jsstring_eqb_eq in Eo as <-. rewrite bool_decide_eq_true_2 by done.
    cbn [negb andb]. rewrite Hx. cbn [or_else ToBoolean truthy_number].
    destruct (Z.eqb_spec (N * 2 ^ (52 - Z.log2 N)) 0); [done|].
    cbn [negb ToNumber mbind completion_bind Number_isFinite orb].
    pose proof (number_ltb_of_Z false (N * 2 ^ (52 - Z.log2 N)) (Z.log2 N - 52) now
                  (time_value_safe now Hn)) as Hlt.
    assert (HL : Z.log2 N <= 52).
    { pose proof (Z.log2_spec N ltac:(lia)) as [Hlo Hhi].
      apply Z.lt_succ_r, (Z.pow_lt_mono_r_iff 2); [lia|lia|].
      replace (Z.succ 52) with 53 by lia. lia. }
    assert (HP : 0 < 2 ^ (52 - Z.log2 N)) by (apply Z.pow_pos_nonneg; lia).
    unfold Z_le_number in Hlt.
    rewrite (Z.max_r 0 (- (Z.log2 N - 52))), (Z.max_l 0 (Z.log2 N - 52)) in Hlt by lia.
    replace (- (Z.log2 N - 52)) with (52 - Z.log2 N) in Hlt by lia.
    rewrite Z.pow_0_r, Z.mul_1_r in Hlt.
    destruct (number_ltb _ _).
    + rewrite bool_decide_eq_false_2; [done|]. intros Hle.
      assert (false = true → False) by done.
      assert (true = false) as Hc; [|done]. apply Hlt. fold N. nia.
    + rewrite bool_decide_eq_true_2; [done|].
      assert (now * 2 ^ (52 - Z.log2 N) <= N * 2 ^ (52 - Z.log2 N)) by by apply Hlt.
      fold N. nia.
  - rewrite bool_decide_eq_false_2; [done|]. intros ->.
    assert (jsstring_eqb order_id order_id = true) by by apply jsstring_eqb_eq.
    congruence.
Qed.

(** The payload half of a token, and what the two functions do with it. *)
Lemma review_token_parts (env : Env) (secret order_id email : jsstring) (issued : Z) :
  configured (REVIEW_LINK_SECRET env) = Some secret →
  0 <= issued <= 8640000000000000 →
  ∃ payloadB64,
    Forall (fun c => is_url_safe c = true) payloadB64 ∧ payloadB64 ≠ []
    ∧ base64urlDecode payloadB64 ≫= JSON_parse
      = Normal (review_payload toLowerCase order_id email issued)
    ∧ createReviewToken toLowerCase env order_id email issued
      = (Normal (payloadB64 ++ js "." ++ hmac_sha256_hex secret payloadB64),
         [HmacSign (TextEncoder_encode secret) (TextEncoder_encode payloadB64)])
    ∧ token_halves (payloadB64 ++ js "." ++ hmac_sha256_hex secret payloadB64)
      = Some (payloadB64, hmac_sha256_hex secret payloadB64)
    ∧ base64urlEncode (JSON_stringify (review_payload toLowerCase order_id email issued))
      = Normal payloadB64
    ∧ base64urlDecode payloadB64
      = Normal (JSON_stringify (review_payload toLowerCase order_id email issued)).
Proof.
  intros Hs Hi.
  destruct (review_payload_scalar order_id email issued Hi) as (ms & Hp & Hne & Hall).
  pose proof (well_formed_stringify_flat ms Hall) as Hw.
  destruct (base64url_codec _ Hw) as (u & He & Hsafe & Hnil & Hd & _).
  exists u. split; [done|].
  assert (Hu : u ≠ []) by (by apply Hnil).
  split; [done|]. split; [|split; [|split; [|split; [by rewrite Hp|by rewrite Hp]]]].
  - rewrite Hp, Hd. cbn [mbind completion_bind]. by apply JSON_parse_stringify_flat.
  - unfold createReviewToken. rewrite Hs, Hp, He.
    apply configured_Some in Hs as [_ Hsec].
    unfold lift. cbn [mbind run_bind]. rewrite hmacHex_run by done. done.
  - unfold token_halves.
    change (js "." ++ ?x) with (chr 46 :: x).
    rewrite split_app_sep, !split_no_sep.
    + cbn [app]. destruct u; [done|]. cbn [truthy_string andb].
      unfold hmac_sha256_hex.
      pose proof (hex_of_bytes_length
                    (SHA256.hmac (TextEncoder_encode secret) (TextEncoder_encode (c :: u)))) as Hl.
      rewrite hmac_length in Hl. by destruct (hex_of_bytes _).
    + unfold hmac_sha256_hex. eapply Forall_impl; [apply hex_of_bytes_lower_hex|].
      intros c Hc E. change (code (chr 46)) with 46 in E.
      unfold is_lower_hex, is_digit in Hc. rewrite E in Hc. done.
    + eapply Forall_impl; [done|]. intros c Hc E. change (code (chr 46)) with 46 in E.
      unfold is_url_safe, is_alnum, is_digit, is_upper, is_lower in Hc. rewrite E in Hc. done.
Qed.

End Issued.

(** X6. With the secret configured and the time of issue between 0 and
    8.64e15, [createReviewToken] signs once and returns the payload half, a
    dot and the signature half.  The payload half is not empty and made of
    letters, digits, ["-"] and ["_"]; the signature half is the HMAC of the
    payload half under the secret, 64 lower-case hex digits; splitting the
    token at dots gives these two halves and nothing else; and the payload
    half decodes to the object with the order id, the lower-cased e-mail
    address and the time of issue plus 45 days, in this order. *)
Theorem createReviewToken_shape (toLowerCase : jsstring → jsstring) (env : Env)
    (secret order_id email : jsstring) (issued : Z) :
  configured (REVIEW_LINK_SECRET env) = Some secret →
  0 <= issued <= 8640000000000000 →
  ∃ payloadB64 sigHex,
    createReviewToken toLowerCase env order_id email issued
    = (Normal (payloadB64 ++ js "." ++ sigHex),
       [HmacSign (TextEncoder_encode secret) (TextEncoder_encode payloadB64)])
    ∧ payloadB64 ≠ [] ∧ Forall (fun c => is_url_safe c = true) payloadB64
    ∧ sigHex = hmac_sha256_hex secret payloadB64
    ∧ length sigHex = 64%nat ∧ Forall (fun c => is_lower_hex c = true) sigHex
    ∧ token_halves (payloadB64 ++ js "." ++ sigHex) = Some (payloadB64, sigHex)
    ∧ base64urlDecode payloadB64 ≫= JSON_parse
      = Normal (JObject [(js "order_id", JString order_id);
                         (js "email", JString (toLowerCase email));
                         (js "exp", JNumber (number_of_Z (issued + 3888000000)))]).
Proof.
  intros Hs Hi.
  destruct (review_token_parts toLowerCase env secret order_id email issued Hs Hi)
    as (u & Hsafe & Hne & Hd & Hc & Hh & _).
  exists u, (hmac_sha256_hex secret u).
  split; [done|]. split; [done|]. split; [done|]. split; [done|].
  split; [|split; [|split]]; try done.
  - unfold hmac_sha256_hex. by rewrite hex_of_bytes_length, hmac_length.
  - apply hex_of_bytes_lower_hex.
Qed.

Lemma createReviewToken_shape_witness :
  ∃ payloadB64 sigHex,
    createReviewToken (fmap ascii_lower) example_env (js "FF-2026-100001")
      (js "Ann@Example.com") 1700000000000
    = (Normal (payloadB64 ++ js "." ++ sigHex),
       [HmacSign (TextEncoder_encode (js "s3cret")) (TextEncoder_encode payloadB64)])
    ∧ payloadB64 ≠ [] ∧ Forall (fun c => is_url_safe c = true) payloadB64
    ∧ sigHex = hmac_sha256_hex (js "s3cret") payloadB64
    ∧ length sigHex = 64%nat ∧ Forall (fun c => is_lower_hex c = true) sigHex
    ∧ token_halves (payloadB64 ++ js "." ++ sigHex) = Some (payloadB64, sigHex)
    ∧ base64urlDecode payloadB64 ≫= JSON_parse
      = Normal (JObject [(js "order_id", JString (js "FF-2026-100001"));
                         (js "email", JString (ascii_lower <$> js "Ann@Example.com"));
                         (js "exp", JNumber (number_of_Z (1700000000000 + 3888000000)))]).
Proof.
  apply (createReviewToken_shape (fmap ascii_lower) example_env (js "s3cret")
           (js "FF-2026-100001") (js "Ann@Example.com") 1700000000000).
  - reflexivity.
  - lia.
Defined.

(** X7. Round trip.  With the secret configured, the token that
    [createReviewToken] returns for an order at a time between 0 and 8.64e15
    is accepted by [verifyReviewToken] for that order at every time up to
    the time of issue plus 45 days (3888000000 ms), and refused at every
    later time; for any other order id it is refused at all times.  This
    holds for every order id and e-mail address, whatever characters they
    contain. *)
Theorem review_token_round_trip (toLowerCase : jsstring → jsstring) (env : Env)
    (secret order_id email : jsstring) (issued now : Z) :
  configured (REVIEW_LINK_SECRET env) = Some secret →
  0 <= issued <= 8640000000000000 → time_value now →
  ∃ token,
    result (createReviewToken toLowerCase env order_id email issued) = Normal token
    ∧ ∀ other,
        result (verifyReviewToken env token other now)
        = Normal (bool_decide (other = order_id)
                  && bool_decide (now <= issued + 3888000000)).
Proof.
  intros Hs Hi Hn.
  destruct (review_token_parts toLowerCase env secret order_id email issued Hs Hi)
    as (u & Hsafe & Hne & Hd & Hc & Hh & _).
  eexists. split; [by rewrite Hc|]. intros other.
  rewrite (verifyReviewToken_halves env secret _ other _ _ now Hs Hh).
  rewrite bool_decide_eq_true_2 by done. rewrite Hd.
  by apply check_review_payload.
Qed.

Lemma review_token_round_trip_witness :
  ∃ token,
    result (createReviewToken (fmap ascii_lower) example_env (js "FF-2026-100001")
              (js "Ann@Example.com") 1700000000000) = Normal token
    ∧ ∀ other,
        result (verifyReviewToken example_env token other 1703888000000)
        = Normal (bool_decide (other = js "FF-2026-100001")
                  && bool_decide (1703888000000 <= 1700000000000 + 3888000000)).
Proof.
  apply (review_token_round_trip (fmap ascii_lower) example_env (js "s3cret")
           (js "FF-2026-100001") (js "Ann@Example.com") 1700000000000 1703888000000).
  - reflexivity.
  - lia.
  - unfold time_value. lia.
Defined.

(** ** [getCookie] on a [Cookie] header *)

(** The [Cookie] header that carries a list of cookies, each a name and a
    value: [name=value] joined by ["; "]. *)
Fixpoint cookie_header (pairs : list (jsstring * jsstring)) : jsstring :=
  match pairs with
  | [] => []
  | p :: rest =>
      match rest with
      | [] => p.1 ++ js "=" ++ p.2
      | _ :: _ => p.1 ++ js "=" ++ p.2 ++ js "; " ++ cookie_header rest
      end
  end.

(** The value of the first cookie of a name. *)
Fixpoint cookie_value (name : jsstring) (pairs : list (jsstring * jsstring)) : option jsstring :=
  match pairs with
  | [] => None
  | p :: rest => if decide (p.1 = name) then Some p.2 else cookie_value name rest
  end.

(** A cookie whose name has no [";"], no ["="] and no white space in front,
    and whose value has no [";"] and no white space at its end. *)
Definition cookie_ok (p : jsstring * jsstring) : Prop :=
  trimStart p.1 = p.1 ∧ trimEnd p.2 = p.2
  ∧ Forall (fun c => code c ≠ 59 ∧ code c ≠ 61) p.1
  ∧ Forall (fun c => code c ≠ 59) p.2.

Lemma trimStart_length (s : jsstring) : (length (trimStart s) <= length s)%nat.
Proof. induction s as [|c s IH]; [done|]. simpl. destruct (is_white_space c); simpl; lia. Qed.

Lemma trimStart_head (c : char16) (s : jsstring) :
  trimStart (c :: s) = c :: s → is_white_space c = false.
Proof.
  cbn [trimStart]. destruct (is_white_space c); [|done]. intros H.
  pose proof (trimStart_length s) as Hl. rewrite H in Hl. simpl in Hl. lia.
Qed.

Lemma trimStart_app_keep (a b : jsstring) (c : char16) :
  trimStart a = a → is_white_space c = false → trimStart (a ++ c :: b) = a ++ c :: b.
Proof.
  intros Ha Hc. destruct a as [|x a]; cbn [app trimStart].
  - by rewrite Hc.
  - by rewrite (trimStart_head x a Ha).
Qed.

Lemma cookie_part_trim (p : jsstring * jsstring) :
  cookie_ok p →
  trim (p.1 ++ js "=" ++ p.2) = p.1 ++ js "=" ++ p.2
  ∧ trim (chr 32 :: p.1 ++ js "=" ++ p.2) = p.1 ++ js "=" ++ p.2.
Proof.
  intros (Hn & Hv & _ & _).
  assert (Hs : trimStart (p.1 ++ js "=" ++ p.2) = p.1 ++ js "=" ++ p.2).
  { by apply trimStart_app_keep. }
  assert (He : trimEnd (p.1 ++ js "=" ++ p.2) = p.1 ++ js "=" ++ p.2).
  { unfold trimEnd in *. rewrite !rev_app_distr. change (rev (js "=")) with [chr 61].
    rewrite <- app_assoc. cbn [app].
    rewrite trimStart_app_keep; [|by rewrite <- Hv at 2; rewrite rev_involutive|done].
    change (rev p.2 ++ chr 61 :: rev p.1) with (rev p.2 ++ [chr 61] ++ rev p.1).
    rewrite app_assoc. change [chr 61] with (rev [chr 61]).
    by rewrite <- !rev_app_distr, rev_involutive. }
  unfold trim. split; [by rewrite Hs, He|].
  change (trimStart (chr 32 :: ?x)) with (trimStart x). by rewrite Hs, He.
Qed.

Lemma cookie_part_no_semicolon (p : jsstring * jsstring) (lead : jsstring) :
  cookie_ok p → lead = [] ∨ lead = [chr 32] →
  Forall (fun c => code c ≠ code (chr 59)) (lead ++ p.1 ++ js "=" ++ p.2).
Proof.
  intros (_ & _ & Hn & Hv) Hl. change (code (chr 59)) with 59.
  apply Forall_app. split; [by destruct Hl as [-> | ->]; repeat constructor|].
  apply Forall_app. split; [by eapply Forall_impl; [done|]; intros c [? _]|].
  apply Forall_app. split; [by repeat constructor|done].
Qed.

(** The parts that [getCookie] looks at. *)
Lemma cookie_parts (pairs : list (jsstring * jsstring)) :
  pairs ≠ [] → Forall cookie_ok pairs →
  ∀ lead, lead = [] ∨ lead = [chr 32] →
    trim <$> split (chr 59) (lead ++ cookie_header pairs)
    = (fun p => p.1 ++ js "=" ++ p.2) <$> pairs.
Proof.
  induction pairs as [|p pairs IH]; [done|]. intros _ Hall lead Hl.
  apply Forall_cons in Hall as [Hp Hall].
  destruct (cookie_part_trim p Hp) as [Ht Ht'].
  destruct pairs as [|q pairs].
  - cbn [cookie_header]. rewrite split_no_sep by by apply cookie_part_no_semicolon.
    cbn [fmap list_fmap]. f_equal. by destruct Hl as [-> | ->].
  - change (cookie_header (p :: q :: pairs))
      with (p.1 ++ js "=" ++ p.2 ++ js "; " ++ cookie_header (q :: pairs)).
    replace (lead ++ p.1 ++ js "=" ++ p.2 ++ js "; " ++ cookie_header (q :: pairs))
      with ((lead ++ p.1 ++ js "=" ++ p.2) ++ chr 59 :: [chr 32] ++ cookie_header (q :: pairs))
      by (by rewrite <- !app_assoc).
    rewrite split_app_sep, fmap_app, IH by (done || by right).
    rewrite split_no_sep by by apply cookie_part_no_semicolon.
    cbn [fmap list_fmap app]. f_equal. by destruct Hl as [-> | ->].
Qed.

Lemma strip_prefix_name (name n v : jsstring) :
  Forall (fun c => code c ≠ 61) name → Forall (fun c => code c ≠ 61) n →
  strip_prefix (name ++ js "=") (n ++ js "=" ++ v) = if decide (n = name) then Some v else None.
Proof.
  intros Hname. revert n. induction Hname as [|a name Ha _ IH]; intros n Hn.
  - destruct Hn as [|c n Hc _].
    + by rewrite decide_True.
    + rewrite decide_False by done. cbn [app]. change (js "=") with [chr 61].
      cbn [strip_prefix]. unfold char16_eqb. change (code (chr 61)) with 61.
      destruct (Z.eqb_spec 61 (code c)); [lia|done].
  - destruct Hn as [|c n Hc Hn].
    + rewrite decide_False by done. cbn [app]. change (js "=" ++ v) with (chr 61 :: v).
      cbn [strip_prefix]. unfold char16_eqb. change (code (chr 61)) with 61.
      destruct (Z.eqb_spec (code a) 61); [lia|done].
    + cbn [app strip_prefix]. unfold char16_eqb.
      destruct (Z.eqb_spec (code a) (code c)) as [E|E].
      * apply char16_eq in E as ->. rewrite IH by done.
        destruct (decide (n = name)) as [->|Hne].
        -- by rewrite decide_True.
        -- rewrite decide_False; [done|]. by intros [= ?].
      * rewrite decide_False; [done|]. by intros [= -> _].
Qed.

Lemma startsWith_name (name n v : jsstring) :
  Forall (fun c => code c ≠ 61) name → Forall (fun c => code c ≠ 61) n →
  startsWith (n ++ js "=" ++ v) (name ++ js "=") = bool_decide (n = name).
Proof.
  intros Hname Hn. unfold startsWith. rewrite strip_prefix_name by done.
  destruct (decide (n = name)).
  - by rewrite bool_decide_eq_true_2.
  - by rewrite bool_decide_eq_false_2.
Qed.

Lemma find_cookie_part (name : jsstring) (pairs : list (jsstring * jsstring)) :
  Forall (fun c => code c ≠ 61) name → Forall cookie_ok pairs →
  (fun found : nat * jsstring => drop (length name + 1) found.2)
    <$> list_find (fun p => startsWith p (name ++ js "=") = true)
          ((fun p => p.1 ++ js "=" ++ p.2) <$> pairs)
  = cookie_value name pairs.
Proof.
  intros Hname. induction 1 as [|p pairs Hp _ IH]; [done|].
  cbn [fmap list_fmap list_find cookie_value].
  assert (Hn : Forall (fun c => code c ≠ 61) p.1).
  { destruct Hp as (_ & _ & Hn & _). eapply Forall_impl; [done|]. by intros c [_ ?]. }
  rewrite (startsWith_name name p.1 p.2 Hname Hn).
  destruct (decide (p.1 = name)) as [E|E].
  - rewrite bool_decide_eq_true_2 by done. rewrite decide_True by done.
    cbn [fmap option_fmap option_map snd].
    rewrite E. f_equal. rewrite app_assoc.
    rewrite drop_app_length'; [done|]. rewrite length_app. done.
  - rewrite bool_decide_eq_false_2 by done. rewrite decide_False by done. rewrite <- IH.
    destruct (list_find _ _) as [[i x]|]; done.
Qed.

Lemma getCookie_pairs (req : Request) (name : jsstring) (pairs : list (jsstring * jsstring)) :
  headers_get req "Cookie" = Some (cookie_header pairs) →
  Forall cookie_ok pairs → Forall (fun c => code c ≠ 61) name →
  getCookie req name = cookie_value name pairs.
Proof.
  intros Hh Hall Hname. unfold getCookie. rewrite Hh. cbn [or_empty default].
  destruct pairs as [|p pairs].
  - by destruct name.
  - rewrite <- find_cookie_part by done.
    by rewrite <- (cookie_parts (p :: pairs) ltac:(done) Hall [] (or_introl eq_refl)).
Qed.

(** X8. For a [Cookie] header of the usual form, cookies [name=value]
    joined by ["; "], [getCookie] returns the value of the first cookie of
    the name asked for, and [null] when there is none; without a [Cookie]
    header it returns [null].  (Names without [";"] and ["="] and without
    white space in front, values without [";"] and without white space at
    the end.) *)
Theorem getCookie_lookup (req : Request) (name : jsstring) :
  Forall (fun c => code c ≠ 61) name →
  (headers_get req "Cookie" = None → getCookie req name = None)
  ∧ ∀ pairs, headers_get req "Cookie" = Some (cookie_header pairs) →
             Forall cookie_ok pairs →
             getCookie req name = cookie_value name pairs.
Proof.
  intros Hname. split.
  - intros Hh. unfold getCookie. rewrite Hh. by destruct name.
  - intros pairs Hh Hall. by apply getCookie_pairs.
Qed.

Lemma getCookie_lookup_witness :
  getCookie {| headers := {[ js "cookie" := js "theme=dark; CF_Authorization=a.b.c; x=1" ]} |}
    (js "CF_Authorization") = Some (js "a.b.c").
Proof.
  destruct (getCookie_lookup
              {| headers := {[ js "cookie" := js "theme=dark; CF_Authorization=a.b.c; x=1" ]} |}
              (js "CF_Authorization")) as [_ H].
  - vm_compute. repeat constructor; discriminate.
  - apply (H [(js "theme", js "dark"); (js "CF_Authorization", js "a.b.c"); (js "x", js "1")]).
    + reflexivity.
    + repeat constructor; vm_compute; try reflexivity; discriminate.
Defined.

(** ** [getAccessEmail] and [isAdmin] *)

Lemma ascii_binary_string (s : jsstring) :
  Forall (fun c => code c < 128) s → binary_string (TextEncoder_encode s) = s.
Proof.
  induction 1 as [|c s Hc _ IH]; [done|].
  pose proof (code_range c) as Hr.
  rewrite TextEncoder_encode_plain, binary_string_app, IH.
  - unfold utf8_of_code_point. destruct (Z.ltb_spec (code c) 128); [|lia].
    unfold binary_string. cbn [fmap list_fmap app].
    by rewrite byte_to_of_Z, chr_code by lia.
  - unfold is_high_surrogate. destruct (Z.leb_spec 55296 (code c)); [lia|done].
  - unfold is_low_surrogate. destruct (Z.leb_spec 56320 (code c)); [lia|done].
Qed.

Lemma hex_digit_ascii (d : Z) : 0 <= d < 16 → code (hex_digit d) < 128.
Proof.
  revert d. apply (forall_range (fun d => code (hex_digit d) < 128) 16). by vm_compute.
Qed.

Lemma quote_chars_ascii (s : jsstring) :
  Forall (fun c => code c < 128) s → Forall (fun c => code c < 128) (quote_chars s).
Proof.
  induction 1 as [|c s Hc Hs IH]; [done|].
  pose proof (code_range c) as Hr.
  assert (Hu : Forall (fun c => code c < 128) (js "\u" ++ lower_hex4 (code c) ++ quote_chars s)).
  { apply Forall_app. split; [by repeat constructor|]. apply Forall_app. split; [|done].
    unfold lower_hex4.
    repeat (apply Forall_cons_2; [apply hex_digit_ascii; Z.div_mod_to_equations; lia|]).
    apply Forall_nil_2. }
  rewrite quote_chars_cons. cbv zeta.
  destruct (code c =? 8); [by apply Forall_app; split; [repeat constructor|]|].
  destruct (code c =? 9); [by apply Forall_app; split; [repeat constructor|]|].
  destruct (code c =? 10); [by apply Forall_app; split; [repeat constructor|]|].
  destruct (code c =? 12); [by apply Forall_app; split; [repeat constructor|]|].
  destruct (code c =? 13); [by apply Forall_app; split; [repeat constructor|]|].
  destruct (code c =? 34); [by apply Forall_app; split; [repeat constructor|]|].
  destruct (code c =? 92); [by apply Forall_app; split; [repeat constructor|]|].
  destruct (code c <? 32); [done|].
  unfold is_high_surrogate, is_low_surrogate.
  destruct (Z.leb_spec 55296 (code c)); [lia|].
  destruct (Z.leb_spec 56320 (code c)); [lia|]. cbn [andb].
  by apply Forall_cons_2.
Qed.

(** The second segment of a cookie that names an e-mail address. *)
Lemma email_segment (e : jsstring) :
  Forall (fun c => code c < 128) e →
  ∃ p, base64urlEncode (JSON_stringify (JObject [(js "email", JString e)])) = Normal p
       ∧ Forall (fun c => is_url_safe c = true) p
       ∧ b64urlDecodeToString p ≫= JSON_parse = Normal (JObject [(js "email", JString e)]).
Proof.
  intros He.
  assert (Hall : Forall (fun m : jsstring * json => scalar m.2) [(js "email", JString e)])
    by by repeat constructor.
  destruct (base64url_codec _ (well_formed_stringify_flat _ Hall)) as (p & Hp & Hsafe & _ & _ & Hd).
  exists p. split; [done|]. split; [done|].
  rewrite Hd, ascii_binary_string.
  - cbn [mbind completion_bind]. by apply JSON_parse_stringify_flat.
  - cbn [JSON_stringify map join_comma fst snd]. unfold QuoteJSONString.
    repeat (apply Forall_app; split); try (by repeat constructor).
    by apply quote_chars_ascii.
Qed.

Section Caller.

Variable toLowerCase : jsstring → jsstring.

Lemma getAccessEmail_cookie (req : Request) (pairs : list (jsstring * jsstring))
    (h p rest : jsstring) (payload : json) (text : jsstring) :
  headers_get req "cf-access-authenticated-user-email" = None →
  headers_get req "Cookie" = Some (cookie_header pairs) → Forall cookie_ok pairs →
  cookie_value (js "CF_Authorization") pairs = Some (h ++ js "." ++ p ++ js "." ++ rest) →
  Forall (fun c => code c ≠ 46) h → Forall (fun c => is_url_safe c = true) p →
  b64urlDecodeToString p ≫= JSON_parse = Normal payload →
  ToString (or_else (Get payload (js "email")) (JString [])) = Normal text →
  getAccessEmail toLowerCase req
  = if decide (toLowerCase (trim text) = []) then None else Some (toLowerCase (trim text)).
Proof.
  intros Hh Hc Hall Hv Hdot Hsafe Hd Ht. unfold getAccessEmail.
  change (headers_get req "Cf-Access-Authenticated-User-Email")
    with (headers_get req "cf-access-authenticated-user-email").
  rewrite Hh. cbn [or_string].
  rewrite (getCookie_pairs req _ pairs Hc Hall) by by repeat constructor.
  rewrite Hv.
  assert (Hs : split (chr 46) (h ++ js "." ++ p ++ js "." ++ rest)
               = h :: p :: split (chr 46) rest).
  { change (h ++ js "." ++ p ++ js "." ++ rest) with (h ++ chr 46 :: p ++ chr 46 :: rest).
    rewrite split_app_sep, split_app_sep, (split_no_sep _ h), (split_no_sep _ p); [done| |done].
    eapply Forall_impl; [done|]. intros c Hc' E. change (code (chr 46)) with 46 in E.
    unfold is_url_safe, is_alnum, is_digit, is_upper, is_lower in Hc'. rewrite E in Hc'. done. }
  destruct (h ++ js "." ++ p ++ js "." ++ rest) as [|c jwt] eqn:Ej.
  { by destruct h. }
  rewrite Hs, Hd. cbn [mbind completion_bind]. rewrite Ht.
  cbn [mbind completion_bind mret completion_ret].
  destruct (toLowerCase (trim text)); [by rewrite decide_True|by rewrite decide_False].
Qed.

End Caller.

(** X9. [getAccessEmail] takes the caller's e-mail address from the request
    without checking any signature.  With the header
    [Cf-Access-Authenticated-User-Email] set to a non-empty string it
    returns that string, trimmed and lower-cased, whatever the cookies are.
    Without the header it reads the second segment of the
    [CF_Authorization] cookie only: for every address [e] of ASCII
    characters there is a segment [p], the base64url form of the JSON text
    of [{email: e}], such that every request whose cookie is [h.p.rest],
    for any first segment [h] and any rest, gets [e], trimmed and
    lower-cased, as its address (or [null] if that is empty). *)
Theorem getAccessEmail_unsigned (toLowerCase : jsstring → jsstring) :
  (∀ req c v, headers_get req "cf-access-authenticated-user-email" = Some (c :: v) →
              getAccessEmail toLowerCase req = Some (toLowerCase (trim (c :: v))))
  ∧ ∀ e, Forall (fun c => code c < 128) e →
      ∃ p, base64urlEncode (JSON_stringify (JObject [(js "email", JString e)])) = Normal p
           ∧ ∀ req pairs h rest,
               headers_get req "cf-access-authenticated-user-email" = None →
               headers_get req "Cookie" = Some (cookie_header pairs) →
               Forall cookie_ok pairs →
               cookie_value (js "CF_Authorization") pairs
               = Some (h ++ js "." ++ p ++ js "." ++ rest) →
               Forall (fun c => code c ≠ 46) h →
               getAccessEmail toLowerCase req
               = if decide (toLowerCase (trim e) = []) then None
                 else Some (toLowerCase (trim e)).
Proof.
  split.
  - intros req c v Hh. unfold getAccessEmail. by rewrite Hh.
  - intros e He. destruct (email_segment e He) as (p & Hp & Hsafe & Hd).
    exists p. split; [done|]. intros req pairs h rest Hh Hc Hall Hv Hdot.
    apply (getAccessEmail_cookie toLowerCase req pairs h p rest _ e Hh Hc Hall Hv Hdot Hsafe Hd).
    cbn [Get]. rewrite filter_cons_True by by apply bool_decide_spec.
    cbn [last fmap option_fmap option_map snd]. apply ToString_or_else_string.
Qed.

(** X10. [isAdmin] is true exactly when [getAccessEmail] gives a non-empty
    address that is one of the entries of [ADMIN_EMAIL], lower-cased, cut at
    commas and trimmed.  So a request without an address is never an
    administrator, and with [ADMIN_EMAIL] unset or empty nobody is. *)
Theorem isAdmin_exactly (toLowerCase : jsstring → jsstring) (req : Request)
    (admin_email : option jsstring) :
  (isAdmin toLowerCase req admin_email = true
   ↔ ∃ email, getAccessEmail toLowerCase req = Some email ∧ email ≠ []
              ∧ email ∈ trim <$> split (chr 44) (trim (toLowerCase (or_empty admin_email))))
  ∧ (getAccessEmail toLowerCase req = None → isAdmin toLowerCase req admin_email = false)
  ∧ (toLowerCase [] = [] → admin_email = None ∨ admin_email = Some [] →
     isAdmin toLowerCase req admin_email = false).
Proof.
  assert (Hiff : isAdmin toLowerCase req admin_email = true
            ↔ ∃ email, getAccessEmail toLowerCase req = Some email ∧ email ≠ []
                ∧ email ∈ trim <$> split (chr 44) (trim (toLowerCase (or_empty admin_email)))).
  { unfold isAdmin. destruct (getAccessEmail toLowerCase req) as [[|c e]|].
    - split; [done|]. by intros (email & [= <-] & ? & _).
    - set (raw := trim (toLowerCase (or_empty admin_email))).
      destruct raw as [|r raw'] eqn:Er; cbn [truthy_string negb].
      + split; [done|]. intros (email & [= <-] & _ & Hin).
        change (trim <$> split (chr 44) []) with [@nil char16] in Hin.
        by apply list_elem_of_singleton in Hin.
      + rewrite bool_decide_eq_true, list_elem_of_filter. split.
        * intros [_ Hin]. by exists (c :: e).
        * by intros (email & [= <-] & _ & Hin).
    - split; [done|]. by intros (email & ? & _). }
  split; [done|]. split.
  - intros Hn. unfold isAdmin. by rewrite Hn.
  - intros Hl Ha. apply not_true_is_false. intros H. apply Hiff in H as (email & _ & Hne & Hin).
    assert (trim (toLowerCase (or_empty admin_email)) = []) as Hr.
    { by destruct Ha as [-> | ->]; unfold or_empty; simpl; rewrite Hl. }
    rewrite Hr in Hin. change (trim <$> split (chr 44) []) with [@nil char16] in Hin.
    by apply list_elem_of_singleton in Hin.
Qed.

(** ** [clampInt] (index.ts, lines 1387-1391) *)

(** [parseInt(s, 10)]: white space in front is skipped, a sign is read, and
    the digits that follow are taken as far as they go; without a digit the
    result is NaN.  The value is the Number nearest to the integer read. *)
Definition parseInt_10 (s : jsstring) : number :=
  let s1 := trimStart s in
  let '(negative, s2) :=
    match s1 with
    | c :: r =>
        if code c =? 45 then (true, r) else if code c =? 43 then (false, r) else (false, s1)
    | [] => (false, s1)
    end in
  match (span is_digit s2).1 with
  | [] => NaN
  | d :: ds => round_ratio negative (digits_value 10 (d :: ds)) 1
  end.

Definition is_negative (x : number) : bool :=
  match x with
  | NaN => false
  | Inf s => s
  | Dbl s _ _ => s
  end.

(** [Math.max(a, b)] and [Math.min(a, b)]: NaN if one of them is, and [+0]
    above [-0]. *)
Definition Math_max (a b : number) : number :=
  match a, b with
  | NaN, _ | _, NaN => NaN
  | _, _ =>
      if number_ltb a b then b
      else if number_ltb b a then a
      else if is_negative a then b else a
  end.

Definition Math_min (a b : number) : number :=
  match a, b with
  | NaN, _ | _, NaN => NaN
  | _, _ =>
      if number_ltb a b then a
      else if number_ltb b a then b
      else if is_negative a then a else b
  end.

(** [v] is [undefined] ([None]), a string, or another value of a JSON body;
    a query parameter is a string or [null]. *)
Definition clampInt (v : option json) (fallback min max : number) : completion number :=
  n ← match v with
       | Some (JString s) => Normal (parseInt_10 s)
       | Some x => ToNumber x
       | None => Normal NaN
       end;
  if negb (Number_isFinite n) then Normal fallback
  else Normal (Math_min (Math_max n min) max).

(** *** Comparison, [Math.max] and [Math.min] on integers *)

Lemma number_ltb_Z (a b : Z) :
  - 2 ^ 53 < a < 2 ^ 53 → - 2 ^ 53 < b < 2 ^ 53 →
  number_ltb (number_of_Z a) (number_of_Z b) = (a <? b).
Proof.
  intros Ha Hb.
  destruct (number_of_Z_repr a Ha) as (m & e & -> & He & Hm).
  destruct (number_of_Z_repr b Hb) as (n & f & -> & Hf & Hn).
  unfold number_ltb. rewrite Hm, Hn. set (k := Z.min e f).
  assert (Hk : k <= e ∧ k <= f) by lia. destruct Hk as [Hke Hkf].
  assert (0 < 2 ^ (- k)) by (apply Z.pow_pos_nonneg; lia).
  replace (a * 2 ^ (- e) * 2 ^ (e - k)) with (a * 2 ^ (- k)).
  2:{ rewrite <- Z.mul_assoc, <- Z.pow_add_r by lia. do 2 f_equal. lia. }
  replace (b * 2 ^ (- f) * 2 ^ (f - k)) with (b * 2 ^ (- k)).
  2:{ rewrite <- Z.mul_assoc, <- Z.pow_add_r by lia. do 2 f_equal. lia. }
  destruct (Z.ltb_spec a b); [apply Z.ltb_lt|apply Z.ltb_ge]; nia.
Qed.

Lemma number_of_Z_finite (z : Z) :
  - 2 ^ 53 < z < 2 ^ 53 → ∃ s m e, number_of_Z z = Dbl s m e.
Proof. intros Hz. destruct (number_of_Z_repr z Hz) as (m & e & -> & _). eauto. Qed.

Lemma Math_max_Z (a b : Z) :
  - 2 ^ 53 < a < 2 ^ 53 → - 2 ^ 53 < b < 2 ^ 53 →
  Math_max (number_of_Z a) (number_of_Z b) = number_of_Z (Z.max a b).
Proof.
  intros Ha Hb. pose proof (number_ltb_Z a b Ha Hb) as Hab.
  pose proof (number_ltb_Z b a Hb Ha) as Hba.
  destruct (number_of_Z_finite a Ha) as (s & m & e & Ea).
  destruct (number_of_Z_finite b Hb) as (t & n & f & Eb).
  unfold Math_max. rewrite Ea, Eb in *. rewrite Hab, Hba.
  destruct (Z.ltb_spec a b); [by rewrite Z.max_r, Eb by lia|].
  destruct (Z.ltb_spec b a); [by rewrite Z.max_l, Ea by lia|].
  assert (a = b) as -> by lia. rewrite Z.max_id.
  assert (Dbl s m e = Dbl t n f) as E by congruence. rewrite Eb, <- E.
  by destruct (is_negative _).
Qed.

Lemma Math_min_Z (a b : Z) :
  - 2 ^ 53 < a < 2 ^ 53 → - 2 ^ 53 < b < 2 ^ 53 →
  Math_min (number_of_Z a) (number_of_Z b) = number_of_Z (Z.min a b).
Proof.
  intros Ha Hb. pose proof (number_ltb_Z a b Ha Hb) as Hab.
  pose proof (number_ltb_Z b a Hb Ha) as Hba.
  destruct (number_of_Z_finite a Ha) as (s & m & e & Ea).
  destruct (number_of_Z_finite b Hb) as (t & n & f & Eb).
  unfold Math_min. rewrite Ea, Eb in *. rewrite Hab, Hba.
  destruct (Z.ltb_spec a b); [by rewrite Z.min_l, Ea by lia|].
  destruct (Z.ltb_spec b a); [by rewrite Z.min_r, Eb by lia|].
  assert (a = b) as -> by lia. rewrite Z.min_id.
  assert (Dbl s m e = Dbl t n f) as E by congruence. rewrite Eb, <- E.
  by destruct (is_negative _).
Qed.

Lemma number_ltb_asym (x y : number) : number_ltb x y = true → number_ltb y x = false.
Proof.
  destruct x as [| |s m e], y as [| |t n f]; try done.
  - by destruct negative, negative0.
  - cbn. by intros ->.
  - cbn. by intros ->%negb_true_iff.
  - unfold number_ltb. rewrite (Z.min_comm f e). intros H%Z.ltb_lt. apply Z.ltb_ge. lia.
Qed.

Lemma number_ltb_irrefl (x : number) : number_ltb x x = false.
Proof.
  destruct (number_ltb x x) eqn:E; [|done]. by rewrite (number_ltb_asym x x E) in E.
Qed.

(** A finite number clamped between two finite limits lies between them. *)
Lemma clamp_between (n lo hi : number) :
  Number_isFinite n = true → Number_isFinite lo = true → Number_isFinite hi = true →
  number_ltb hi lo = false →
  let r := Math_min (Math_max n lo) hi in
  number_ltb r lo = false ∧ number_ltb hi r = false ∧ Number_isFinite r = true.
Proof.
  intros Hn Hlo Hhi Hle.
  destruct n as [| |s m e]; try done. destruct lo as [| |t n f]; try done.
  destruct hi as [| |u p g]; try done. cbv zeta.
  set (x := Dbl s m e) in *. set (lo := Dbl t n f) in *. set (hi := Dbl u p g) in *.
  assert (HA : ∃ A, Math_max x lo = A ∧ number_ltb A lo = false ∧ Number_isFinite A = true).
  { unfold Math_max, x, lo. fold x lo.
    destruct (number_ltb x lo) eqn:E1; [by eauto using number_ltb_irrefl|].
    destruct (number_ltb lo x) eqn:E2; [by eauto|].
    destruct (is_negative x); by eauto using number_ltb_irrefl. }
  destruct HA as (A & -> & HA1 & HA2).
  destruct A as [| |a1 a2 a3]; try done. set (A := Dbl a1 a2 a3) in *.
  unfold Math_min, A, hi. fold A hi.
  destruct (number_ltb A hi) eqn:E1.
  { split; [done|]. split; [by apply number_ltb_asym|done]. }
  destruct (number_ltb hi A) eqn:E2.
  { split; [done|]. split; [apply number_ltb_irrefl|done]. }
  destruct (is_negative A); (split; [done|]); (split; [|done]);
    [done|apply number_ltb_irrefl].
Qed.

(** *** [parseInt] on the digits of an integer *)

Lemma digit_not_space (c : char16) :
  is_digit c = true → is_white_space c = false ∧ code c ≠ 45 ∧ code c ≠ 43.
Proof.
  unfold is_digit, is_white_space. intros [H1 H2]%andb_prop.
  apply Z.leb_le in H1, H2. cbv zeta.
  repeat match goal with
         | |- context [code c =? ?z] => rewrite (proj2 (Z.eqb_neq (code c) z)) by lia
         end.
  destruct (Z.leb_spec (code c) 13); [lia|].
  destruct (Z.leb_spec 8192 (code c)); [lia|].
  rewrite !andb_false_r. cbn [orb andb]. split; [done|lia].
Qed.

Lemma decimal_digits_shape (n : Z) :
  0 <= n → ∃ d ds, decimal_digits n = d :: ds ∧ Forall (fun c => is_digit c = true) (d :: ds).
Proof.
  intros Hn. destruct (Z.eq_dec n 0) as [->|Hne].
  - exists (chr 48), []. split; [done|]. by repeat constructor.
  - destruct (decimal_digits_head n ltac:(lia)) as (d & ds & E & _).
    exists d, ds. split; [done|]. rewrite <- E. apply uint_chars_digits.
Qed.

Lemma trimStart_spaces (lead s : jsstring) :
  Forall (fun c => is_white_space c = true) lead → trimStart (lead ++ s) = trimStart s.
Proof. induction 1 as [|c lead Hc _ IH]; [done|]. cbn [app trimStart]. by rewrite Hc. Qed.

Lemma parseInt_digits (lead tail : jsstring) (n : Z) :
  Forall (fun c => is_white_space c = true) lead → 0 <= n < 2 ^ 53 →
  match tail with c :: _ => is_digit c = false | [] => True end →
  parseInt_10 (lead ++ decimal_digits n ++ tail) = number_of_Z n.
Proof.
  intros Hlead Hn Htail. unfold parseInt_10. rewrite trimStart_spaces by done.
  destruct (decimal_digits_shape n ltac:(lia)) as (d & ds & E & Hd).
  pose proof (decimal_digits_value n ltac:(lia)) as Hv.
  rewrite E in *. pose proof Hd as Hd'. apply Forall_cons in Hd' as [Hd0 _].
  destruct (digit_not_space d Hd0) as (Hw & H45 & H43).
  cbn [app trimStart]. rewrite Hw.
  destruct (Z.eqb_spec (code d) 45); [done|]. destruct (Z.eqb_spec (code d) 43); [done|].
  change (d :: ds ++ tail) with ((d :: ds) ++ tail). rewrite span_digits by done.
  cbn [fst]. rewrite Hv. unfold number_of_Z.
  destruct (Z.ltb_spec n 0); [lia|]. by rewrite Z.abs_eq by lia.
Qed.

(** X11. [clampInt] with integer limits [lo <= hi].  Whatever the value
    is, the result is the fallback or a finite number from [lo] to [hi].
    For a string that starts, after white space, with the digits of an
    integer [n] it is [n] clamped to the two limits.  For [null], which is
    what a missing query parameter is, it is 0 clamped to the limits and
    not the fallback; the fallback is returned for [undefined] and for a
    string without digits.  A number of a JSON body that lies between the
    limits is returned as it is, integer or not. *)
Theorem clampInt_limits (fallback : number) (lo hi : Z) :
  - 2 ^ 53 < lo → lo <= hi → hi < 2 ^ 53 →
  (∀ v r, clampInt v fallback (number_of_Z lo) (number_of_Z hi) = Normal r →
          r = fallback
          ∨ (number_ltb r (number_of_Z lo) = false ∧ number_ltb (number_of_Z hi) r = false
             ∧ Number_isFinite r = true))
  ∧ (∀ lead n tail,
       Forall (fun c => is_white_space c = true) lead → 0 <= n < 2 ^ 53 →
       match tail with c :: _ => is_digit c = false | [] => True end →
       clampInt (Some (JString (lead ++ decimal_digits n ++ tail))) fallback
         (number_of_Z lo) (number_of_Z hi)
       = Normal (number_of_Z (Z.min (Z.max n lo) hi)))
  ∧ clampInt (Some JNull) fallback (number_of_Z lo) (number_of_Z hi)
    = Normal (number_of_Z (Z.min (Z.max 0 lo) hi))
  ∧ clampInt None fallback (number_of_Z lo) (number_of_Z hi) = Normal fallback
  ∧ (∀ s, (span is_digit s).1 = [] →
          match s with c :: _ => is_white_space c = false ∧ code c ≠ 45 ∧ code c ≠ 43
                  | [] => True end →
          clampInt (Some (JString s)) fallback (number_of_Z lo) (number_of_Z hi)
          = Normal fallback)
  ∧ (∀ x, number_ltb (number_of_Z lo) x = true → number_ltb x (number_of_Z hi) = true →
          clampInt (Some (JNumber x)) fallback (number_of_Z lo) (number_of_Z hi) = Normal x).
Proof.
  intros Hlo Hle Hhi.
  destruct (number_of_Z_finite lo ltac:(lia)) as (s1 & m1 & e1 & Elo).
  destruct (number_of_Z_finite hi ltac:(lia)) as (s2 & m2 & e2 & Ehi).
  assert (Hcmp : number_ltb (number_of_Z hi) (number_of_Z lo) = false).
  { rewrite number_ltb_Z by lia. apply Z.ltb_ge. lia. }
  assert (Hint : ∀ n, 0 <= n < 2 ^ 53 →
            (if negb (Number_isFinite (number_of_Z n)) then Normal fallback
             else Normal (Math_min (Math_max (number_of_Z n) (number_of_Z lo)) (number_of_Z hi)))
            = Normal (number_of_Z (Z.min (Z.max n lo) hi))).
  { intros n Hn. destruct (number_of_Z_finite n ltac:(lia)) as (s & m & e & En).
    rewrite En at 1. cbn [Number_isFinite negb].
    by rewrite Math_max_Z, Math_min_Z by lia. }
  split; [|split; [|split; [|split; [|split]]]].
  - intros v r. unfold clampInt.
    destruct (match v with Some (JString s) => _ | Some _ => _ | None => _ end) as [n|];
      [|done].
    cbn [mbind completion_bind].
    destruct (Number_isFinite n) eqn:En; cbn [negb]; [|intros [= <-]; by left].
    intros [= <-]. right. apply clamp_between; try done; by rewrite ?Elo, ?Ehi.
  - intros lead n tail Hl Hn Ht. unfold clampInt. rewrite parseInt_digits by done.
    cbn [mbind completion_bind]. by apply Hint.
  - unfold clampInt. cbn [ToNumber mbind completion_bind].
    change (Dbl false 0 0) with (number_of_Z 0). apply Hint. lia.
  - done.
  - intros s Hs Hc. unfold clampInt, parseInt_10.
    assert (trimStart s = s) as ->.
    { destruct s as [|c s]; [done|]. cbn [trimStart]. by destruct Hc as (-> & _). }
    destruct s as [|c s]; [done|]. destruct Hc as (_ & H45 & H43).
    destruct (Z.eqb_spec (code c) 45); [done|]. destruct (Z.eqb_spec (code c) 43); [done|].
    by rewrite Hs.
  - intros x H1 H2. unfold clampInt. cbn [ToNumber mbind completion_bind].
    rewrite Elo, Ehi in *.
    destruct x as [| |s m e]; try done.
    + by destruct negative.
    + cbn [Number_isFinite negb]. unfold Math_max.
      rewrite (number_ltb_asym _ _ H1), H1. unfold Math_min. by rewrite H2.
Qed.

Lemma clampInt_limits_witness :
  clampInt (Some (JString (js " 25"))) (number_of_Z 10) (number_of_Z 1) (number_of_Z 50)
  = Normal (number_of_Z 25)
  ∧ clampInt (Some JNull) (number_of_Z 10) (number_of_Z 1) (number_of_Z 50)
    = Normal (number_of_Z 1)
  ∧ clampInt (Some (JNumber (round_ratio false 5 2))) (number_of_Z 1) (number_of_Z 1)
      (number_of_Z 10)
    = Normal (round_ratio false 5 2).
Proof.
  destruct (clampInt_limits (number_of_Z 10) 1 50) as (_ & H2 & H3 & _); [lia|lia|lia|].
  destruct (clampInt_limits (number_of_Z 1) 1 10) as (_ & _ & _ & _ & _ & H6); [lia|lia|lia|].
  split; [|split].
  - apply (H2 (js " ") 25 []); [by repeat constructor|lia|exact I].
  - exact H3.
  - apply H6; reflexivity.
Defined.

(** ** [safeJson], [normalizeBlogContent] and [safeJsonArray]
    (index.ts, lines 48-110 and 1393-1402)

    A value of type [any] is [undefined] ([None]) or a value that
    [JSON.parse] can return; the content of a post comes from the body of a
    request or, as a string, from the database. *)

(** [typeof v === "object"] for a [v] that is not [null]. *)
Definition is_object (v : json) : bool :=
  match v with
  | JArray _ | JObject _ => true
  | _ => false
  end.

(** [safeJson(s, fallback)]: [JSON.parse(String(s ?? ""))], and the fallback
    when that is [null] or throws. *)
Definition safeJson (s : option json) (fallback : json) : json :=
  let parsed :=
    text ← ToString (match s with
                     | None | Some JNull => JString []
                     | Some x => x
                     end);
    JSON_parse text in
  match parsed with
  | Normal JNull => fallback
  | Normal v => v
  | Throw _ => fallback
  end.

Inductive block : Set :=
| BlockH2 (text : jsstring)
| BlockP (text : jsstring)
| BlockUl (items : list jsstring)
| BlockImg (url : jsstring) (alt caption : option jsstring)
| BlockImage (url alt : jsstring) (caption : option jsstring).

Record BlogContent : Set := {
  excerpt : option jsstring;
  coverImage : option jsstring;
  coverAlt : option jsstring;
  blocks : list block
}.

(** [typeof obj.key === "string" ? obj.key.trim() : undefined] *)
Definition string_field (obj : json) (key : string) : option jsstring :=
  match Get obj (js key) with
  | Some (JString s) => Some (trim s)
  | _ => None
  end.

(** [String(b.key || "").trim()] *)
Definition text_field (b : json) (key : string) : completion jsstring :=
  trim <$> ToString (or_else (Get b (js key)) (JString [])).

(** [a.map(f)] for an [f] that may throw. *)
Fixpoint map_completion {A B} (f : A → completion B) (l : list A) : completion (list B) :=
  match l with
  | [] => Normal []
  | x :: r => y ← f x; ys ← map_completion f r; Normal (y :: ys)
  end.

(** One turn of the loop over the blocks: the block that is pushed, if any. *)
Definition normalize_block (b : json) : completion (option block) :=
  if negb (ToBoolean b) || negb (is_object b) then Normal None
  else
    t ← text_field b "type";
    if bool_decide (t = js "h2") then
      text ← text_field b "text";
      Normal (if truthy_string text then Some (BlockH2 text) else None)
    else if bool_decide (t = js "p") then
      text ← text_field b "text";
      Normal (Some (BlockP text))
    else if bool_decide (t = js "ul") then
      items ← match Get b (js "items") with
               | Some (JArray xs) =>
                   filter (fun s => truthy_string s = true)
                     <$> map_completion (fun x => trim <$> ToString x) xs
               | _ => Normal []
               end;
      Normal (Some (BlockUl items))
    else if bool_decide (t = js "img") || bool_decide (t = js "image") then
      url ← text_field b "url";
      if negb (truthy_string url) then Normal None
      else
        alt ← text_field b "alt";
        let caption := string_field b "caption" in
        if bool_decide (t = js "img")
        then Normal (Some (BlockImg url (if truthy_string alt then Some alt else None) caption))
        else Normal (Some (BlockImage url alt caption))
    else Normal None.

Definition normalizeBlogContent (input : option json) : completion BlogContent :=
  let obj :=
    match input with
    | Some (JString s) => Some (safeJson input JNull)
    | _ => input
    end in
  let fallback := {| excerpt := None; coverImage := None; coverAlt := None; blocks := [] |} in
  match obj with
  | Some o =>
      if negb (ToBoolean o) || negb (is_object o) then Normal fallback
      else
        let blocksIn :=
          match Get o (js "blocks") with
          | Some (JArray bs) => bs
          | _ => []
          end in
        pushed ← map_completion normalize_block blocksIn;
        Normal {| excerpt := string_field o "excerpt";
                  coverImage := string_field o "coverImage";
                  coverAlt := string_field o "coverAlt";
                  blocks := omap id pushed |}
  | None => Normal fallback
  end.

(** [safeJsonArray(v)]: the strings of an array, or of the array that the
    text [v] stands for, without the empty ones. *)
Definition strings_of (arr : list json) : completion (list jsstring) :=
  filter (fun s => truthy_string s = true) <$> map_completion ToString arr.

Definition safeJsonArray (v : option json) : completion (list jsstring) :=
  match v with
  | None => Normal []
  | Some x =>
      if negb (ToBoolean x) then Normal []
      else
        match x with
        | JArray arr => strings_of arr
        | _ =>
            let tried :=
              text ← ToString x;
              arr ← JSON_parse text;
              match arr with
              | JArray a => strings_of a
              | _ => Normal []
              end in
            Normal (match tried with Normal l => l | Throw _ => [] end)
        end
  end.

(** ** [trim] twice *)

Lemma trimStart_idem (s : jsstring) : trimStart (trimStart s) = trimStart s.
Proof.
  induction s as [|c s IH]; [done|]. cbn [trimStart].
  destruct (is_white_space c) eqn:E; [done|]. cbn [trimStart]. by rewrite E.
Qed.

Lemma trimStart_snoc (a : jsstring) (c : char16) :
  is_white_space c = false → ∃ u, trimStart (a ++ [c]) = u ++ [c].
Proof.
  intros Hc. induction a as [|x a IH].
  - exists []. cbn. by rewrite Hc.
  - cbn [app trimStart]. destruct (is_white_space x); [done|]. by exists (x :: a).
Qed.

Lemma trimStart_trimEnd (t : jsstring) : trimStart t = t → trimStart (trimEnd t) = trimEnd t.
Proof.
  intros Ht. destruct t as [|c t]; [done|].
  pose proof (trimStart_head c t Ht) as Hc.
  unfold trimEnd. cbn [rev]. destruct (trimStart_snoc (rev t) c Hc) as (u & ->).
  rewrite rev_app_distr. cbn [rev app trimStart]. by rewrite Hc.
Qed.

Lemma trimEnd_idem (s : jsstring) : trimEnd (trimEnd s) = trimEnd s.
Proof. unfold trimEnd. by rewrite rev_involutive, trimStart_idem. Qed.

Lemma trim_idem (s : jsstring) : trim (trim s) = trim s.
Proof.
  unfold trim. rewrite trimStart_trimEnd by apply trimStart_idem. apply trimEnd_idem.
Qed.

(** ** What [normalizeBlogContent] returns *)

Definition block_ok (b : block) : Prop :=
  match b with
  | BlockH2 text => text ≠ [] ∧ trim text = text
  | BlockP text => trim text = text
  | BlockUl items => Forall (fun i => i ≠ [] ∧ trim i = i) items
  | BlockImg url alt caption =>
      url ≠ [] ∧ trim url = url
      ∧ (∀ a, alt = Some a → a ≠ [] ∧ trim a = a)
      ∧ (∀ c, caption = Some c → trim c = c)
  | BlockImage url alt caption =>
      url ≠ [] ∧ trim url = url ∧ trim alt = alt
      ∧ (∀ c, caption = Some c → trim c = c)
  end.

Definition content_ok (c : BlogContent) : Prop :=
  (∀ s, excerpt c = Some s → trim s = s)
  ∧ (∀ s, coverImage c = Some s → trim s = s)
  ∧ (∀ s, coverAlt c = Some s → trim s = s)
  ∧ Forall block_ok (blocks c).

Lemma string_field_trimmed (obj : json) (key : string) (s : jsstring) :
  string_field obj key = Some s → trim s = s.
Proof.
  unfold string_field. destruct (Get obj (js key)) as [[| | |x| |]|]; try done.
  intros [= <-]. apply trim_idem.
Qed.

Lemma text_field_trimmed (b : json) (key : string) (s : jsstring) :
  text_field b key = Normal s → trim s = s.
Proof.
  unfold text_field. destruct (ToString _) as [x|]; [|done]. intros [= <-]. apply trim_idem.
Qed.

Lemma map_completion_Forall {A B} (f : A → completion B) (P : B → Prop) (l : list A)
    (r : list B) :
  (∀ x y, f x = Normal y → P y) → map_completion f l = Normal r → Forall P r.
Proof.
  intros Hf. revert r. induction l as [|x l IH]; intros r; cbn [map_completion].
  - by intros [= <-].
  - destruct (f x) as [y|] eqn:Ey; [|done]. cbn [mbind completion_bind].
    destruct (map_completion f l) as [ys|]; [|done]. cbn [mbind completion_bind].
    intros [= <-]. constructor; eauto.
Qed.

Lemma map_completion_length {A B} (f : A → completion B) (l : list A) (r : list B) :
  map_completion f l = Normal r → length r = length l.
Proof.
  revert r. induction l as [|x l IH]; intros r; cbn [map_completion].
  - by intros [= <-].
  - destruct (f x) as [y|]; [|done]. cbn [mbind completion_bind].
    destruct (map_completion f l) as [ys|]; [|done]. cbn [mbind completion_bind].
    intros [= <-]. simpl. f_equal. by apply IH.
Qed.

Lemma omap_length_le {A B} (f : A → option B) (l : list A) :
  (length (omap f l) <= length l)%nat.
Proof. induction l as [|x l IH]; [done|]. cbn. destruct (f x); simpl; lia. Qed.

Lemma normalize_block_ok (b : json) (x : block) :
  normalize_block b = Normal (Some x) → block_ok x.
Proof.
  unfold normalize_block. destruct (negb (ToBoolean b) || negb (is_object b)); [done|].
  destruct (text_field b "type") as [t|]; [|done]. cbn [mbind completion_bind].
  destruct (bool_decide (t = js "h2")).
  { destruct (text_field b "text") as [text|] eqn:Et; [|done]. cbn [mbind completion_bind].
    destruct text as [|c text]; [done|]. intros [= <-]. split; [done|].
    by eapply text_field_trimmed. }
  destruct (bool_decide (t = js "p")).
  { destruct (text_field b "text") as [text|] eqn:Et; [|done]. cbn [mbind completion_bind].
    intros [= <-]. by eapply text_field_trimmed. }
  destruct (bool_decide (t = js "ul")).
  { destruct (match Get b (js "items") with Some (JArray xs) => _ | _ => _ end)
      as [items|] eqn:Ei; [|done].
    cbn [mbind completion_bind]. intros [= <-]. cbn [block_ok].
    destruct (Get b (js "items")) as [[| | | |xs|]|]; try (by injection Ei as <-).
    destruct (map_completion _ xs) as [ys|] eqn:Ey; [|done].
    injection Ei as <-.
    apply (map_completion_Forall _ (fun s => trim s = s)) in Ey.
    - apply Forall_forall. intros i [Hi Hin]%list_elem_of_filter.
      split; [by destruct i|]. rewrite Forall_forall in Ey. by apply Ey.
    - intros v y Hy. destruct (ToString v); [|done]. injection Hy as <-. apply trim_idem. }
  destruct (bool_decide (t = js "img") || bool_decide (t = js "image")); [|done].
  destruct (text_field b "url") as [url|] eqn:Eu; [|done]. cbn [mbind completion_bind].
  destruct url as [|c url]; [done|]. cbn [truthy_string negb].
  destruct (text_field b "alt") as [alt|] eqn:Ea; [|done]. cbn [mbind completion_bind].
  pose proof (text_field_trimmed _ _ _ Eu) as Hu.
  pose proof (text_field_trimmed _ _ _ Ea) as Hal.
  destruct (bool_decide (t = js "img")); intros [= <-]; cbn [block_ok].
  - split; [done|]. split; [done|]. split.
    + intros a. destruct alt as [|d alt]; [done|]. by intros [= <-].
    + intros s. apply string_field_trimmed.
  - split; [done|]. split; [done|]. split; [done|]. intros s. apply string_field_trimmed.
Qed.

Lemma normalize_blocks_ok (l : list json) (pushed : list (option block)) :
  map_completion normalize_block l = Normal pushed → Forall block_ok (omap id pushed).
Proof.
  revert pushed. induction l as [|b l IH]; intros pushed; cbn [map_completion].
  - by intros [= <-].
  - destruct (normalize_block b) as [y|] eqn:Ey; [|done]. cbn [mbind completion_bind].
    destruct (map_completion normalize_block l) as [ys|] eqn:Eys; [|done].
    cbn [mbind completion_bind]. intros [= <-]. cbn.
    destruct y as [x|]; cbn; [|by apply IH].
    constructor; [by eapply normalize_block_ok|by apply IH].
Qed.

Lemma normalizeBlogContent_ok (input : option json) (c : BlogContent) :
  normalizeBlogContent input = Normal c → content_ok c.
Proof.
  unfold normalizeBlogContent.
  set (obj := match input with Some (JString s) => _ | _ => input end).
  destruct obj as [o|]; [|by intros [= <-]; repeat split].
  destruct (negb (ToBoolean o) || negb (is_object o)); [by intros [= <-]; repeat split|].
  destruct (map_completion normalize_block _) as [pushed|] eqn:Ep; [|done].
  cbn [mbind completion_bind]. intros [= <-].
  split; [|split; [|split]]; cbn [excerpt coverImage coverAlt blocks];
    try (intros s; apply string_field_trimmed).
  by eapply normalize_blocks_ok.
Qed.

(** X12. What [normalizeBlogContent] returns, when it returns: the excerpt,
    cover image and cover text are trimmed strings or absent; a heading has
    a text that is trimmed and not empty; a paragraph has a trimmed text; the
    items of a list are trimmed and not empty; a picture has a URL that is
    trimmed and not empty, and trimmed texts; and there are at most as many
    blocks as the input has.  An input that is [undefined], [null], a number
    or a text that is no JSON gives the content without blocks.  The
    function throws, a [TypeError], on the object
    [{blocks: [{type: {toString: null}}]}]. *)
Theorem normalizeBlogContent_invariants :
  (∀ input c, normalizeBlogContent input = Normal c →
     content_ok c
     ∧ ∀ o, (input = Some o ∧ (∀ s, o ≠ JString s)
             ∨ ∃ s, input = Some (JString s) ∧ JSON_parse s = Normal o) →
            ∀ bs, Get o (js "blocks") = Some (JArray bs) →
                  (length (blocks c) <= length bs)%nat)
  ∧ (∀ input, input = None ∨ input = Some JNull ∨ (∃ x, input = Some (JNumber x))
              ∨ (∃ s e, input = Some (JString s) ∧ JSON_parse s = Throw e) →
       normalizeBlogContent input
       = Normal {| excerpt := None; coverImage := None; coverAlt := None; blocks := [] |})
  ∧ normalizeBlogContent
      (Some (JObject [(js "blocks",
                       JArray [JObject [(js "type", JObject [(js "toString", JNull)])]])]))
    = Throw TypeError.
Proof.
  split; [|split].
  - intros input c. unfold normalizeBlogContent.
    set (obj := match input with Some (JString s) => _ | _ => input end).
    destruct obj as [o|] eqn:Eo; cycle 1.
    { intros [= <-]. split; [by repeat split|].
      intros o [[-> Hs]|(s & -> & Hp)]; [by destruct o|done]. }
    destruct (negb (ToBoolean o) || negb (is_object o)) eqn:Eobj.
    { intros [= <-]. split; [by repeat split|]. intros; simpl; lia. }
    destruct (map_completion normalize_block _) as [pushed|] eqn:Ep; [|done].
    cbn [mbind completion_bind]. intros [= <-]. split.
    + apply (normalizeBlogContent_ok input). unfold normalizeBlogContent. fold obj.
      rewrite Eo, Eobj, Ep. done.
    + intros o' Ho bs Hbs. cbn [blocks].
      assert (o = o') as <-.
      { destruct Ho as [[-> Hs]|(s & -> & Hp)].
        - destruct o'; try (by injection Eo); by destruct (Hs s).
        - subst obj. injection Eo as <-. unfold safeJson. cbn [ToString mbind completion_bind].
          rewrite Hp. destruct o'; try done. }
      rewrite Hbs in Ep. apply map_completion_length in Ep. rewrite <- Ep.
      apply omap_length_le.
  - intros input [->|[->|[(x & ->)|(s & e & -> & Hp)]]]; [done|done| |].
    + unfold normalizeBlogContent. cbn [is_object negb]. by rewrite orb_true_r.
    + unfold normalizeBlogContent, safeJson. cbn [ToString mbind completion_bind].
      by rewrite Hp.
  - done.
Qed.

(** ** [JSON.parse] after [JSON.stringify], for values without numbers *)

(** Values made of [null], booleans, strings, arrays and objects. *)
Fixpoint textual (v : json) : bool :=
  match v with
  | JNull | JBool _ | JString _ => true
  | JNumber _ => false
  | JArray es => forallb textual es
  | JObject ms => forallb (fun m => textual m.2) ms
  end.

Lemma json_nested_ind (P : json → Prop) :
  P JNull → (∀ b, P (JBool b)) → (∀ x, P (JNumber x)) → (∀ s, P (JString s)) →
  (∀ es, Forall P es → P (JArray es)) →
  (∀ ms, Forall (fun m => P m.2) ms → P (JObject ms)) →
  ∀ v, P v.
Proof.
  intros Hnull Hbool Hnum Hstr Harr Hobj.
  fix IH 1. intros [|b|x|s|es|ms].
  - apply Hnull.
  - apply Hbool.
  - apply Hnum.
  - apply Hstr.
  - apply Harr. induction es as [|e es IHes]; constructor; [apply IH|apply IHes].
  - apply Hobj. induction ms as [|m ms IHms]; constructor; [apply IH|apply IHms].
Qed.

(** The text of a value starts with a character that is no white space and
    no closing bracket. *)
Lemma JSON_stringify_head (v : json) :
  textual v = true →
  ∃ c t, JSON_stringify v = c :: t ∧ is_json_ws c = false ∧ code c ≠ 93.
Proof.
  destruct v as [|[]|x|s|es|ms]; try done; intros _; cbn [JSON_stringify];
    eexists _, _; (split; [reflexivity|done]).
Qed.

Lemma parse_elements_step (f : nat) (required : bool) (c : char16) (r : jsstring) :
  is_json_ws c = false → code c ≠ 93 →
  parse_elements (S f) required (c :: r)
  = '(v, r1) ← parse_value f (c :: r);
    match skip_ws r1 with
    | d :: r2 =>
        if code d =? 44 then
          '(vs, rest) ← parse_elements f true r2; Some (v :: vs, rest)
        else if code d =? 93 then Some ([v], r2)
        else None
    | [] => None
    end.
Proof.
  intros Hw Hc. cbn [parse_elements skip_ws]. rewrite Hw.
  destruct (Z.eqb_spec (code c) 93); [done|]. done.
Qed.

Lemma parse_elements_textual (es : list json) :
  Forall (fun v => textual v = true →
            ∀ f rest, (2 * length (JSON_stringify v) <= f)%nat →
                      parse_value f (JSON_stringify v ++ rest) = Some (v, rest)) es →
  forallb textual es = true →
  ∀ f required rest,
    es ≠ [] ∨ required = false →
    (2 * length (join_comma (map JSON_stringify es)) + 1 <= f)%nat →
    parse_elements f required (join_comma (map JSON_stringify es) ++ chr 93 :: rest)
    = Some (es, rest).
Proof.
  induction 1 as [|e es He _ IH]; intros Ht f required rest Hreq Hf.
  - destruct Hreq as [? | ->]; [done|]. destruct f as [|f]; [lia|]. done.
  - cbn [forallb] in Ht. apply andb_prop in Ht as [Hte Htes].
    destruct f as [|f]; [lia|].
    destruct (JSON_stringify_head e Hte) as (c & t & Ec & Hw & Hc).
    destruct es as [|e' es].
    + cbn [map join_comma] in *. rewrite Ec at 1. cbn [app].
      rewrite parse_elements_step by done.
      change (c :: t ++ ?x) with ((c :: t) ++ x). rewrite <- Ec.
      rewrite (He Hte) by lia. done.
    + change (map JSON_stringify (e :: e' :: es))
        with (JSON_stringify e :: map JSON_stringify (e' :: es)) in *.
      change (join_comma (JSON_stringify e :: map JSON_stringify (e' :: es)))
        with (JSON_stringify e ++ js "," ++ join_comma (map JSON_stringify (e' :: es))) in *.
      rewrite !length_app in Hf. change (length (js ",")) with 1%nat in Hf.
      rewrite <- !app_assoc. change (js "," ++ ?x) with (chr 44 :: x).
      rewrite Ec at 1. cbn [app]. rewrite parse_elements_step by done.
      change (c :: t ++ ?x) with ((c :: t) ++ x). rewrite <- Ec.
      rewrite (He Hte) by lia. cbn [mbind option_bind].
      change (skip_ws (chr 44 :: ?x)) with (chr 44 :: x).
      change (code (chr 44) =? 44) with true. cbv iota.
      rewrite IH; [done|done|by left|lia].
Qed.

Lemma parse_members_textual (ms : list (jsstring * json)) :
  Forall (fun m : jsstring * json => textual m.2 = true →
            ∀ f rest, (2 * length (JSON_stringify m.2) <= f)%nat →
                      parse_value f (JSON_stringify m.2 ++ rest) = Some (m.2, rest)) ms →
  forallb (fun m => textual m.2) ms = true →
  ∀ f required rest,
    ms ≠ [] ∨ required = false →
    (2 * length (join_comma
                   (map (fun m => QuoteJSONString m.1 ++ js ":" ++ JSON_stringify m.2) ms))
     + 1 <= f)%nat →
    parse_members f required
      (join_comma (map (fun m => QuoteJSONString m.1 ++ js ":" ++ JSON_stringify m.2) ms)
       ++ chr 125 :: rest)
    = Some (ms, rest).
Proof.
  set (g := fun m : jsstring * json => QuoteJSONString m.1 ++ js ":" ++ JSON_stringify m.2).
  induction 1 as [|[k v] ms Hm _ IH]; intros Ht f required rest Hreq Hf.
  - destruct Hreq as [? | ->]; [done|]. destruct f as [|f]; [lia|]. done.
  - cbn [forallb fst snd] in Ht, Hm. apply andb_prop in Ht as [Htv Hts].
    destruct f as [|f]; [lia|].
    destruct ms as [|m ms].
    + cbn [map join_comma] in *. unfold g in *. cbn [fst snd] in *.
      rewrite !length_app in Hf. rewrite <- !app_assoc.
      rewrite parse_members_member, (Hm Htv) by lia. done.
    + change (map g ((k, v) :: m :: ms)) with (g (k, v) :: map g (m :: ms)) in *.
      change (join_comma (g (k, v) :: map g (m :: ms)))
        with (g (k, v) ++ js "," ++ join_comma (map g (m :: ms))) in *.
      rewrite !length_app in Hf. change (length (js ",")) with 1%nat in Hf.
      unfold g at 1. unfold g at 1 in Hf. cbn [fst snd] in *. rewrite !length_app in Hf.
      rewrite <- !app_assoc. rewrite parse_members_member.
      change (js "," ++ ?x) with (chr 44 :: x).
      rewrite (Hm Htv) by lia. cbn [mbind option_bind].
      change (skip_ws (chr 44 :: ?x)) with (chr 44 :: x).
      change (code (chr 44) =? 44) with true. cbv iota.
      rewrite IH; [done|done|by left|lia].
Qed.

(** A value without numbers, written by [JSON.stringify], is read back by
    the parser as the same value, with fuel twice the length of its text. *)
Lemma parse_value_textual (v : json) :
  textual v = true →
  ∀ f rest, (2 * length (JSON_stringify v) <= f)%nat →
            parse_value f (JSON_stringify v ++ rest) = Some (v, rest).
Proof.
  induction v as [|b|x|s|es IH|ms IH] using json_nested_ind; intros Ht f rest Hf.
  - destruct f as [|f]; [simpl in Hf; lia|]. done.
  - destruct f as [|f]; [destruct b; simpl in Hf; lia|]. by destruct b.
  - done.
  - cbn [JSON_stringify] in *. unfold QuoteJSONString in *.
    destruct f as [|f]; [simpl in Hf; lia|].
    rewrite <- !app_assoc. cbn [app].
    by rewrite parse_value_quote, parse_string_quote_chars.
  - cbn [JSON_stringify textual] in *. rewrite !length_app in Hf.
    change (length (js "[")) with 1%nat in Hf. change (length (js "]")) with 1%nat in Hf.
    destruct f as [|f]; [lia|].
    rewrite <- !app_assoc.
    change (parse_value (S f) (js "[" ++ ?r))
      with ('(es, rest) ← parse_elements f false r; Some (JArray es, rest)).
    change (js "]" ++ rest) with (chr 93 :: rest).
    rewrite (parse_elements_textual es IH Ht); [done|by right|lia].
  - cbn [JSON_stringify textual] in *. rewrite !length_app in Hf.
    change (length (js "{")) with 1%nat in Hf. change (length (js "}")) with 1%nat in Hf.
    destruct f as [|f]; [lia|].
    rewrite <- !app_assoc.
    change (parse_value (S f) (js "{" ++ ?r))
      with ('(ms, rest) ← parse_members f false r; Some (JObject ms, rest)).
    change (js "}" ++ rest) with (chr 125 :: rest).
    rewrite (parse_members_textual ms IH Ht); [done|by right|lia].
Qed.

Lemma JSON_parse_stringify_textual (v : json) :
  textual v = true → JSON_parse (JSON_stringify v) = Normal v.
Proof.
  intros Ht. unfold JSON_parse.
  rewrite <- (app_nil_r (JSON_stringify v)) at 2.
  rewrite (parse_value_textual v Ht) by lia. done.
Qed.

(** ** A post that is stored and read again

    The handlers store [JSON.stringify(contentObj)] for the content that
    [normalizeBlogContent] returned (lines 842-843, 894-896 and 975-976, 1033-1035)
    and read it with [normalizeBlogContent] again (lines 751 and 782). *)

(** The member [key: v] of an object literal; [JSON.stringify] leaves out a
    member that is [undefined]. *)
Definition optional_member (key : string) (v : option jsstring) : list (jsstring * json) :=
  match v with
  | Some s => [(js key, JString s)]
  | None => []
  end.

(** The objects that lines 70-103 push. *)
Definition block_to_json (b : block) : json :=
  match b with
  | BlockH2 text => JObject [(js "type", JString (js "h2")); (js "text", JString text)]
  | BlockP text => JObject [(js "type", JString (js "p")); (js "text", JString text)]
  | BlockUl items =>
      JObject [(js "type", JString (js "ul")); (js "items", JArray (JString <$> items))]
  | BlockImg url alt caption =>
      JObject ([(js "type", JString (js "img")); (js "url", JString url)]
               ++ optional_member "alt" alt ++ optional_member "caption" caption)
  | BlockImage url alt caption =>
      JObject ([(js "type", JString (js "image")); (js "url", JString url);
                (js "alt", JString alt)]
               ++ optional_member "caption" caption)
  end.

(** The object of line 109. *)
Definition content_to_json (c : BlogContent) : json :=
  JObject (optional_member "excerpt" (excerpt c)
           ++ optional_member "coverImage" (coverImage c)
           ++ optional_member "coverAlt" (coverAlt c)
           ++ [(js "blocks", JArray (block_to_json <$> blocks c))]).

Lemma textual_strings (items : list jsstring) : forallb textual (JString <$> items) = true.
Proof. by induction items. Qed.

Lemma textual_block (b : block) : textual (block_to_json b) = true.
Proof.
  destruct b as [t|t|items|url [a|] [c|]|url alt [c|]]; try done.
  cbn. by rewrite textual_strings.
Qed.

Lemma textual_content (c : BlogContent) : textual (content_to_json c) = true.
Proof.
  assert (Hb : forallb textual (block_to_json <$> blocks c) = true).
  { induction (blocks c) as [|b l IH]; [done|]. cbn [fmap list_fmap forallb].
    by rewrite textual_block. }
  destruct c as [[e|] [i|] [a|] bs]; cbn in *; by rewrite Hb.
Qed.

Lemma text_field_string (ms : list (jsstring * json)) (key : string) (s : jsstring) :
  Get (JObject ms) (js key) = Some (JString s) → trim s = s →
  text_field (JObject ms) key = Normal s.
Proof.
  intros Hg Hs. unfold text_field. rewrite Hg, ToString_or_else_string.
  cbn [fmap completion_fmap]. by rewrite Hs.
Qed.

Lemma map_completion_strings (items : list jsstring) :
  Forall (fun i => i ≠ [] ∧ trim i = i) items →
  filter (fun s => truthy_string s = true)
    <$> map_completion (fun x => trim <$> ToString x) (JString <$> items)
  = Normal items.
Proof.
  induction 1 as [|i items [Hne Ht] _ IH]; [done|].
  cbn [fmap list_fmap map_completion ToString completion_fmap mbind completion_bind].
  rewrite Ht.
  destruct (map_completion _ (JString <$> items)) as [ys|]; [|done].
  cbn [mbind completion_bind fmap completion_fmap] in *.
  rewrite filter_cons_True by by destruct i.
  by injection IH as ->.
Qed.

(** A block that [normalizeBlogContent] has pushed is pushed again, as it
    is, when the loop meets its object. *)
Lemma normalize_block_again (b : block) :
  block_ok b → normalize_block (block_to_json b) = Normal (Some b).
Proof.
  destruct b as [t|t|items|url alt caption|url alt caption]; cbn [block_ok block_to_json].
  - intros [Hne Ht]. unfold normalize_block. cbn [ToBoolean is_object negb orb].
    rewrite (text_field_string _ "type" (js "h2")) by done. cbn [mbind completion_bind].
    rewrite bool_decide_eq_true_2 by done.
    rewrite (text_field_string _ "text" t) by done. cbn [mbind completion_bind].
    by destruct t.
  - intros Ht. unfold normalize_block. cbn [ToBoolean is_object negb orb].
    rewrite (text_field_string _ "type" (js "p")) by done. cbn [mbind completion_bind].
    rewrite bool_decide_eq_false_2 by done. rewrite bool_decide_eq_true_2 by done.
    by rewrite (text_field_string _ "text" t) by done.
  - intros Hitems. unfold normalize_block. cbn [ToBoolean is_object negb orb].
    rewrite (text_field_string _ "type" (js "ul")) by done. cbn [mbind completion_bind].
    rewrite !bool_decide_eq_false_2 by done. rewrite bool_decide_eq_true_2 by done.
    change (Get _ (js "items")) with (Some (JArray (JString <$> items))). cbv iota.
    by rewrite map_completion_strings.
  - intros (Hne & Hu & Ha & Hc). unfold normalize_block. cbn [ToBoolean is_object negb orb].
    assert (Ht : text_field (block_to_json (BlockImg url alt caption)) "type" = Normal (js "img")).
    { apply text_field_string; [|done]. by destruct alt, caption. }
    assert (Hurl : text_field (block_to_json (BlockImg url alt caption)) "url" = Normal url).
    { apply text_field_string; [|done]. by destruct alt, caption. }
    assert (Halt : text_field (block_to_json (BlockImg url alt caption)) "alt"
                   = Normal (default [] alt)).
    { destruct alt as [a|].
      - apply text_field_string; [by destruct caption|]. by apply Ha.
      - by destruct caption. }
    assert (Hcap : string_field (block_to_json (BlockImg url alt caption)) "caption" = caption).
    { unfold string_field. destruct caption as [c|].
      - replace (Get _ (js "caption")) with (Some (JString c)) by by destruct alt.
        f_equal. by apply Hc.
      - by destruct alt. }
    cbn [block_to_json] in Ht, Hurl, Halt, Hcap. rewrite Ht. cbn [mbind completion_bind].
    rewrite !bool_decide_eq_false_2 by done. rewrite bool_decide_eq_true_2 by done.
    cbn [orb]. rewrite Hurl. cbn [mbind completion_bind].
    destruct url as [|u url]; [done|]. cbn [truthy_string negb].
    rewrite Halt, Hcap. cbn [mbind completion_bind].
    destruct alt as [[|a0 a]|]; [|done|done]. by destruct (Ha [] eq_refl).
  - intros (Hne & Hu & Ha & Hc). unfold normalize_block. cbn [ToBoolean is_object negb orb].
    assert (Ht : text_field (block_to_json (BlockImage url alt caption)) "type"
                 = Normal (js "image")).
    { apply text_field_string; [|done]. by destruct caption. }
    assert (Hurl : text_field (block_to_json (BlockImage url alt caption)) "url" = Normal url).
    { apply text_field_string; [|done]. by destruct caption. }
    assert (Halt : text_field (block_to_json (BlockImage url alt caption)) "alt" = Normal alt).
    { apply text_field_string; [|done]. by destruct caption. }
    assert (Hcap : string_field (block_to_json (BlockImage url alt caption)) "caption" = caption).
    { unfold string_field. destruct caption as [c|]; [|done].
      change (Get _ (js "caption")) with (Some (JString c)). f_equal. by apply Hc. }
    cbn [block_to_json] in Ht, Hurl, Halt, Hcap. rewrite Ht. cbn [mbind completion_bind].
    rewrite !bool_decide_eq_false_2 by done. rewrite bool_decide_eq_true_2 by done.
    rewrite orb_true_r. rewrite Hurl. cbn [mbind completion_bind].
    destruct url as [|u url]; [done|]. cbn [truthy_string negb].
    by rewrite Halt, Hcap.
Qed.

Lemma normalize_blocks_again (bs : list block) :
  Forall block_ok bs →
  map_completion normalize_block (block_to_json <$> bs) = Normal (Some <$> bs).
Proof.
  induction 1 as [|b bs Hb _ IH]; [done|].
  cbn [fmap list_fmap map_completion]. rewrite normalize_block_again by done.
  cbn [mbind completion_bind]. cbn [fmap list_fmap] in IH. by rewrite IH.
Qed.

Lemma omap_id_Some {A} (l : list A) : omap id (Some <$> l) = l.
Proof. induction l as [|x l IH]; [done|]. cbn. by rewrite IH. Qed.

Lemma normalizeBlogContent_object (c : BlogContent) :
  content_ok c → normalizeBlogContent (Some (content_to_json c)) = Normal c.
Proof.
  intros (He & Hi & Ha & Hb). unfold normalizeBlogContent.
  cbn [content_to_json ToBoolean is_object negb orb].
  set (o := content_to_json c).
  assert (Hblocks : Get o (js "blocks") = Some (JArray (block_to_json <$> blocks c))).
  { subst o. unfold content_to_json. by destruct (excerpt c), (coverImage c), (coverAlt c). }
  assert (H1 : string_field o "excerpt" = excerpt c).
  { unfold string_field. subst o. unfold content_to_json. destruct (excerpt c) as [s|] eqn:E.
    - replace (Get _ (js "excerpt")) with (Some (JString s))
        by by destruct (coverImage c), (coverAlt c).
      f_equal. by apply He.
    - by destruct (coverImage c), (coverAlt c). }
  assert (H2 : string_field o "coverImage" = coverImage c).
  { unfold string_field. subst o. unfold content_to_json. destruct (coverImage c) as [s|] eqn:E.
    - replace (Get _ (js "coverImage")) with (Some (JString s))
        by by destruct (excerpt c), (coverAlt c).
      f_equal. by apply Hi.
    - by destruct (excerpt c), (coverAlt c). }
  assert (H3 : string_field o "coverAlt" = coverAlt c).
  { unfold string_field. subst o. unfold content_to_json. destruct (coverAlt c) as [s|] eqn:E.
    - replace (Get _ (js "coverAlt")) with (Some (JString s))
        by by destruct (excerpt c), (coverImage c).
      f_equal. by apply Ha.
    - by destruct (excerpt c), (coverImage c). }
  rewrite Hblocks, normalize_blocks_again by done. cbn [mbind completion_bind].
  rewrite H1, H2, H3, omap_id_Some. by destruct c.
Qed.

(** X13. A content that [normalizeBlogContent] has returned survives being
    stored: written with [JSON.stringify] and given to
    [normalizeBlogContent] again, as the text or as the object it stands
    for, it comes back unchanged. *)
Theorem normalizeBlogContent_stored (input : option json) (c : BlogContent) :
  normalizeBlogContent input = Normal c →
  normalizeBlogContent (Some (JString (JSON_stringify (content_to_json c)))) = Normal c
  ∧ normalizeBlogContent (Some (content_to_json c)) = Normal c
  ∧ JSON_parse (JSON_stringify (content_to_json c)) = Normal (content_to_json c).
Proof.
  intros Hc%normalizeBlogContent_ok.
  pose proof (JSON_parse_stringify_textual _ (textual_content c)) as Hp.
  pose proof (normalizeBlogContent_object c Hc) as Ho.
  split; [|done].
  unfold normalizeBlogContent in *. unfold safeJson.
  cbn [ToString mbind completion_bind]. rewrite Hp.
  by cbn [content_to_json] in *.
Qed.

Lemma normalizeBlogContent_stored_witness :
  let c := {| excerpt := Some (js "A post"); coverImage := None; coverAlt := None;
              blocks := [BlockH2 (js "Title"); BlockUl [js "one"; js "two"];
                         BlockImg (js "https://fur-fusion.com/a.png") None (Some (js ""))] |} in
  normalizeBlogContent (Some (JString (JSON_stringify (content_to_json c)))) = Normal c.
Proof.
  intros c.
  apply (normalizeBlogContent_stored
           (Some (JObject [(js "excerpt", JString (js " A post "));
                           (js "blocks",
                            JArray [JObject [(js "type", JString (js "h2"));
                                             (js "text", JString (js "Title "))];
                                    JNull;
                                    JObject [(js "type", JString (js "ul"));
                                             (js "items",
                                              JArray [JString (js "one"); JString (js " ");
                                                      JString (js "two")])];
                                    JObject [(js "type", JString (js "img"));
                                             (js "url", JString (js "https://fur-fusion.com/a.png"));
                                             (js "caption", JString (js " "))]])])) c).
  vm_compute. reflexivity.
Defined.

(** ** [safeJsonArray] *)

Lemma strings_of_nonempty (arr : list json) (l : list jsstring) :
  strings_of arr = Normal l → Forall (fun s => s ≠ []) l.
Proof.
  unfold strings_of. destruct (map_completion ToString arr) as [ys|]; [|done].
  intros [= <-]. apply Forall_forall. intros s [Hs _]%list_elem_of_filter. by destruct s.
Qed.

Lemma strings_of_strings (items : list jsstring) :
  strings_of (JString <$> items) = Normal (filter (fun s => s ≠ []) items).
Proof.
  unfold strings_of.
  assert (map_completion ToString (JString <$> items) = Normal items) as ->.
  { induction items as [|i items IH]; [done|].
    cbn [fmap list_fmap map_completion ToString mbind completion_bind].
    cbn [fmap list_fmap] in IH. by rewrite IH. }
  cbn [fmap completion_fmap]. f_equal.
  induction items as [|i items IH]; [done|].
  destruct i as [|c i].
  - rewrite filter_cons_False by done.
    rewrite filter_cons_False by (intros H; by apply H). done.
  - rewrite filter_cons_True, filter_cons_True by done. by rewrite IH.
Qed.

(** X14. [safeJsonArray] on what the database holds, a text or [null]:
    it never throws, and returns strings that are not empty; for [null],
    [undefined] and the empty text it returns the empty list, and for the
    text that [JSON.stringify] writes for an array of strings it returns
    those strings without the empty ones.  An array that is given as a
    value, not as a text, is converted outside the [try]: on
    [[{toString: null}]] the function throws a [TypeError], while on the
    text of that array it returns the empty list. *)
Theorem safeJsonArray_total :
  (∀ s, ∃ l, safeJsonArray (Some (JString s)) = Normal l ∧ Forall (fun x => x ≠ []) l)
  ∧ safeJsonArray None = Normal []
  ∧ safeJsonArray (Some JNull) = Normal []
  ∧ safeJsonArray (Some (JString [])) = Normal []
  ∧ (∀ items, safeJsonArray (Some (JString (JSON_stringify (JArray (JString <$> items)))))
             = Normal (filter (fun s => s ≠ []) items))
  ∧ safeJsonArray (Some (JArray [JObject [(js "toString", JNull)]])) = Throw TypeError
  ∧ safeJsonArray
      (Some (JString (JSON_stringify (JArray [JObject [(js "toString", JNull)]]))))
    = Normal [].
Proof.
  split; [|split; [|split; [|split; [|split; [|split]]]]]; try done.
  - intros s. unfold safeJsonArray. cbn [ToBoolean].
    destruct s as [|c s]; [by exists []|]. cbn [truthy_string negb].
    cbn [ToString mbind completion_bind].
    destruct (JSON_parse (c :: s)) as [[| | | |a|]|]; cbn [mbind completion_bind];
      try (by exists []).
    destruct (strings_of a) as [l|] eqn:El; [|by exists []].
    exists l. split; [done|]. by eapply strings_of_nonempty.
  - intros items. unfold safeJsonArray.
    assert (Ht : textual (JArray (JString <$> items)) = true) by apply textual_strings.
    pose proof (JSON_parse_stringify_textual _ Ht) as Hp.
    destruct (JSON_stringify (JArray (JString <$> items))) as [|c t] eqn:E; [done|].
    cbn [ToBoolean truthy_string negb ToString mbind completion_bind].
    rewrite Hp. cbn [mbind completion_bind]. by rewrite strings_of_strings.
Qed.

(** ** The text of an integer is its decimal digits *)

Lemma digit_value_range (c : char16) :
  is_digit c = true → default 0 (hex_value c) = code c - 48 ∧ 48 <= code c <= 57.
Proof.
  intros Hd. unfold hex_value. rewrite Hd. unfold is_digit in Hd.
  apply andb_prop in Hd as [H1 H2]. apply Z.leb_le in H1, H2. done.
Qed.

Lemma digits_value_cons (d : char16) (ds : jsstring) :
  digits_value 10 (d :: ds)
  = default 0 (hex_value d) * 10 ^ Z.of_nat (length ds) + digits_value 10 ds.
Proof.
  change (d :: ds) with ([d] ++ ds). rewrite digits_value_app. by f_equal.
Qed.

Lemma digits_value_bound (ds : jsstring) :
  Forall (fun c => is_digit c = true) ds →
  0 <= digits_value 10 ds < 10 ^ Z.of_nat (length ds).
Proof.
  induction 1 as [|d ds Hd _ IH]; [done|].
  rewrite digits_value_cons. destruct (digit_value_range d Hd) as [-> Hr].
  cbn [length]. rewrite Nat2Z.inj_succ, Z.pow_succ_r by lia.
  assert (0 < 10 ^ Z.of_nat (length ds)) by (apply Z.pow_pos_nonneg; lia). nia.
Qed.

Lemma digits_value_lower (d : char16) (ds : jsstring) :
  Forall (fun c => is_digit c = true) (d :: ds) → code d ≠ 48 →
  10 ^ Z.of_nat (length ds) <= digits_value 10 (d :: ds).
Proof.
  intros [Hd Hds]%Forall_cons Hne. rewrite digits_value_cons.
  destruct (digit_value_range d Hd) as [-> Hr].
  pose proof (digits_value_bound ds Hds). nia.
Qed.

Lemma digits_same_length (a b : jsstring) :
  length a = length b →
  Forall (fun c => is_digit c = true) a → Forall (fun c => is_digit c = true) b →
  digits_value 10 a = digits_value 10 b → a = b.
Proof.
  intros Hl Ha. revert b Hl. induction Ha as [|x a Hx Ha IH]; intros [|y b] Hl Hb Hv; try done.
  apply Forall_cons in Hb as [Hy Hb]. injection Hl as Hl.
  rewrite !digits_value_cons, Hl in Hv.
  destruct (digit_value_range x Hx) as [Ex Rx]. destruct (digit_value_range y Hy) as [Ey Ry].
  rewrite Ex, Ey in Hv.
  pose proof (digits_value_bound a Ha) as Ba. pose proof (digits_value_bound b Hb) as Bb.
  rewrite Hl in Ba. set (p := 10 ^ Z.of_nat (length b)) in *.
  assert (code x = code y) as Hc.
  { destruct (Z.lt_trichotomy (code x) (code y)) as [?|[?|?]]; [|done|]; nia. }
  rewrite (char16_eq x y Hc). f_equal. apply IH; [done|done|]. rewrite Hc in Hv. lia.
Qed.

(** Two strings of digits that do not start with a zero and spell the same
    integer are the same string. *)
Lemma digits_unique (x y : char16) (a b : jsstring) :
  Forall (fun c => is_digit c = true) (x :: a) → Forall (fun c => is_digit c = true) (y :: b) →
  code x ≠ 48 → code y ≠ 48 →
  digits_value 10 (x :: a) = digits_value 10 (y :: b) → x :: a = y :: b.
Proof.
  intros Ha Hb Hx Hy Hv.
  pose proof (digits_value_lower x a Ha Hx) as La.
  pose proof (digits_value_lower y b Hb Hy) as Lb.
  pose proof (digits_value_bound _ Ha) as Ba. pose proof (digits_value_bound _ Hb) as Bb.
  cbn [length] in Ba, Bb. rewrite Nat2Z.inj_succ in Ba, Bb.
  apply digits_same_length; [|done|done|done]. cbn [length]. f_equal.
  destruct (Nat.lt_trichotomy (length a) (length b)) as [Hlt|[?|Hlt]]; [|done|]; exfalso.
  - assert (10 ^ Z.succ (Z.of_nat (length a)) <= 10 ^ Z.of_nat (length b))
      by (apply Z.pow_le_mono_r; lia). lia.
  - assert (10 ^ Z.succ (Z.of_nat (length b)) <= 10 ^ Z.of_nat (length a))
      by (apply Z.pow_le_mono_r; lia). lia.
Qed.

(** Only an integer below [2^53] has the Number of such an integer. *)
Lemma round_ratio_integer_inj (V N : Z) :
  0 < V → 0 < N < 2 ^ 53 → round_ratio false V 1 = number_of_Z N → V = N.
Proof.
  intros HV HN. destruct (number_of_Z_positive N HN) as [-> _].
  pose proof (Z.log2_spec N ltac:(lia)) as [Hlo Hhi].
  pose proof (Z.log2_nonneg N) as HL0.
  assert (HL : Z.log2 N <= 52).
  { apply Z.lt_succ_r, (Z.pow_lt_mono_r_iff 2); [lia|lia|].
    replace (Z.succ 52) with 53 by lia. lia. }
  destruct (Z.lt_ge_cases V (2 ^ 53)) as [Hsmall|Hbig].
  - rewrite round_ratio_integer by lia. intros [= Hm He].
    assert (Z.log2 V = Z.log2 N) as El by lia. rewrite El in Hm.
    assert (0 < 2 ^ (52 - Z.log2 N)) by (apply Z.pow_pos_nonneg; lia). nia.
  - unfold round_ratio. destruct (Z.leb_spec V 0); [lia|].
    change (Z.log2 1) with 0. rewrite Z.sub_0_r.
    assert (H53 : 53 <= Z.log2 V) by (apply Z.log2_le_pow2; lia).
    pose proof (Z.log2_spec V ltac:(lia)) as [HVlo HVhi].
    unfold scaled_den, scaled_num.
    rewrite (Z.max_r 0 (Z.log2 V)), (Z.max_l 0 (- Z.log2 V)) by lia.
    rewrite Z.pow_0_r, !Z.mul_1_l, Z.mul_1_r.
    destruct (Z.leb_spec (2 ^ Z.log2 V) V); [|lia].
    rewrite (Z.max_l (Z.log2 V - 52) (-1074)) by lia.
    rewrite (Z.max_l 0 (- (Z.log2 V - 52))), (Z.max_r 0 (Z.log2 V - 52)) by lia.
    rewrite Z.pow_0_r, Z.mul_1_r.
    set (e := Z.log2 V - 52). set (q := V / 2 ^ e). set (r := V mod 2 ^ e).
    assert (0 < 2 ^ e) by (apply Z.pow_pos_nonneg; lia).
    assert (Hq : 2 ^ 52 <= q).
    { unfold q. apply Z.div_le_lower_bound; [lia|].
      rewrite Z.mul_comm, <- Z.pow_add_r by lia.
      replace (52 + e) with (Z.log2 V) by lia. done. }
    assert (He : 1 <= e) by (unfold e; lia).
    set (q' := if (_ || _ : bool) then q + 1 else q).
    assert (Hq' : 2 ^ 52 <= q') by (unfold q'; case_match; lia).
    destruct (q' =? 2 ^ 53).
    + destruct (971 <? e + 1); [done|]. change (2 ^ 52 =? 0) with false. cbv iota.
      intros [= ? ?]. lia.
    + destruct (971 <? e); [done|]. destruct (Z.eqb_spec q' 0); [lia|].
      intros [= ? ?]. lia.
Qed.

Lemma Number_toString_decimal (N : Z) :
  0 < N < 2 ^ 53 → Number_toString (number_of_Z N) = decimal_digits N.
Proof.
  intros HN.
  destruct (shortest_digits_integer N HN) as (n & k & s & Hsd & Hk & Hn & Hs & Hr).
  destruct (number_of_Z_positive N HN) as [Hx Hm]. rewrite Hx.
  unfold Number_toString. destruct (Z.eqb_spec (N * 2 ^ (52 - Z.log2 N)) 0); [done|].
  cbn [app]. unfold Number_toString_positive. rewrite Hsd.
  destruct (Z.leb_spec k n); [|lia]. destruct (Z.leb_spec n 21); [|lia]. cbn [andb].
  assert (0 < 10 ^ (n - k)) by (apply Z.pow_pos_nonneg; lia).
  apply round_ratio_integer_inj in Hr; [|nia|done].
  destruct (decimal_digits_head s Hs) as (d & ds & Hd & Hdig & Hnz).
  destruct (decimal_digits_head N ltac:(lia)) as (d' & ds' & Hd' & Hdig' & Hnz').
  assert (Hall : Forall (fun c => is_digit c = true)
                   (decimal_digits s ++ repeat (chr 48) (Z.to_nat (n - k)))).
  { apply Forall_app. split; [apply uint_chars_digits|].
    apply Forall_forall. intros x Hin. apply list_elem_of_In, repeat_spec in Hin.
    by subst. }
  assert (Hval : digits_value 10 (decimal_digits s ++ repeat (chr 48) (Z.to_nat (n - k))) = N).
  { rewrite digits_value_app, digits_value_zeros, decimal_digits_value by lia.
    rewrite repeat_length, Z2Nat.id by lia. lia. }
  pose proof (uint_chars_digits (N.to_uint (Z.to_N N))) as HallN.
  fold (decimal_digits N) in HallN.
  pose proof (decimal_digits_value N ltac:(lia)) as HvalN.
  rewrite Hd in *. rewrite Hd' in *. cbn [app] in *.
  apply digits_unique; try done. by rewrite Hval, HvalN.
Qed.

(** The digits of an integer of six digits. *)
Lemma decimal_digits_six (n : Z) :
  100000 <= n <= 999999 →
  length (decimal_digits n) = 6%nat ∧ Forall (fun c => is_digit c = true) (decimal_digits n).
Proof.
  intros Hn. split; [|apply uint_chars_digits].
  destruct (decimal_digits_head n ltac:(lia)) as (d & ds & Hd & Hdig & Hnz).
  pose proof (uint_chars_digits (N.to_uint (Z.to_N n))) as Hall.
  fold (decimal_digits n) in Hall.
  pose proof (decimal_digits_value n ltac:(lia)) as Hv. rewrite Hd in *.
  pose proof (digits_value_lower d ds Hall Hnz) as Hlo.
  pose proof (digits_value_bound _ Hall) as Hhi. cbn [length] in *.
  rewrite Nat2Z.inj_succ in Hhi. rewrite Hv in *. f_equal.
  destruct (Nat.lt_trichotomy (length ds) 5) as [Hlt|[?|Hlt]]; [|done|]; exfalso.
  - assert (10 ^ Z.succ (Z.of_nat (length ds)) <= 10 ^ 5) by (apply Z.pow_le_mono_r; lia). lia.
  - assert (10 ^ 6 <= 10 ^ Z.of_nat (length ds)) by (apply Z.pow_le_mono_r; lia). lia.
Qed.

(** ** [generateUniqueOrderId] (index.ts, lines 1455-1462)

    [draw i] is the value of [Math.floor(Math.random() * 900000)] in turn
    [i] of the loop, an integer from 0 to 899999, and [taken id] says
    whether the query for the order [id] finds a row. *)

Definition order_id_candidate (k : Z) : jsstring :=
  js "FF-2026-" ++ Number_toString (number_of_Z (k + 100000)).

Fixpoint order_id_loop (taken : jsstring → bool) (draw : nat → Z) (i turns : nat)
    : completion jsstring :=
  match turns with
  | O => Throw (Error "Could not generate order id")
  | S turns' =>
      let id := order_id_candidate (draw i) in
      if taken id then order_id_loop taken draw (S i) turns' else Normal id
  end.

Definition generateUniqueOrderId (taken : jsstring → bool) (draw : nat → Z)
    : completion jsstring :=
  order_id_loop taken draw 0 10.

Lemma order_id_candidate_shape (k : Z) :
  0 <= k < 900000 →
  order_id_candidate k = js "FF-2026-" ++ decimal_digits (k + 100000)
  ∧ length (order_id_candidate k) = 14%nat
  ∧ Forall (fun c => is_digit c = true) (drop 8 (order_id_candidate k)).
Proof.
  intros Hk. unfold order_id_candidate.
  rewrite Number_toString_decimal by lia.
  destruct (decimal_digits_six (k + 100000) ltac:(lia)) as [Hl Hd].
  split; [done|]. split; [by rewrite length_app, Hl|done].
Qed.

Lemma order_id_loop_result (taken : jsstring → bool) (draw : nat → Z) (turns i : nat) :
  match order_id_loop taken draw i turns with
  | Normal id =>
      ∃ j, (i <= j < i + turns)%nat ∧ id = order_id_candidate (draw j) ∧ taken id = false
           ∧ ∀ j', (i <= j' < j)%nat → taken (order_id_candidate (draw j')) = true
  | Throw e =>
      e = Error "Could not generate order id"
      ∧ ∀ j, (i <= j < i + turns)%nat → taken (order_id_candidate (draw j)) = true
  end.
Proof.
  revert i. induction turns as [|turns IH]; intros i; cbn [order_id_loop].
  - split; [done|]. intros j Hj. lia.
  - destruct (taken (order_id_candidate (draw i))) eqn:Et.
    + specialize (IH (S i)). destruct (order_id_loop taken draw (S i) turns) as [id|e].
      * destruct IH as (j & Hj & Hid & Hfree & Hbefore). exists j.
        split; [lia|]. split; [done|]. split; [done|]. intros j' Hj'.
        destruct (decide (j' = i)) as [->|]; [done|]. apply Hbefore. lia.
      * destruct IH as [He Hall]. split; [done|]. intros j Hj.
        destruct (decide (j = i)) as [->|]; [done|]. apply Hall. lia.
    + exists i. split; [lia|]. split; [done|]. split; [done|]. intros j' Hj'. lia.
Qed.

(** X15. [generateUniqueOrderId], when every draw
    [Math.floor(Math.random() * 900000)] is an integer from 0 to 899999:
    it returns the candidate of the first of at most ten turns whose
    candidate is not taken, that is [FF-2026-] followed by the six digits of
    an integer from 100000 to 999999, 14 characters in all; it throws the
    error "Could not generate order id" exactly when the candidates of all
    ten turns are taken. *)
Theorem generateUniqueOrderId_result (taken : jsstring → bool) (draw : nat → Z) :
  (∀ i, 0 <= draw i < 900000) →
  match generateUniqueOrderId taken draw with
  | Normal id =>
      ∃ i, (i < 10)%nat
           ∧ id = js "FF-2026-" ++ decimal_digits (draw i + 100000)
           ∧ length id = 14%nat
           ∧ Forall (fun c => is_digit c = true) (drop 8 id)
           ∧ taken id = false
           ∧ ∀ j, (j < i)%nat → taken (js "FF-2026-" ++ decimal_digits (draw j + 100000)) = true
  | Throw e =>
      e = Error "Could not generate order id"
      ∧ ∀ j, (j < 10)%nat → taken (js "FF-2026-" ++ decimal_digits (draw j + 100000)) = true
  end.
Proof.
  intros Hd. unfold generateUniqueOrderId.
  pose proof (order_id_loop_result taken draw 10 0) as H.
  destruct (order_id_loop taken draw 0 10) as [id|e].
  - destruct H as (i & Hi & -> & Hfree & Hbefore).
    destruct (order_id_candidate_shape (draw i) (Hd i)) as (Hs & Hl & Hdig).
    exists i. split; [lia|]. split; [done|]. split; [done|]. split; [done|]. split; [done|].
    intros j Hj. destruct (order_id_candidate_shape (draw j) (Hd j)) as (<- & _).
    apply Hbefore. lia.
  - destruct H as [-> Hall]. split; [done|]. intros j Hj.
    destruct (order_id_candidate_shape (draw j) (Hd j)) as (<- & _). apply Hall. lia.
Qed.

Lemma generateUniqueOrderId_result_witness :
  generateUniqueOrderId (fun id => bool_decide (id = js "FF-2026-100007"))
    (fun i => if (i =? 0)%nat then 7 else 48)
  = Normal (js "FF-2026-100048").
Proof.
  pose proof (generateUniqueOrderId_result
                (fun id => bool_decide (id = js "FF-2026-100007"))
                (fun i => if (i =? 0)%nat then 7 else 48)) as H.
  destruct (generateUniqueOrderId _ _) as [id|e] eqn:E.
  - destruct H as (i & Hi & -> & _); [intros i; destruct (i =? 0)%nat; lia|].
    revert E. vm_compute. intros [= <-]. reflexivity.
  - revert E. vm_compute. discriminate.
Defined.

(** ** The token in the review link (index.ts, lines 1301-1307) *)

Lemma encodeURIComponent_unescaped (s : jsstring) :
  Forall (fun c => uri_unescaped c = true) s → encodeURIComponent s = Normal s.
Proof.
  induction 1 as [|c s Hc _ IH]; [done|]. cbn [encodeURIComponent]. by rewrite Hc, IH.
Qed.

Lemma url_safe_unescaped (c : char16) : is_url_safe c = true → uri_unescaped c = true.
Proof.
  unfold is_url_safe, uri_unescaped. destruct (is_alnum c); [done|]. cbn [orb].
  intros H. apply orb_prop in H as [H|H]; apply Z.eqb_eq in H;
    rewrite <- (chr_code c), H; done.
Qed.

Lemma lower_hex_unescaped (c : char16) : is_lower_hex c = true → uri_unescaped c = true.
Proof.
  unfold is_lower_hex, uri_unescaped, is_alnum, is_lower. intros H.
  destruct (is_digit c); [done|]. cbn [orb] in *. apply andb_prop in H as [H1 H2].
  apply Z.leb_le in H1, H2.
  destruct (Z.leb_spec 97 (code c)); [|lia]. destruct (Z.leb_spec (code c) 122); [|lia].
  by rewrite orb_true_r.
Qed.

(** X16. The token that [createReviewToken] returns is made of letters,
    digits, ["-"], ["_"] and one dot, so [encodeURIComponent] leaves it as
    it is: the review link of line 1307 carries the token itself. *)
Theorem review_token_in_link (toLowerCase : jsstring → jsstring) (env : Env)
    (secret order_id email : jsstring) (issued : Z) :
  configured (REVIEW_LINK_SECRET env) = Some secret →
  0 <= issued <= 8640000000000000 →
  ∃ token,
    result (createReviewToken toLowerCase env order_id email issued) = Normal token
    ∧ Forall (fun c => is_alnum c = true ∨ code c = 45 ∨ code c = 95 ∨ code c = 46) token
    ∧ encodeURIComponent token = Normal token.
Proof.
  intros Hs Hi.
  destruct (review_token_parts toLowerCase env secret order_id email issued Hs Hi)
    as (u & Hsafe & Hne & Hd & Hc & Hh & _).
  eexists. split; [by rewrite Hc|]. split.
  - apply Forall_app. split; [|apply Forall_app; split].
    + eapply Forall_impl; [done|]. intros c H. unfold is_url_safe in H.
      apply orb_prop in H as [H|H]; [apply orb_prop in H as [H|H]|].
      * by left.
      * apply Z.eqb_eq in H. tauto.
      * apply Z.eqb_eq in H. tauto.
    + apply Forall_cons_2; [by do 3 right|apply Forall_nil_2].
    + unfold hmac_sha256_hex. eapply Forall_impl; [apply hex_of_bytes_lower_hex|].
      intros c H. left. unfold is_lower_hex in H. unfold is_alnum, is_lower.
      destruct (is_digit c); [done|]. cbn [orb] in *. apply andb_prop in H as [H1 H2].
      apply Z.leb_le in H1, H2.
      destruct (Z.leb_spec 97 (code c)); [|lia]. destruct (Z.leb_spec (code c) 122); [|lia].
      by rewrite orb_true_r.
  - apply encodeURIComponent_unescaped.
    apply Forall_app. split; [|apply Forall_app; split].
    + eapply Forall_impl; [done|]. apply url_safe_unescaped.
    + by repeat constructor.
    + unfold hmac_sha256_hex. eapply Forall_impl; [apply hex_of_bytes_lower_hex|].
      apply lower_hex_unescaped.
Qed.

Lemma review_token_in_link_witness :
  ∃ token,
    result (createReviewToken (fmap ascii_lower) example_env (js "FF-2026-100001")
              (js "Ann@Example.com") 1700000000000) = Normal token
    ∧ Forall (fun c => is_alnum c = true ∨ code c = 45 ∨ code c = 95 ∨ code c = 46) token
    ∧ encodeURIComponent token = Normal token.
Proof.
  apply (review_token_in_link (fmap ascii_lower) example_env (js "s3cret")
           (js "FF-2026-100001") (js "Ann@Example.com") 1700000000000).
  - reflexivity.
  - lia.
Defined.

(** ** Issuing a token, and verifying it at once *)

(** The text that [JSON.stringify] writes for the payload of a token. *)
Lemma review_payload_text (toLowerCase : jsstring → jsstring) (order_id email : jsstring)
    (issued : Z) :
  0 <= issued <= 8640000000000000 →
  JSON_stringify (review_payload toLowerCase order_id email issued)
  = js "{" ++ QuoteJSONString (js "order_id") ++ js ":" ++ QuoteJSONString order_id
    ++ js "," ++ QuoteJSONString (js "email") ++ js ":" ++ QuoteJSONString (toLowerCase email)
    ++ js "," ++ QuoteJSONString (js "exp") ++ js ":" ++ decimal_digits (issued + 3888000000)
    ++ js "}".
Proof.
  intros Hi. unfold review_payload.
  change (45 * 24 * 60 * 60 * 1000) with 3888000000.
  assert (HN : 0 < issued + 3888000000 < 2 ^ 53) by lia.
  cbn [JSON_stringify map join_comma fst snd].
  destruct (number_of_Z_positive _ HN) as [Hx _]. rewrite Hx at 1. cbn [Number_isFinite].
  rewrite Number_toString_decimal by done. by rewrite <- !app_assoc.
Qed.

(** C9. With the secret configured (and the time of issue between 0 and
    8.64e15), [createReviewToken] signs once and returns the payload half, a
    dot and the signature half.  The payload half is what [base64urlEncode]
    makes of the JSON text of the object with the order id, the lower-cased
    e-mail address and, as [exp], the time of issue plus 45 days
    (3888000000 ms), in this order; it is made of letters, digits, ["-"]
    and ["_"], and [base64urlDecode] gives that text back.  The signature
    half is the lower-case hexadecimal encoding of the HMAC-SHA-256 of the
    payload half under the secret.  Without the secret the function throws
    the error "Missing REVIEW_LINK_SECRET". *)
Theorem createReviewToken_issuance (toLowerCase : jsstring → jsstring) (env : Env)
    (order_id email : jsstring) (issued : Z) :
  0 <= issued <= 8640000000000000 →
  (∀ secret, configured (REVIEW_LINK_SECRET env) = Some secret →
     ∃ payloadB64,
       base64urlEncode
         (JSON_stringify (JObject [(js "order_id", JString order_id);
                                   (js "email", JString (toLowerCase email));
                                   (js "exp", JNumber (number_of_Z (issued + 3888000000)))]))
       = Normal payloadB64
       ∧ JSON_stringify (JObject [(js "order_id", JString order_id);
                                  (js "email", JString (toLowerCase email));
                                  (js "exp", JNumber (number_of_Z (issued + 3888000000)))])
         = js "{" ++ QuoteJSONString (js "order_id") ++ js ":" ++ QuoteJSONString order_id
           ++ js "," ++ QuoteJSONString (js "email") ++ js ":"
           ++ QuoteJSONString (toLowerCase email)
           ++ js "," ++ QuoteJSONString (js "exp") ++ js ":"
           ++ decimal_digits (issued + 3888000000) ++ js "}"
       ∧ Forall (fun c => is_url_safe c = true) payloadB64
       ∧ base64urlDecode payloadB64 ≫= JSON_parse
         = Normal (JObject [(js "order_id", JString order_id);
                            (js "email", JString (toLowerCase email));
                            (js "exp", JNumber (number_of_Z (issued + 3888000000)))])
       ∧ createReviewToken toLowerCase env order_id email issued
         = (Normal (payloadB64 ++ js "."
                    ++ lowercase_hex (SHA256.hmac (TextEncoder_encode secret)
                                        (TextEncoder_encode payloadB64))),
            [HmacSign (TextEncoder_encode secret) (TextEncoder_encode payloadB64)]))
  ∧ (configured (REVIEW_LINK_SECRET env) = None →
     createReviewToken toLowerCase env order_id email issued
     = throw (Error "Missing REVIEW_LINK_SECRET")).
Proof.
  intros Hi. split.
  - intros secret Hs.
    destruct (review_token_parts toLowerCase env secret order_id email issued Hs Hi)
      as (u & Hsafe & Hne & Hd & Hc & Hh & He & Hdec).
    pose proof (review_payload_text toLowerCase order_id email issued Hi) as Ht.
    exists u. rewrite <- hmac_sha256_hex_lowercase. done.
  - intros Hn. unfold createReviewToken. by rewrite Hn.
Qed.

(** The token of the examples is the one issued for [FF-2026-100001] and
    [Ann@Example.com] at time 1700000000000. *)
Lemma createReviewToken_issuance_witness :
  createReviewToken (fmap ascii_lower) example_env (js "FF-2026-100001")
    (js "Ann@Example.com") 1700000000000
  = (Normal example_token,
     [HmacSign (TextEncoder_encode (js "s3cret")) (TextEncoder_encode example_payload_half)]).
Proof.
  destruct (createReviewToken_issuance (fmap ascii_lower) example_env (js "FF-2026-100001")
              (js "Ann@Example.com") 1700000000000) as [H _]; [lia|].
  destruct (H (js "s3cret")) as (p & He & _ & _ & _ & Hc); [reflexivity|].
  assert (p = example_payload_half) as ->.
  { revert He. vm_compute. by intros [= <-]. }
  rewrite Hc. vm_compute. reflexivity.
Defined.

(** C1. Round trip.  With the secret configured, for every order id and
    every e-mail address, the token that [createReviewToken] returns (at a
    time of issue between 0 and 8.64e15) is accepted by [verifyReviewToken]
    for the same order id at the time of issue and at every time that has
    not passed the expiry it carries, the time of issue plus 45 days. *)
Theorem createReviewToken_then_verify (toLowerCase : jsstring → jsstring) (env : Env)
    (secret order_id email : jsstring) (issued now : Z) :
  configured (REVIEW_LINK_SECRET env) = Some secret →
  0 <= issued <= 8640000000000000 →
  time_value now → now <= issued + 3888000000 →
  ∃ token,
    result (createReviewToken toLowerCase env order_id email issued) = Normal token
    ∧ result (verifyReviewToken env token order_id now) = Normal true
    ∧ result (verifyReviewToken env token order_id issued) = Normal true.
Proof.
  intros Hs Hi Hn Hle.
  destruct (review_token_parts toLowerCase env secret order_id email issued Hs Hi)
    as (u & Hsafe & Hne & Hd & Hc & Hh & _).
  eexists. split; [by rewrite Hc|].
  assert (Ht : ∀ t, time_value t → t <= issued + 3888000000 →
            result (verifyReviewToken env
                      (u ++ js "." ++ hmac_sha256_hex secret u) order_id t) = Normal true).
  { intros t Ht Hlt.
    rewrite (verifyReviewToken_halves env secret _ order_id _ _ t Hs Hh).
    rewrite bool_decide_eq_true_2 by done. rewrite Hd.
    rewrite check_review_payload by done.
    by rewrite !bool_decide_eq_true_2 by done. }
  split; apply Ht; try done; unfold time_value in *; lia.
Qed.

Lemma createReviewToken_then_verify_witness :
  ∃ token,
    result (createReviewToken (fmap ascii_lower) example_env (js "FF-2026-100001")
              (js "Ann@Example.com") 1700000000000) = Normal token
    ∧ result (verifyReviewToken example_env token (js "FF-2026-100001") 1703888000000)
      = Normal true
    ∧ result (verifyReviewToken example_env token (js "FF-2026-100001") 1700000000000)
      = Normal true.
Proof.
  apply (createReviewToken_then_verify (fmap ascii_lower) example_env (js "s3cret")
           (js "FF-2026-100001") (js "Ann@Example.com") 1700000000000 1703888000000).
  - reflexivity.
  - lia.
  - unfold time_value. lia.
  - lia.
Defined.
